(** * Sigma Gloves chatbot: the text matchers

    A shallow embedding of the matching code of the repository:
    - [IntentMatcher]      (assets/intent_matcher.js),
    - [KnowledgeEngine]    (assets/knowledge_engine.js),
    - [IndustryIndexerV3]  (IndustryIndexer v3.0, the keyword index),
    - [IndustryIndexer]    (industry_indexer.js, the alias scorer),
    - [ProductMatcher]     (product_matcher.js, the rule-based recommender),
    followed by the properties of the specification, each stated on
    these definitions.

    Conventions of the embedding.
    - A JavaScript string is the list of its UTF-16 code units; the texts
      are taken in the Basic Multilingual Plane, where a code unit is a
      code point.
    - Values that come out of [JSON.parse] are the type [value]; numbers
      are the integral ones.
    - Scores are exact rationals ([Q]); the rounding of IEEE-754 doubles
      is not modelled.
    - The Unicode tables of the JavaScript engine ([\p{L}], [\p{N}],
      [toLowerCase], case folding of [/iu]) are a parameter, the class
      [Unicode]; [Latin_Arabic] is their restriction to the Basic Latin,
      Latin-1 Supplement and Arabic blocks, used to evaluate the code on
      Persian and English text.
    - A promise that depends on the network takes the outcome of the
      request as an argument ([response]). *)

From Stdlib Require Import List NArith ZArith QArith Qround Bool Lia Lqa.
From Stdlib Require Import String Ascii Permutation Sorted DecimalPos.
Import ListNotations.

Set Implicit Arguments.
Set Warnings "-register-all".

Close Scope Q_scope.
Open Scope N_scope.

(* ================================================================== *)
(** * JavaScript strings *)
(* ================================================================== *)

Definition char := N.
Definition jsstr := list char.

(** String literals of this file are written in UTF-8, as in the source
    files, and decoded to code units. *)
Module Utf8.

Definition cont (b : N) : N := (b - 128)%N.

Fixpoint decode (bs : list N) : jsstr :=
  match bs with
  | [] => []
  | b :: r =>
      if (b <? 128)%N then b :: decode r
      else if (b <? 224)%N then
        match r with
        | c1 :: r1 => ((b - 192) * 64 + cont c1)%N :: decode r1
        | [] => []
        end
      else
        match r with
        | c1 :: c2 :: r2 =>
            ((b - 224) * 4096 + cont c1 * 64 + cont c2)%N :: decode r2
        | _ => []
        end
  end.

Definition bytes (s : string) : list N :=
  List.map N_of_ascii (list_ascii_of_string s).

End Utf8.

Definition str (s : string) : jsstr := Utf8.decode (Utf8.bytes s).

Definition SP : char := 32%N.

Fixpoint eqb_str (a b : jsstr) : bool :=
  match a, b with
  | [], [] => true
  | x :: a', y :: b' => (x =? y)%N && eqb_str a' b'
  | _, _ => false
  end.

Definition isEmpty (s : jsstr) : bool :=
  match s with [] => true | _ => false end.

(** [filter(Boolean)] on an array of strings. *)
Definition nonEmpty (s : jsstr) : bool := negb (isEmpty s).

(** [s.startsWith(t)]. *)
Fixpoint startsWith (s t : jsstr) : bool :=
  match t, s with
  | [], _ => true
  | y :: t', x :: s' => (x =? y)%N && startsWith s' t'
  | _ :: _, [] => false
  end.

(** [s.includes(t)], that is [s.indexOf(t) !== -1]. *)
Fixpoint includes (s t : jsstr) : bool :=
  startsWith s t ||
  match s with
  | [] => false
  | _ :: s' => includes s' t
  end.

(** [arr.includes(x)] on an array of strings. *)
Definition arrIncludes (arr : list jsstr) (x : jsstr) : bool :=
  existsb (eqb_str x) arr.

(** [new Set(arr)]: the first occurrence of each string, in order. *)
Definition uniq (arr : list jsstr) : list jsstr :=
  fold_left (fun acc x => if arrIncludes acc x then acc else acc ++ [x]) arr [].

(** [s.split(d)] for a one-character separator. *)
Fixpoint split (d : char) (s : jsstr) : list jsstr :=
  match s with
  | [] => [[]]
  | c :: r =>
      if (c =? d)%N then [] :: split d r
      else match split d r with
           | h :: t => (c :: h) :: t
           | [] => [[c]]
           end
  end.

(** [arr.join(d)]. *)
Fixpoint join (d : jsstr) (arr : list jsstr) : jsstr :=
  match arr with
  | [] => []
  | [x] => x
  | x :: r => x ++ d ++ join d r
  end.

(** The class [\s] of regular expressions, which is also what [trim]
    strips: WhiteSpace and LineTerminator of ECMAScript. *)
Definition isWhiteSpace (c : char) : bool :=
  ((0x09 <=? c) && (c <=? 0x0D) || (c =? 0x20) || (c =? 0xA0) ||
   (c =? 0x1680) || (0x2000 <=? c) && (c <=? 0x200A) ||
   (c =? 0x2028) || (c =? 0x2029) || (c =? 0x202F) || (c =? 0x205F) ||
   (c =? 0x3000) || (c =? 0xFEFF))%N.

Fixpoint trimStart (s : jsstr) : jsstr :=
  match s with
  | [] => []
  | c :: r => if isWhiteSpace c then trimStart r else s
  end.

Definition trimEnd (s : jsstr) : jsstr := rev (trimStart (rev s)).

Definition trim (s : jsstr) : jsstr := trimEnd (trimStart s).

(** [s.replace(/\s+/g, ' ')]: [inrun] says that the previous character
    belonged to the run being replaced. *)
Fixpoint collapseFrom (inrun : bool) (s : jsstr) : jsstr :=
  match s with
  | [] => []
  | c :: r =>
      if isWhiteSpace c
      then if inrun then collapseFrom true r else SP :: collapseFrom true r
      else c :: collapseFrom false r
  end.

Definition collapseSpaces (s : jsstr) : jsstr := collapseFrom false s.

(** [s.replace(/x/g, y)] for single characters. *)
Definition replaceChar (x y : char) (s : jsstr) : jsstr :=
  List.map (fun c => if (c =? x)%N then y else c) s.

(** [s.replace(/[^...]/g, ' ')]: every character outside the class
    [keep] becomes a space. *)
Definition blankOutside (keep : char -> bool) (s : jsstr) : jsstr :=
  List.map (fun c => if keep c then c else SP) s.

Definition inRange (lo hi c : char) : bool := ((lo <=? c) && (c <=? hi))%N.

(** The Eastern Arabic-Indic digits [۰-۹] are U+06F0..U+06F9. *)
Definition isEasternDigit (c : char) : bool := inRange 0x6F0 0x6F9 c.
Definition isAsciiDigit (c : char) : bool := inRange 0x30 0x39 c.

(** Decimal text of a natural number ([String(n)] for a non-negative
    integer). *)
Fixpoint uintChars (u : Decimal.uint) : jsstr :=
  match u with
  | Decimal.Nil => []
  | Decimal.D0 r => 0x30%N :: uintChars r
  | Decimal.D1 r => 0x31%N :: uintChars r
  | Decimal.D2 r => 0x32%N :: uintChars r
  | Decimal.D3 r => 0x33%N :: uintChars r
  | Decimal.D4 r => 0x34%N :: uintChars r
  | Decimal.D5 r => 0x35%N :: uintChars r
  | Decimal.D6 r => 0x36%N :: uintChars r
  | Decimal.D7 r => 0x37%N :: uintChars r
  | Decimal.D8 r => 0x38%N :: uintChars r
  | Decimal.D9 r => 0x39%N :: uintChars r
  end.

Definition natToString (n : N) : jsstr := uintChars (N.to_uint n).

Definition intToString (z : Z) : jsstr :=
  match z with
  | Z0 => [0x30%N]
  | Zpos p => natToString (Npos p)
  | Zneg p => 0x2D%N :: natToString (Npos p)
  end.

(* ================================================================== *)
(** * The Unicode tables of the engine *)
(* ================================================================== *)

Class Unicode := {
(** [\p{L}] *)
isLetter : char -> bool;
(** [\p{N}] *)
isNumber : char -> bool;
(** [String.prototype.toLowerCase] *)
toLowerCase : jsstr -> jsstr;
(** [Canonicalize] of a regular expression with the flags [iu]
    (simple case folding) *)
canonicalize : char -> char
}.

(** A digit of either script, and the ASCII digit of a character. *)
Definition isDigit (c : char) : bool := isAsciiDigit c || isEasternDigit c.

Definition toAsciiDigit (c : char) : char :=
  if isEasternDigit c then c - 0x6F0 + 0x30 else c.

(** What the proofs about digits use of the tables: [toLowerCase]
    leaves the digits of a string as they are, and digits are numbers. *)
Class UnicodeDigits (U : Unicode) : Prop := {
  toLowerCase_digits :
    forall s, filter isDigit (toLowerCase s) = filter isDigit s;
  isNumber_digit : forall c, isDigit c = true -> isNumber c = true
}.

(** What the proofs of idempotence use of the tables: the characters
    that [toLowerCase] returns are left alone by it, a string of such
    characters is left alone, and no Arabic character comes out of
    [toLowerCase] that did not go in. *)
Class UnicodeLower (U : Unicode) : Prop := {
  lowered_out : forall s c, In c (toLowerCase s) -> toLowerCase [c] = [c];
  lowered_fix :
    forall s, (forall c, In c s -> toLowerCase [c] = [c]) -> toLowerCase s = s;
  lowered_space : toLowerCase [SP] = [SP];
  lowered_arabic :
    forall s c, In c (toLowerCase s) -> inRange 0x600 0x6FF c = true -> In c s
}.

(** The tables on the Basic Latin, Latin-1 Supplement and Arabic blocks;
    other code units are taken as caseless symbols. *)
Module Tables.

Definition letter (c : char) : bool :=
  inRange 0x41 0x5A c || inRange 0x61 0x7A c ||
  (c =? 0xAA)%N || (c =? 0xB5)%N || (c =? 0xBA)%N ||
  inRange 0xC0 0xD6 c || inRange 0xD8 0xF6 c || inRange 0xF8 0xFF c ||
  inRange 0x620 0x64A c || inRange 0x66E 0x66F c ||
  inRange 0x671 0x6D3 c || (c =? 0x6D5)%N || inRange 0x6E5 0x6E6 c ||
  inRange 0x6EE 0x6EF c || inRange 0x6FA 0x6FC c || (c =? 0x6FF)%N.

Definition number (c : char) : bool :=
  inRange 0x30 0x39 c || inRange 0xB2 0xB3 c || (c =? 0xB9)%N ||
  inRange 0xBC 0xBE c || inRange 0x660 0x669 c || inRange 0x6F0 0x6F9 c.

Definition lowerChar (c : char) : char :=
  if inRange 0x41 0x5A c || inRange 0xC0 0xD6 c || inRange 0xD8 0xDE c
  then (c + 32)%N else c.

Definition fold (c : char) : char :=
  if (c =? 0xB5)%N then 0x3BC%N
  else if (c =? 0x17F)%N then 0x73%N
  else if (c =? 0x212A)%N then 0x6B%N
  else lowerChar c.

End Tables.

#[export] Instance Latin_Arabic : Unicode := {
  isLetter := Tables.letter;
  isNumber := Tables.number;
  toLowerCase := List.map Tables.lowerChar;
  canonicalize := Tables.fold
}.

(* ================================================================== *)
(** * Values of [JSON.parse] *)
(* ================================================================== *)

Inductive value : Type :=
| VUndef
| VNull
| VBool (b : bool)
| VNum (n : Z)
| VStr (s : jsstr)
| VArr (items : list value)
| VObj (fields : list (jsstr * value)).

(** [!!v] *)
Definition truthy (v : value) : bool :=
  match v with
  | VUndef | VNull => false
  | VBool b => b
  | VNum n => negb (n =? 0)%Z
  | VStr s => nonEmpty s
  | VArr _ | VObj _ => true
  end.

(** [a || b] *)
Definition orElse (a b : value) : value := if truthy a then a else b.

Definition isArray (v : value) : bool :=
  match v with VArr _ => true | _ => false end.

(** [String(v)]. A number is written with all its digits, as [String]
    does for the integers below 10^21 in absolute value. *)
Fixpoint ToString (v : value) : jsstr :=
  match v with
  | VUndef => str "undefined"
  | VNull => str "null"
  | VBool true => str "true"
  | VBool false => str "false"
  | VNum n => intToString n
  | VStr s => s
  | VArr items =>
      (fix elems (l : list value) : jsstr :=
         match l with
         | [] => []
         | x :: r =>
             let sx := match x with
                       | VUndef | VNull => []
                       | _ => ToString x
                       end in
             match r with
             | [] => sx
             | _ :: _ => sx ++ 0x2C%N :: elems r
             end
         end) items
  | VObj _ => str "[object Object]"
  end.

Fixpoint lookup (k : jsstr) (fields : list (jsstr * value)) : value :=
  match fields with
  | [] => VUndef
  | (k', v) :: r => if eqb_str k k' then v else lookup k r
  end.

Definition prop (fields : list (jsstr * value)) (k : string) : value :=
  lookup (str k) fields.

(** [v.k] for a value that is not null or undefined; only own data
    properties of objects are modelled. *)
Definition get (v : value) (k : string) : value :=
  match v with
  | VObj fields => prop fields k
  | _ => VUndef
  end.

(* ================================================================== *)
(** * Numbers and arrays *)
(* ================================================================== *)

Definition Qlt_bool (a b : Q) : bool := negb (Qle_bool b a).

(** [Math.max(a, b)] and [Math.min(a, b)] *)
Definition Qmaxb (a b : Q) : Q := if Qle_bool a b then b else a.
Definition Qminb (a b : Q) : Q := if Qle_bool a b then a else b.

Definition ofNat (n : nat) : Q := inject_Z (Z.of_nat n).

(** [Number(x.toFixed(3))] for a non-negative [x]: the nearest multiple
    of 1/1000, the larger one on a tie. The scores are the exact
    rationals of the decimal constants of the code, which computes with
    doubles: where [x] lies half way between two thousandths the double
    may lie below it and be rounded down. *)
Definition toFixed3 (x : Q) : Q :=
  (Qfloor (x * 1000 + (1 # 2)) # 1000)%Q.

(** [arr.sort(cmp)] is stable; [before x y] says [cmp(x, y) <= 0], that
    is, [x] may stay ahead of [y]. *)
Section Sort.
Variable A : Type.
Variable before : A -> A -> bool.

Fixpoint insertSorted (x : A) (l : list A) : list A :=
  match l with
  | [] => [x]
  | y :: r => if before x y then x :: l else y :: insertSorted x r
  end.

Fixpoint sortBy (l : list A) : list A :=
  match l with
  | [] => []
  | x :: r => insertSorted x (sortBy r)
  end.
End Sort.

(** [arr.slice(0, n)] for an integer [n]; a negative [n] counts from the
    end. *)
Definition slice0 (A : Type) (n : Z) (l : list A) : list A :=
  if (0 <=? n)%Z then firstn (Z.to_nat n) l
  else firstn (Nat.sub (List.length l) (Z.to_nat (- n))) l.

(* ================================================================== *)
(** * The network *)
(* ================================================================== *)

(** The outcome of [fetch(path)] followed by [r.json()]. *)
Inductive response : Type :=
| NetworkError              (** the promise of [fetch] rejects *)
| HttpError (status : Z)    (** [r.ok] is false *)
| BadJson                   (** [r.json()] rejects: malformed payload *)
| Json (body : value).      (** the parsed payload *)

(** [Object.assign(target, src)] on the own properties. *)
Fixpoint setField (k : jsstr) (v : value) (fields : list (jsstr * value))
  : list (jsstr * value) :=
  match fields with
  | [] => [(k, v)]
  | (k', v') :: r =>
      if eqb_str k k' then (k, v) :: r else (k', v') :: setField k v r
  end.

Definition assign (target src : list (jsstr * value)) : list (jsstr * value) :=
  fold_left (fun t kv => setField (fst kv) (snd kv) t) src target.

Definition indexKeys (n : nat) : list jsstr :=
  List.map (fun i => natToString (N.of_nat i)) (seq 0 n).

(** The own enumerable properties of a value, in the order of
    enumeration (the fields of an object are listed in that order). *)
Definition ownProps (v : value) : list (jsstr * value) :=
  match v with
  | VObj fields => fields
  | VArr items => combine (indexKeys (List.length items)) items
  | VStr s => combine (indexKeys (List.length s)) (List.map (fun c => VStr [c]) s)
  | _ => []
  end.

(** [arr.map((it, idx) => f(it, idx))] *)
Fixpoint mapi_from (A B : Type) (f : A -> nat -> B) (i : nat) (l : list A)
  : list B :=
  match l with
  | [] => []
  | x :: r => f x i :: mapi_from f (S i) r
  end.

Definition mapi (A B : Type) (f : A -> nat -> B) (l : list A) : list B :=
  mapi_from f 0 l.

(* ================================================================== *)
(** * intent_matcher.js *)
(* ================================================================== *)

Module IntentMatcher.
Section WithUnicode.
Context {U : Unicode}.

Definition normalizeFa (s : value) : jsstr :=
  if negb (truthy s) then []
  else
    let s := toLowerCase (trim (ToString s)) in
    let s := replaceChar 0x64A 0x6CC s in
    let s := replaceChar 0x643 0x6A9 s in
    let s := List.map (fun d => if isEasternDigit d
                                then 48 + 0x6F0 - d else d) s in
    let s := blankOutside
               (fun c => isLetter c || isNumber c || isWhiteSpace c) s in
    collapseSpaces s.

Definition tokenSet (s : value) : list jsstr :=
  filter nonEmpty (split SP (normalizeFa s)).

(** What one keyword [k] of the list adds to the score. *)
Definition keywordScore (textTokens : list jsstr) (k : value) : Q :=
  let nk := normalizeFa k in
  if isEmpty nk then 0%Q
  else
    let parts := filter nonEmpty (split SP nk) in
    if (1 <? List.length parts)%nat then
      if includes (join [SP] textTokens) nk then 1%Q else 0%Q
    else if arrIncludes textTokens nk then 1%Q
    else if existsb (fun tk => includes tk nk && (3 <=? List.length nk)%nat)
                    textTokens
         then (6 # 10)%Q
         else 0%Q.

Definition scoreForTextAgainstList (textTokens : list jsstr)
           (list : list value) : Q :=
  fold_left (fun score k => (score + keywordScore textTokens k)%Q) list 0%Q.

(** The dictionary of [intent_keywords_fa.json] with the shape that
    the code reads: the entries of [intents], [industries] and [hazards]
    in the order of [Object.entries], the optional fields absent or
    present. *)
Record IntentObj := {
  io_keywords : option (list value);
  io_examples : option (list value)
}.

Record Settings := {
  min_intent_score : option Q;
  high_confidence : option Q
}.

Record Dict := {
  intents : list (jsstr * IntentObj);
  industries : list (jsstr * list value);
  hazards : list (jsstr * list value);
  settings : option Settings
}.

Record Scores := {
  intentScores : list (jsstr * Q);
  industryScores : list (jsstr * Q);
  hazardScores : list (jsstr * Q);
  tokens : list jsstr;
  rawText : jsstr
}.

(** [x || []] for an optional array. *)
Definition orEmpty (l : option (list value)) : list value :=
  match l with Some l => l | None => [] end.

(** The score of one intent: its keywords, and its examples at 0.8. *)
Definition intentScore (tokens : list jsstr) (intentObj : IntentObj) : Q :=
  (0 + scoreForTextAgainstList tokens (orEmpty (io_keywords intentObj))
   + scoreForTextAgainstList tokens (orEmpty (io_examples intentObj))
     * (8 # 10))%Q.

(** The loop over [dict.industries] and over [dict.hazards]: the entries
    with a positive score. *)
Definition positiveScores (tokens : list jsstr)
           (entries : list (jsstr * list value)) : list (jsstr * Q) :=
  filter (fun e => Qlt_bool 0 (snd e))
         (List.map (fun e => (fst e, scoreForTextAgainstList tokens (snd e)))
                   entries).

Definition computeIntentScores (dict : Dict) (text : value) : Scores :=
  let txt := normalizeFa text in
  let tokens := tokenSet (VStr txt) in
  {| intentScores :=
       List.map (fun e => (fst e, intentScore tokens (snd e))) (intents dict);
     industryScores := positiveScores tokens (industries dict);
     hazardScores := positiveScores tokens (hazards dict);
     tokens := tokens;
     rawText := txt |}.

Record Best := { best_name : jsstr; best_score : Q }.

Definition bestIntent (matchObj : Scores) : Best :=
  fold_left (fun best e =>
               if Qlt_bool (best_score best) (snd e)
               then {| best_name := fst e; best_score := snd e |}
               else best)
            (intentScores matchObj)
            {| best_name := str "unknown"; best_score := 0 |}.

Record Result := {
  intent : jsstr;
  raw_score : Q;
  score : Q;
  confident : bool;
  needsClarify : bool;
  r_industries : list (jsstr * Q);
  r_hazards : list (jsstr * Q);
  r_tokens : list jsstr
}.

(** [dict.settings && dict.settings.f ? dict.settings.f : d] *)
Definition setting (dict : Dict) (f : Settings -> option Q) (d : Q) : Q :=
  match settings dict with
  | Some st => match f st with
               | Some x => if Qeq_bool x 0 then d else x
               | None => d
               end
  | None => d
  end.

(** [Object.entries(scores).sort((a, b) => b[1] - a[1]).slice(0, 3)] *)
Definition top3 (scores : list (jsstr * Q)) : list (jsstr * Q) :=
  slice0 3 (sortBy (fun a b => Qle_bool (snd b) (snd a)) scores).

(** [matchIntent(text)]; [None] is the exception of the module that is
    not initialized. *)
Definition matchIntent (dict : option Dict) (text : value) : option Result :=
  match dict with
  | None => None
  | Some dict =>
      let m := computeIntentScores dict text in
      let best := bestIntent m in
      let maxPossible := 6%Q in
      let normalized := Qminb 1 (best_score best / maxPossible) in
      let min := setting dict min_intent_score (28 # 100) in
      let high := setting dict high_confidence (65 # 100) in
      Some {| intent := best_name best;
              raw_score := best_score best;
              score := normalized;
              confident := Qle_bool high normalized;
              needsClarify := Qlt_bool normalized min;
              r_industries := top3 (industryScores m);
              r_hazards := top3 (hazardScores m);
              r_tokens := tokens m |}
  end.

End WithUnicode.
End IntentMatcher.

(* ================================================================== *)
(** * industry_indexer.js: the alias scorer *)
(* ================================================================== *)

Module IndustryIndexer.

Definition MIN_SCORE : Q := (10 # 100)%Q.

Inductive Reason :=
| Phrase (alias : jsstr)
| Fuzzy (a : jsstr)
| Tokens (hitCount : Q) (n : nat).

Record AliasScore := { score : Q; reason : Reason }.

(** One row of the table of [levenshtein]: [prev] is the previous row
    from column [j-1] on, [left] is [cur[j-1]], [b] the characters of
    [b] from [j-1] on. *)
Fixpoint levRow (ai : char) (b : jsstr) (prev : list nat) (left : nat)
  : list nat :=
  match b, prev with
  | bj :: b', pd :: ((pu :: _) as prev') =>
      let cost := if (ai =? bj)%N then 0%nat else 1%nat in
      let v := Nat.min (Nat.min (pu + 1) (left + 1)) (pd + cost) in
      v :: levRow ai b' prev' v
  | _, _ => []
  end.

(** The loop over [i]: [i] is the row number of the first character
    of [a]. *)
Fixpoint levRows (i : nat) (a b : jsstr) (prev : list nat) : list nat :=
  match a with
  | [] => prev
  | ai :: a' => levRows (S i) a' b (i :: levRow ai b prev i)
  end.

Definition levenshtein (a b : jsstr) : nat :=
  if eqb_str a b then 0%nat
  else
    let al := List.length a in
    let bl := List.length b in
    if (al =? 0)%nat then bl
    else if (bl =? 0)%nat then al
    else nth bl (levRows 1 a b (seq 0 (S bl))) 0%nat.

Definition levSim (a b : jsstr) : Q :=
  let maxL := Nat.max (List.length a) (List.length b) in
  if (maxL =? 0)%nat then 1%Q
  else Qmaxb 0 (1 - ofNat (levenshtein a b) / ofNat maxL)%Q.

Section WithUnicode.
Context {U : Unicode}.

Definition normalize (s : value) : jsstr :=
  if negb (truthy s) then []
  else
    let s := toLowerCase (trim (ToString s)) in
    let s := replaceChar 0x64A 0x6CC s in
    let s := replaceChar 0x643 0x6A9 s in
    let s := flat_map (fun d => if isEasternDigit d
                                then natToString (d - 1776) else [d]) s in
    let s := blankOutside
               (fun c => isLetter c || isNumber c || isWhiteSpace c) s in
    collapseSpaces s.

Definition tokensOf (s : value) : list jsstr :=
  filter nonEmpty (split SP (normalize s)).

End WithUnicode.

(** What one token [at] of the alias adds to [hitCount]. *)
Definition tokenHit (textTokens : list jsstr) (at_ : jsstr) : Q :=
  if arrIncludes textTokens at_ then 1%Q
  else if existsb (fun tt => includes tt at_ && (3 <=? List.length at_)%nat)
                  textTokens
       then (9 # 10)%Q
       else 0%Q.

Definition hitCount (textTokens aliasTokens : list jsstr) : Q :=
  fold_left (fun h at_ => (h + tokenHit textTokens at_)%Q) aliasTokens 0%Q.

Definition tokenRatio (textTokens aliasTokens : list jsstr) : Q :=
  if (List.length aliasTokens =? 0)%nat then 0%Q
  else (hitCount textTokens aliasTokens / ofNat (List.length aliasTokens))%Q.

(** [const sim = levSim(a, tt); if (sim > bestSim) bestSim = sim] *)
Definition closer (a : jsstr) (bestSim : Q) (tt : jsstr) : Q :=
  let sim := levSim a tt in
  if Qlt_bool bestSim sim then sim else bestSim.

Definition bestSim (a : jsstr) (textTokens : list jsstr) : Q :=
  fold_left (closer a) textTokens 0%Q.

Definition scoreAgainstAlias (textTokens : list jsstr) (joinedText alias : jsstr)
  : AliasScore :=
  let aliasTokens := filter nonEmpty (split SP alias) in
  if includes joinedText alias then {| score := 1; reason := Phrase alias |}
  else
    let hits := hitCount textTokens aliasTokens in
    let ratio := tokenRatio textTokens aliasTokens in
    let composite :=
      {| score := Qminb 1 (ratio * (85 # 100));
         reason := Tokens hits (List.length aliasTokens) |} in
    match aliasTokens with
    | [a] =>
        let sim := bestSim a textTokens in
        if Qle_bool (75 # 100) sim
        then {| score := Qmaxb ratio (sim * (9 # 10)); reason := Fuzzy a |}
        else composite
    | _ => composite
    end.

(** [industryIndex]: the normalized aliases of each code, in the order
    of insertion. *)
Definition Aliases : Type := list (jsstr * list jsstr).

(** The state of the module: [dict] and [industryIndex]. *)
Record State := { dict : value; industryIndex : Aliases }.

Definition initial : State := {| dict := VNull; industryIndex := [] |}.

(** [industryIndex[code] = aliases] *)
Fixpoint setAliases (code : jsstr) (aliases : list jsstr) (index : Aliases)
  : Aliases :=
  match index with
  | [] => [(code, aliases)]
  | (c, a) :: r =>
      if eqb_str code c then (c, aliases) :: r
      else (c, a) :: setAliases code aliases r
  end.

(** One industry of [industryScoreForText]: the best score over its
    aliases and the reason of it. *)
Definition topAlias (textTokens : list jsstr) (joinedText : jsstr)
           (aliases : list jsstr) : Q * option Reason :=
  fold_left (fun top alias =>
               let res := scoreAgainstAlias textTokens joinedText alias in
               if Qlt_bool (fst top) (score res)
               then (score res, Some (reason res)) else top)
            aliases (0%Q, None).

Definition industryScore (textTokens : list jsstr) (joinedText : jsstr)
           (aliases : list jsstr) : Q :=
  let topAliasScore := fst (topAlias textTokens joinedText aliases) in
  let genericPenalty :=
    if existsb (fun a => (List.length a <=? 2)%nat) aliases
    then (9 # 10)%Q else 1%Q in
  let sc := (topAliasScore * genericPenalty)%Q in
  let multiHit := List.length (filter (includes joinedText) aliases) in
  if (1 <? multiHit)%nat
  then Qminb 1 (sc + Qminb (12 # 100) ((3 # 100) * ofNat multiHit))%Q
  else sc.

Record Row := {
  row_code : jsstr;
  row_score : Q;
  aliasMatched : option jsstr;
  row_reason : option Reason
}.

Record MatchRow := {
  code : jsstr;
  name_fa : jsstr;
  match_score : Q;
  match_reason : option Reason;
  aliases : list jsstr
}.

Section Matching.
Context {U : Unicode}.

(** [(aliases || []).map(a => normalize(a)).filter(Boolean)], made
    unique; [None] where [map] is missing. *)
Definition aliasesOf (aliases : value) : option (list jsstr) :=
  match aliases with
  | VArr l => Some (uniq (filter nonEmpty (List.map normalize l)))
  | v => if truthy v then None else Some []
  end.

(** The loop of [buildIndex]; the flag is false when it throws. *)
Fixpoint buildEntries (entries : list (jsstr * value)) (index : Aliases)
  : Aliases * bool :=
  match entries with
  | [] => (index, true)
  | (code, aliases) :: r =>
      match aliasesOf aliases with
      | Some l => buildEntries r (setAliases code l index)
      | None => (index, false)
      end
  end.

Definition buildIndex (d : value) : Aliases * bool :=
  let raw := if truthy d && truthy (get d "industries")
             then get d "industries" else VObj [] in
  buildEntries (ownProps raw) [].

(** [init(jsonPath)]: whether the promise resolves, and the state. *)
Definition init (st : State) (r : response) : bool * State :=
  match r with
  | Json data =>
      let built := buildIndex data in
      (snd built, {| dict := data; industryIndex := fst built |})
  | _ => (false, st)
  end.

Definition industryScoreForText (st : State) (text : value) : list Row :=
  let txt := normalize text in
  let textTokens := tokensOf (VStr txt) in
  let joinedText := join [SP] textTokens in
  let results :=
    List.map (fun e =>
                let top := topAlias textTokens joinedText (snd e) in
                {| row_code := fst e;
                   row_score := industryScore textTokens joinedText (snd e);
                   aliasMatched := if Qlt_bool 0 (fst top)
                                   then hd_error (snd e) else None;
                   row_reason := snd top |})
             (industryIndex st) in
  sortBy (fun a b => Qle_bool (row_score b) (row_score a)) results.

(** [bestMatch(text, opts)]: [rawText], [matches] and [all]; [None] is
    the exception of the module that is not initialized. *)
Definition bestMatch (st : State) (text : value) (topN : option Z)
  : option (jsstr * list MatchRow * list Row) :=
  if negb (truthy (dict st)) then None
  else
    let topN := match topN with
                | Some n => if (n =? 0)%Z then 3%Z else n
                | None => 3%Z
                end in
    let txt := normalize (VStr (ToString (orElse text (VStr [])))) in
    let results := slice0 topN (industryScoreForText st (VStr txt)) in
    let mapped :=
      List.map (fun r =>
                  let aliases := match List.find (fun e => eqb_str (row_code r) (fst e))
                                                 (industryIndex st) with
                                 | Some e => snd e
                                 | None => []
                                 end in
                  {| code := row_code r;
                     name_fa := match aliases with
                                | a :: _ => a
                                | [] => row_code r
                                end;
                     match_score := toFixed3 (row_score r);
                     match_reason := row_reason r;
                     aliases := firstn 5 aliases |})
               results in
    Some (txt,
          filter (fun m => Qle_bool MIN_SCORE (match_score m)) mapped,
          results).

(** [bestSingle(text)]: the first match, or the record of the code
    [unknown]. *)
Inductive Single :=
| Found (m : MatchRow)
| Unknown.

Definition bestSingle (st : State) (text : value) : option Single :=
  match bestMatch st text (Some 1%Z) with
  | Some (_, matches, _) =>
      Some match matches with
           | m :: _ => Found m
           | [] => Unknown
           end
  | None => None
  end.

End Matching.

End IndustryIndexer.

(* ================================================================== *)
(** * knowledge_engine.js *)
(* ================================================================== *)

Module KnowledgeEngine.

(** [CFG] *)
Definition tokenOverlapWeight : Q := (45 # 100)%Q.
Definition lcsWeight : Q := (35 # 100)%Q.
Definition keywordHitWeight : Q := (20 # 100)%Q.
Definition minScoreThreshold : Q := (1 # 10)%Q.
Definition defaultTopN : Z := 6%Z.

(** An entry of [_kb], as [init] leaves it: [source] holds the own
    properties copied from the record of the payload. *)
Record Entry := {
  id : value;
  title : jsstr;
  snippet : jsstr;
  url : jsstr;
  type_ : jsstr;
  keywords : list jsstr;
  source : list (jsstr * value)
}.

Definition meta (e : Entry) : value := prop (source e) "meta".

Record Intent := {
  intent_id : value;
  title_fa : value;
  intent_keywords : list jsstr;
  priority : Z
}.

(** The internal state of the module. *)
Record State := {
  _kb : list Entry;
  _indexInitialized : bool;
  _intentKeywords : list Intent;
  _kbPath : value
}.

(** The state when the script has been evaluated. *)
Definition initial : State :=
  {| _kb := []; _indexInitialized := false;
     _intentKeywords := []; _kbPath := VNull |}.

(** What the two resources answer during one call. *)
Record Net := { intentsFile : response; kbFile : response }.

Definition ensureString (s : value) : jsstr :=
  match s with
  | VNull | VUndef => []
  | _ => ToString s
  end.

Definition isZeroWidth (c : char) : bool :=
  inRange 0x200B 0x200D c || (c =? 0xFEFF).

(** [longest common subsequence] table, shared by the two branches of
    [lcsLength]: [prev] is [dp[i-1]] from column [j-1] on and [left]
    is [dp[i][j-1]]. *)
Section LCS.
Variable A : Type.
Variable eqb : A -> A -> bool.

Fixpoint lcsRow (x : A) (b : list A) (prev : list nat) (left : nat)
  : list nat :=
  match b, prev with
  | bj :: b', pd :: ((pu :: _) as prev') =>
      let v := if eqb x bj then (pd + 1)%nat
               else if (left <? pu)%nat then pu else left in
      v :: lcsRow x b' prev' v
  | _, _ => []
  end.

Fixpoint lcsRows (a b : list A) (prev : list nat) : list nat :=
  match a with
  | [] => prev
  | x :: a' => lcsRows a' b (0%nat :: lcsRow x b prev 0%nat)
  end.

Definition lcsTable (a b : list A) : nat :=
  nth (List.length b) (lcsRows a b (repeat 0%nat (S (List.length b)))) 0%nat.
End LCS.

(** [\w] for a regular expression with the flags [iu]. *)
Definition basicWordChar (c : char) : bool :=
  inRange 0x41 0x5A c || inRange 0x61 0x7A c || inRange 0x30 0x39 c ||
  (c =? 0x5F).

Section WithUnicode.
Context {U : Unicode}.

Definition normalizeText (s : value) : jsstr :=
  let s := toLowerCase (ensureString s) in
  let s := filter (fun c => negb (isZeroWidth c)) s in
  let s := blankOutside
             (fun c => isLetter c || isNumber c || isWhiteSpace c) s in
  trim (collapseSpaces s).

Definition tokenize (s : value) : list jsstr :=
  let t := normalizeText s in
  if isEmpty t then [] else filter nonEmpty (split SP t).

Definition lcsLength (a b : value) : nat :=
  let a := ensureString a in
  let b := ensureString b in
  let n := List.length a in
  let m := List.length b in
  if (n =? 0)%nat || (m =? 0)%nat then 0%nat
  else if (300 <? n)%nat || (300 <? m)%nat then
    let ta := tokenize (VStr a) in
    let tb := tokenize (VStr b) in
    if (List.length ta =? 0)%nat || (List.length tb =? 0)%nat then 0%nat
    else lcsTable eqb_str ta tb
  else lcsTable N.eqb a b.

Definition tokenOverlapScore (a b : value) : Q :=
  let A := uniq (tokenize a) in
  let B := uniq (tokenize b) in
  if (List.length A =? 0)%nat || (List.length B =? 0)%nat then 0%Q
  else
    let inter := List.length (filter (arrIncludes B) A) in
    let union := List.length (uniq (A ++ B)) in
    (ofNat inter / ofNat union)%Q.

Definition lcsRatio (a b : value) : Q :=
  let len := lcsLength a b in
  let maxLen := Nat.max (List.length (ensureString a))
                        (List.length (ensureString b)) in
  let maxLen := if (maxLen =? 0)%nat then 1%nat else maxLen in
  Qminb 1 (ofNat len / ofNat maxLen)%Q.

Definition isWordChar (c : char) : bool :=
  basicWordChar c || basicWordChar (canonicalize c).

(** The assertion [\b] between two neighbours. *)
Definition boundary (prev next : option char) : bool :=
  let w := fun o => match o with Some c => isWordChar c | None => false end in
  xorb (w prev) (w next).

(** The literal [kw] matched at the head of [s] without regard to
    case: the last character matched and the rest of [s]. *)
Fixpoint matchLiteral (kw s : jsstr) (last : option char)
  : option (option char * jsstr) :=
  match kw with
  | [] => Some (last, s)
  | k :: kw' =>
      match s with
      | c :: s' =>
          if (canonicalize c =? canonicalize k)%N
          then matchLiteral kw' s' (Some c)
          else None
      | [] => None
      end
  end.

(** [new RegExp('\\b' + esc + '\\b', 'iu').test(txt)], where [esc]
    is [kw] with its syntax characters escaped; [prev] is the
    character before [txt]. *)
Fixpoint testWord (kw : jsstr) (prev : option char) (txt : jsstr) : bool :=
  (boundary prev (hd_error txt) &&
   match matchLiteral kw txt prev with
   | Some (last, rest) => boundary last (hd_error rest)
   | None => false
   end) ||
  match txt with
  | [] => false
  | c :: r => testWord kw (Some c) r
  end.

Definition keywordHitScore (text : value) (entry : Entry) : Q :=
  let txt := normalizeText text in
  if (List.length (keywords entry) =? 0)%nat then 0%Q
  else
    let hits := List.length
                  (filter (fun kw => nonEmpty kw && testWord kw None txt)
                          (keywords entry)) in
    if (hits =? 0)%nat then 0%Q
    else Qminb 1 (ofNat hits / ofNat (List.length (keywords entry)))%Q.

Record Components := {
  tokenOverlap : Q;
  lcs : Q;
  keywordHit : Q
}.

Definition scoreCandidate (text : value) (entry : Entry) : Q * Components :=
  let a := VStr (ensureString text) in
  let b := VStr (if nonEmpty (title entry) then title entry
                 else snippet entry) in
  let tOverlap := tokenOverlapScore a b in
  let lcsR := lcsRatio a b in
  let kHit := keywordHitScore a entry in
  ((tokenOverlapWeight * tOverlap + lcsWeight * lcsR +
    keywordHitWeight * kHit)%Q,
   {| tokenOverlap := tOverlap; lcs := lcsR; keywordHit := kHit |}).

(* ---------------- intents ---------------- *)

Definition normalizeIntent (it : value) (idx : nat) : Intent :=
  let fallbackId := VStr (str "intent_" ++ natToString (N.of_nat idx)) in
  match it with
  | VObj _ | VArr _ =>
      let kws := match get it "keywords" with
                 | VArr l => l
                 | k => if truthy k then [VStr (ToString k)] else []
                 end in
      {| intent_id := orElse (orElse (get it "id") (get it "name")) fallbackId;
         title_fa := orElse (orElse (get it "title_fa") (get it "title"))
                            (VStr []);
         intent_keywords := List.map ToString kws;
         priority := match get it "priority" with VNum n => n | _ => 0%Z end |}
  | _ =>
      {| intent_id := fallbackId; title_fa := VStr [];
         intent_keywords := []; priority := 0%Z |}
  end.

Definition _loadIntentKeywords (r : response) : list Intent :=
  match r with
  | Json json =>
      let rawIntents :=
        match json with
        | VArr l => l
        | _ => match get json "intents" with
               | VArr l => l
               | _ => []
               end
        end in
      mapi normalizeIntent rawIntents
  | _ => []
  end.

(* ---------------- the knowledge base ---------------- *)

(** [out.meta?.type] *)
Definition metaType (out : list (jsstr * value)) : value :=
  match prop out "meta" with
  | VNull | VUndef => VUndef
  | m => get m "type"
  end.

(** The callback of [_kb.map] in [init]. *)
Definition normalizeEntry (it : value) (idx : nat) : Entry :=
  let out := ownProps it in
  let title := ensureString
                 (orElse (orElse (orElse (prop out "title") (prop out "name_fa")) (prop out "name"))
                         (VStr [])) in
  let kws := match prop out "keywords" with
             | VArr l => List.map ensureString l
             | k => if truthy k then [ensureString k] else []
             end in
  {| id := orElse (orElse (prop out "id") (prop out "code"))
                  (VStr (str "kb_" ++ natToString (N.of_nat idx)));
     title := title;
     snippet := ensureString
                  (orElse (orElse (orElse (prop out "snippet") (prop out "description"))
                                  (prop out "desc"))
                          (VStr []));
     url := ensureString (orElse (orElse (prop out "url") (prop out "link")) (VStr []));
     type_ := ensureString (orElse (orElse (prop out "type") (metaType out)) (VStr []));
     keywords := if (List.length kws =? 0)%nat
                 then firstn 8 (tokenize (VStr title)) else kws;
     source := out |}.

(** The shapes of payload that [init] accepts: the array of records,
    or [None] where the code throws ([_kb.map] on what is not an
    array, [Object.values(null)]). *)
Definition recordsOf (json : value) : option (list value) :=
  match json with
  | VArr l => Some l
  | _ =>
      if truthy json && isArray (get json "items") then
        match get json "items" with VArr l => Some l | _ => None end
      else if truthy json && truthy (get json "knowledge") then
        match get json "knowledge" with VArr l => Some l | _ => None end
      else if truthy json && truthy (get json "industries") then
        Some (List.map (fun kv => VObj (assign [(str "id", VStr (fst kv))]
                                               (ownProps (snd kv))))
                       (ownProps (get json "industries")))
      else
        match json with
        | VObj fields => Some (List.map snd fields)
        | VNull => None
        | _ => Some []
        end
  end.

Inductive InitResult :=
| InitOk (count : nat)
| InitEmptyPath
| InitError.

Definition failed (r : InitResult) : bool :=
  match r with InitOk _ => false | _ => true end.

Definition init (st : State) (kbPath : value) (net : Net)
  : InitResult * State :=
  let kbPath := match kbPath with
                | VUndef => VStr (str "/assets/knowledge_base_fa.json")
                | p => p
                end in
  let intents := _loadIntentKeywords (intentsFile net) in
  let reset := {| _kb := []; _indexInitialized := false;
                  _intentKeywords := intents; _kbPath := kbPath |} in
  if negb (truthy kbPath) then (InitEmptyPath, reset)
  else
    match kbFile net with
    | Json json =>
        match recordsOf json with
        | Some records =>
            let kb := mapi normalizeEntry records in
            (InitOk (List.length kb),
             {| _kb := kb; _indexInitialized := true;
                _intentKeywords := intents; _kbPath := kbPath |})
        | None => (InitError, reset)
        end
    | _ => (InitError, reset)
    end.

Record Result := {
  r_id : value;
  r_title : jsstr;
  r_snippet : jsstr;
  r_url : jsstr;
  r_type : value;
  r_score : Q;
  r_components : option Components;   (** [None] is [{ fallback: true }] *)
  r_meta : value
}.

(** The entry as a result when its score reaches [minScoreThreshold].
    The comparison is that of the exact rationals; the code compares
    doubles, which can fall short of the threshold when the exact score
    is the threshold itself. *)
Definition scored (raw : jsstr) (entry : Entry) : option Result :=
  let sc := scoreCandidate (VStr raw) entry in
  if Qle_bool minScoreThreshold (fst sc) then
    Some {| r_id := id entry; r_title := title entry;
            r_snippet := snippet entry; r_url := url entry;
            r_type := orElse (orElse (VStr (type_ entry)) (metaType (source entry)))
                             (VStr []);
            r_score := fst sc; r_components := Some (snd sc);
            r_meta := orElse (meta entry) (VObj []) |}
  else None.

Definition fallback (t : jsstr) (entry : Entry) : option Result :=
  let hay := normalizeText
               (VStr (title entry ++ [SP] ++ snippet entry ++ [SP] ++
                      join [SP] (keywords entry))) in
  if nonEmpty t && includes hay t then
    Some {| r_id := id entry; r_title := title entry;
            r_snippet := snippet entry; r_url := url entry;
            r_type := orElse (VStr (type_ entry)) (VStr []);
            r_score := (5 # 100)%Q; r_components := None;
            r_meta := orElse (meta entry) (VObj []) |}
  else None.

Definition collect (A B : Type) (f : A -> option B) (l : list A) : list B :=
  flat_map (fun x => match f x with Some y => [y] | None => [] end) l.

(** [(a, b) => b.score - a.score] *)
Definition byScore (a b : Result) : bool := Qle_bool (r_score b) (r_score a).

(** [(a, b) => b.score - a.score || a.title.length - b.title.length] *)
Definition byScoreThenTitle (a b : Result) : bool :=
  if Qeq_bool (r_score b) (r_score a)
  then (List.length (r_title a) <=? List.length (r_title b))%nat
  else Qle_bool (r_score b) (r_score a).

(** [(options && options.topN) || CFG.defaultTopN] *)
Definition topNOf (topN : option Z) : Z :=
  match topN with
  | Some n => if (n =? 0)%Z then defaultTopN else n
  | None => defaultTopN
  end.

(** [query]: the results and the state it leaves. The load of the
    intents that [query] starts without awaiting it is left to the
    next awaited load. *)
Definition query (st : State) (text : value) (topN : option Z) (net : Net)
  : list Result * State :=
  let raw := ensureString text in
  if isEmpty raw then ([], st)
  else
    let st := if negb (_indexInitialized st) && truthy (_kbPath st)
              then snd (init st (_kbPath st) net) else st in
    let results := sortBy byScore (collect (scored raw) (_kb st)) in
    let results :=
      if (List.length results =? 0)%nat
      then sortBy byScoreThenTitle
                  (collect (fallback (normalizeText (VStr raw))) (_kb st))
      else results in
    (slice0 (topNOf topN) results, st).

(* ---------------- intents and questions ---------------- *)

(** The loop of [detectIntent] over the intents: the pattern of an
    intent is [\b(k1|k2|...)\b] over its keywords that are not empty,
    tested without regard to case. *)
Fixpoint detectIn (t : jsstr) (intents : list Intent) : option value :=
  match intents with
  | [] => None
  | intent :: r =>
      let parts := filter nonEmpty (intent_keywords intent) in
      if existsb (fun p => testWord p None t) parts
      then if truthy (intent_id intent) then Some (intent_id intent) else None
      else detectIn t r
  end.

(** [detectIntent(text)]; [None] is [null]. *)
Definition detectIntent (st : State) (text : value) : option value :=
  if negb (truthy text) then None
  else
    let t := normalizeText text in
    if isEmpty t then None else detectIn t (_intentKeywords st).

Definition kbWords : list jsstr :=
  List.map str
    ["نمایندگی"; "آدرس"; "دفتر"; "پشتیبانی"; "تماس"; "شماره"; "قیمت"; "دیتاشیت";
     "دیتا شیت"; "استاندارد"; "en388"; "en407"; "en511"; "iso"]%string.

(** The alternatives of [infoQ]. *)
Definition infoWords : list jsstr :=
  List.map str
    ["چیست"; "چیه"; "کجاست"; "کجا"; "کدام"; "چه"; "چه‌جور"; "چطور"]%string.

Definition isKBQuestion (st : State) (text : value) : bool :=
  let t := normalizeText text in
  if isEmpty t then false
  else if match detectIntent st (VStr t) with
          | Some (VStr intent) => eqb_str intent (str "knowledge")
          | _ => false
          end
  then true
  else if existsb (fun w => includes t (toLowerCase w)) kbWords then true
  else existsb (fun p => testWord p None t) infoWords.

Record Summary := {
  s_id : value;
  s_title : jsstr;
  s_snippet : jsstr;
  s_url : jsstr;
  s_score : Q
}.

(** [bestMatches(text, n)] *)
Definition bestMatches (st : State) (text : value) (n : option Z) (net : Net)
  : list Summary * State :=
  let res := query st text n net in
  (List.map (fun r => {| s_id := r_id r; s_title := r_title r;
                         s_snippet := r_snippet r; s_url := r_url r;
                         s_score := r_score r |})
            (fst res),
   snd res).

End WithUnicode.
End KnowledgeEngine.

(* ================================================================== *)
(** * product_matcher.js: the rule-based recommender *)
(* ================================================================== *)

(** [a > b] on strings: the order of the code units. *)
Fixpoint gtStr (a b : jsstr) : bool :=
  match a, b with
  | [], _ => false
  | _ :: _, [] => true
  | x :: a', y :: b' =>
      if (x =? y)%N then gtStr a' b' else (y <? x)%N
  end.

Module ProductMatcher.

Record Std := { en388 : option jsstr; raw : option jsstr }.

(** A record of the catalogue, with the shape of [defaultCatalog]:
    [tags] is an array of strings when present, [std] an object with
    string fields. *)
Record Product := {
  p_id : value;
  title_fa : jsstr;
  title_en : jsstr;
  url : jsstr;
  tags : option (list jsstr);
  std : option Std;
  why : jsstr
}.

(** A product of [catalog] after [init]: the record and the fields
    [_tags], [_id], [_cutLevel] that [init] adds to it. *)
Record Loaded := {
  product : Product;
  _tags : list jsstr;
  _id : jsstr;
  _cutLevel : option N
}.

Definition defaultCatalog : list Product := [
  {| p_id := VStr (str "911");
     title_fa := str "دستکش ضد برش HPPE 911";
     title_en := str "Sigma 911 — HPPE Cut Resistant Gloves";
     url := str "https://sigmagloves.com/products/sigma-911-cut-resistant-work-gloves/";
     tags := Some [str "cut"; str "hppe"; str "high_cut"; str "dexterity"];
     std := Some {| en388 := Some (str "5 - CUT 5 (TDM high)"); raw := Some (str "CUT 5") |};
     why := str "HPPE با سطح مقاومت برش بالا (CUT 5). مناسب برای کار با سطوح تیز و برنده؛ سبک و با حس لمسی خوب." |};
  {| p_id := VStr (str "921");
     title_fa := str "دستکش ضد برش HPPE 921";
     title_en := str "Sigma 921 — HPPE Cut Resistant Gloves";
     url := str "https://sigmagloves.com/products/sigma-921-cut-resistant-work-gloves/";
     tags := Some [str "cut"; str "hppe"; str "high_cut"];
     std := Some {| en388 := Some (str "5 - CUT 5 (TDM high)"); raw := Some (str "CUT 5") |};
     why := str "نسخه‌ای از دستکش HPPE با مقاومت برش سطح بالا؛ مناسب برای سازندگان قطعات فلزی و شیشه‌برها." |};
  {| p_id := VStr (str "922");
     title_fa := str "دستکش ضد برش HPPE 922";
     title_en := str "Sigma 922 — HPPE Cut Resistant Gloves";
     url := str "https://sigmagloves.com/products/sigma-931-cut-resistant-work-gloves/";
     tags := Some [str "cut"; str "hppe"];
     std := Some {| en388 := Some (str "5 - CUT 5"); raw := Some (str "CUT 5") |};
     why := str "مناسب برای کار با اجسام برنده؛ تعادل بین محافظت و انعطاف." |};
  {| p_id := VStr (str "412");
     title_fa := str "دستکش لاتکس 412";
     title_en := str "Sigma 412 — Latex Work Gloves";
     url := str "https://sigmagloves.com/products/sigma-412-latex-work-gloves/";
     tags := Some [str "latex"; str "general"; str "grip"; str "chemical_resistance_light"];
     std := Some {| en388 := Some (str "—"); raw := Some (str "EN388") |};
     why := str "پوشش لاتکس برای چسبندگی و حفاظت عمومی. مناسب کارهای سبک تا متوسط و محیط‌های خشک یا کمی روغنی." |};
  {| p_id := VStr (str "418");
     title_fa := str "دستکش لاتکس 418";
     title_en := str "Sigma 418 — Latex Work Gloves";
     url := str "https://sigmagloves.com/products/sigma-418-latex-work-gloves/";
     tags := Some [str "latex"; str "general"; str "grip"];
     std := Some {| en388 := Some (str "EN388"); raw := None |};
     why := str "لاتکس با چنگش خوب؛ مناسب کارهای عمومی و ساختمانی سبک." |};
  {| p_id := VStr (str "422");
     title_fa := str "دستکش لاتکس +422";
     title_en := str "Sigma +422 — Latex Work Gloves";
     url := str "https://sigmagloves.com/products/sigma-422-latex-work-gloves/";
     tags := Some [str "latex"; str "general"; str "grip"];
     std := Some {| en388 := Some (str "EN388"); raw := None |};
     why := str "نسخه‌ی قوی‌تر لاتکس با دوام و مقاومت مناسب." |};
  {| p_id := VStr (str "432");
     title_fa := str "دستکش لاتکس 432";
     title_en := str "Sigma 432 — Latex Towel-lined (Warm) Gloves";
     url := str "https://sigmagloves.com/products/sigma-432-latex-work-gloves/";
     tags := Some [str "latex"; str "warm"; str "insulated"];
     std := Some {| en388 := Some (str "EN388"); raw := None |};
     why := str "آستر حوله‌ای گرم؛ مناسب محیط‌های سرد و کارهای بیرونی در زمستان." |};
  {| p_id := VStr (str "434");
     title_fa := str "دستکش لاتکس +434 (آستر دار)";
     title_en := str "Sigma +434 — Towel-lined Latex Gloves";
     url := str "https://sigmagloves.com/products/sigma-434-latex-work-gloves/";
     tags := Some [str "latex"; str "warm"; str "grip"];
     std := Some {| en388 := Some (str "EN388"); raw := None |};
     why := str "آستر داخلی گرم و ضدلغزش لاتکس؛ مناسب کار در سرما و کارهای عمومی." |};
  {| p_id := VStr (str "446");
     title_fa := str "دستکش شیاردار +446";
     title_en := str "Sigma +446 — Ribbbed Latex Grip Gloves";
     url := str "https://sigmagloves.com/products/sigma-446-latex-work-gloves/";
     tags := Some [str "latex"; str "grip"; str "general"; str "durable"];
     std := Some {| en388 := Some (str "2142"); raw := Some (str "EN388: 2142") |};
     why := str "پوشش لاتکس شیاردار، مناسب کارهای خشن مثل باغبانی، شیشه‌گری و ساختمانی؛ دوام خوب و ضد لغزش." |};
  {| p_id := VStr (str "485");
     title_fa := str "دستکش فومی +485";
     title_en := str "Sigma +485 — Foam Latex Work Gloves";
     url := str "https://sigmagloves.com/products/sigma-485-latex-work-gloves/";
     tags := Some [str "foam"; str "latex"; str "grip"; str "general"];
     std := Some {| en388 := Some (str "2242"); raw := Some (str "EN388: 2242") |};
     why := str "اولین دستکش فومی با کیفیت ایرانی؛ چنگش قوی و انعطاف بالا، مناسب محیط‌های روغنی/نسبتاً مرطوب." |};
  {| p_id := VStr (str "342");
     title_fa := str "دستکش نیتریل 342";
     title_en := str "Sigma 342 — Nitrile Work Gloves";
     url := str "https://sigmagloves.com/products/sigma-486-nitrile-work-gloves/";
     tags := Some [str "nitrile"; str "oil"; str "chemical_resistance"; str "puncture"];
     std := Some {| en388 := Some (str "EN388"); raw := None |};
     why := str "نیتریل برای مقاومت در برابر روغن و برخی حلال‌ها؛ مناسب صنایع نفتی و کار با حلال." |};
  {| p_id := VStr (str "344");
     title_fa := str "دستکش نیتریل +344";
     title_en := str "Sigma +344 — Nitrile Work Gloves";
     url := str "https://sigmagloves.com/products/sigma-344-nitrile-work-gloves/";
     tags := Some [str "nitrile"; str "oil"; str "chemical_resistance"];
     std := Some {| en388 := Some (str "EN388"); raw := None |};
     why := str "نسخه نیتریل با مقاومت بالا در برابر روغن و حلال؛ مناسب محیط‌های نفتی و پتروشیمی." |};
  {| p_id := VStr (str "348");
     title_fa := str "دستکش نیتریل +348";
     title_en := str "Sigma 986 / 348 — Nitrile / Cut Assist";
     url := str "https://sigmagloves.com/products/sigma-986-cut-resistant-work-gloves/";
     tags := Some [str "nitrile"; str "puncture"; str "cut_resistant"];
     std := Some {| en388 := Some (str "EN388"); raw := None |};
     why := str "ترکیب نیتریل با مقاومت مکانیکی؛ مناسب کارهای روغنی که نیاز به محافظت در برابر سوراخ شدن دارند." |};
  {| p_id := VStr (str "346");
     title_fa := str "دستکش نیتریل 346";
     title_en := str "Sigma 346 — Nitrile Work Gloves (Reinforced)";
     url := str "https://sigmagloves.com/products/sigma-334-nitrile-work-gloves/";
     tags := Some [str "nitrile"; str "oil"; str "reinforced"; str "puncture"];
     std := Some {| en388 := Some (str "EN388"); raw := None |};
     why := str "تقویت سر انگشت و مقاومت در برابر سوراخ شدن؛ کاربرد صنعتی سنگین." |};
  {| p_id := VStr (str "332");
     title_fa := str "دستکش نیتریل 332";
     title_en := str "Sigma 332 — Nitrile Work Gloves";
     url := str "https://sigmagloves.com/products/sigma-332-nitrile-work-gloves/";
     tags := Some [str "nitrile"; str "chemical_resistance"; str "oil"];
     std := Some {| en388 := Some (str "EN388"); raw := None |};
     why := str "مناسب برای کار با مواد نفتی و بعضی حلال‌ها؛ ضدحساسیت." |};
  {| p_id := VStr (str "312");
     title_fa := str "دستکش نیتریل 312";
     title_en := str "Sigma 312 — Nitrile Work Gloves";
     url := str "https://sigmagloves.com/products/sigma-312-nitrile-work-gloves/";
     tags := Some [str "nitrile"; str "oil"; str "durable"];
     std := Some {| en388 := Some (str "EN388"); raw := None |};
     why := str "دستکش نیتریل عمومی با دوام خوب؛ کاربردهای چندمنظوره." |}
].

(** An element of [data.products]: a record with the shape of
    [defaultCatalog], or a value at which the callback of
    [catalog.forEach] throws at its first statement: [null], whose
    properties cannot be read, or a record whose [tags] is truthy
    without being an array, so that [(p.tags || []).map] is not a
    function. *)
Inductive Item :=
| Rec (p : Product)
| Broken (v : value).

(** The remote catalogue as [init] sees it. *)
Inductive Remote :=
| Unreachable                       (** [fetch] rejects *)
| NotOk                             (** [r.ok] is false *)
| Malformed                         (** [r.json()] rejects, or yields null *)
| NoProducts                        (** [data.products] is not an array *)
| Products (l : list Item).         (** [data.products] *)

(** What a call of [init] leaves: the promise resolves with the
    catalogue, every record annotated; or it rejects with the exception
    of [catalog.forEach], which runs after the [try], and [catalog] is
    the remote array with the records before the broken element
    annotated and the elements from that one on as they came. *)
Inductive Outcome :=
| Resolved (catalog : list Loaded)
| Rejected (annotated : list Loaded) (rest : list Item).

(** The first match of [/cut\s*[:\-]?\s*([0-9])/i] anchored at the
    head of [s]: the digit. *)
Definition asciiLower (c : char) : char :=
  if inRange 0x41 0x5A c then c + 32 else c.

Definition digitAfterCut (s : jsstr) : option N :=
  match s with
  | c :: u :: t :: r =>
      if (asciiLower c =? 0x63) && (asciiLower u =? 0x75) &&
         (asciiLower t =? 0x74)
      then
        let r := trimStart r in
        let r := match r with
                 | x :: r' => if (x =? 0x3A) || (x =? 0x2D) then r' else r
                 | [] => r
                 end in
        match trimStart r with
        | d :: _ => if isAsciiDigit d then Some (d - 0x30) else None
        | [] => None
        end
      else None
  | _ => None
  end.

Fixpoint matchCut (s : jsstr) : option N :=
  match digitAfterCut s with
  | Some d => Some d
  | None => match s with
            | [] => None
            | _ :: r => matchCut r
            end
  end.

(** [\w] without the flag [u]. *)
Definition wordChar (c : char) : bool :=
  inRange 0x41 0x5A c || inRange 0x61 0x7A c || inRange 0x30 0x39 c ||
  (c =? 0x5F).

(** [/\b([0-9])\b/]: [prevWord] says that the character before [s]
    is a word character. *)
Fixpoint matchLoneDigit (prevWord : bool) (s : jsstr) : option N :=
  match s with
  | [] => None
  | d :: r =>
      let nextWord := match r with c :: _ => wordChar c | [] => false end in
      if isAsciiDigit d && negb prevWord && negb nextWord
      then Some (d - 0x30)
      else matchLoneDigit (wordChar d) r
  end.

Section WithUnicode.
Context {U : Unicode}.

Definition norm (s : value) : jsstr :=
  if negb (truthy s) then []
  else replaceChar 0x643 0x6A9
         (replaceChar 0x64A 0x6CC (toLowerCase (trim (ToString s)))).

Definition extractCutLevel (prod : Product) : option N :=
  if match tags prod with
     | Some t => arrIncludes t (str "high_cut")
     | None => false
     end
  then Some 5
  else
    let raw :=
      match std prod with
      | Some s =>
          match raw s with
          | Some r => if nonEmpty r then r
                      else match en388 s with Some e => e | None => [] end
          | None => match en388 s with Some e => e | None => [] end
          end
      | None => []
      end in
    let raw := toLowerCase raw in
    match matchCut raw with
    | Some v => Some v
    | None => matchLoneDigit false raw
    end.

(** The body of [catalog.forEach] in [init]. *)
Definition load (p : Product) : Loaded :=
  {| product := p;
     _tags := List.map (fun t => norm (VStr t))
                       (match tags p with Some t => t | None => [] end);
     _id := ToString (p_id p);
     _cutLevel := extractCutLevel p |}.

(** [catalog.forEach(p => ...)] on the remote array: the records
    annotated before the callback throws, and the elements that are
    left as they came, none when it does not throw. *)
Fixpoint annotate (items : list Item) : list Loaded * list Item :=
  match items with
  | Rec p :: rest => let done := annotate rest in (load p :: fst done, snd done)
  | _ => ([], items)
  end.

(** [init(remoteJsonPath)]. The built-in catalogue is taken when there
    is no path and when the request, the status, the JSON or the shape
    of [data.products] fails, inside the [try]; the annotation of the
    catalogue comes after it. *)
Definition init (remoteJsonPath : value) (remote : Remote) : Outcome :=
  let fetched :=
    if truthy remoteJsonPath then
      match remote with
      | Products l => Some l
      | _ => None
      end
    else None in
  match fetched with
  | Some items =>
      match annotate items with
      | (catalog, []) => Resolved catalog
      | (done, rest) => Rejected done rest
      end
  | None => Resolved (List.map load defaultCatalog)
  end.

Record Query := {
  hazard : value;
  env : value;
  pref : value;
  industry : value;
  industryCode : value
}.

Inductive Reason :=
| hazard_exact (q : jsstr)
| hazard_partial (t : jsstr)
| env_oily | env_wet | env_cold
| env_exact (q : jsstr)
| pref_grip | pref_comfort | pref_durability | pref_cut_protection
| pref_chemical_resistance | pref_dexterity
| industry_chemical | industry_welding | industry_glass
| industry_warehouse
| cutLevel (n : N).

(** The running [score] and [reasons]. *)
Definition Acc : Type := Q * list Reason.

(** [score += w; reasons.push(r)] *)
Definition add (w : Q) (r : Reason) (acc : Acc) : Acc :=
  ((fst acc + w)%Q, snd acc ++ [r]).

Definition when (b : bool) (f : Acc -> Acc) (acc : Acc) : Acc :=
  if b then f acc else acc.

Definition has (prod : Loaded) (t : string) : bool :=
  arrIncludes (_tags prod) (str t).

Definition mentions (q : jsstr) (t : string) : bool := includes q (str t).

Definition hazardStep (prod : Loaded) (qHaz : jsstr) (acc : Acc) : Acc :=
  if isEmpty qHaz then acc
  else if arrIncludes (_tags prod) qHaz then add 1 (hazard_exact qHaz) acc
  else match find (fun t => includes t qHaz || includes qHaz t) (_tags prod) with
       | Some t => add (6 # 10) (hazard_partial t) acc
       | None => acc
       end.

Definition envStep (prod : Loaded) (qEnv : jsstr) (acc : Acc) : Acc :=
  if isEmpty qEnv then acc
  else if eqb_str qEnv (str "oily") || mentions qEnv "oil" || mentions qEnv "روغن"
  then when (has prod "oil" || has prod "nitrile" || has prod "foam")
            (add (6 # 10) env_oily) acc
  else if eqb_str qEnv (str "wet") || mentions qEnv "مرطوب"
  then when (has prod "foam" || has prod "latex" || has prod "nitrile")
            (add (45 # 100) env_wet) acc
  else if eqb_str qEnv (str "cold")
  then when (has prod "insulated" || has prod "warm")
            (add (5 # 10) env_cold) acc
  else when (existsb (fun t => eqb_str t qEnv) (_tags prod))
            (add (4 # 10) (env_exact qEnv)) acc.

Definition prefStep (prod : Loaded) (qPref : jsstr) (acc : Acc) : Acc :=
  if isEmpty qPref then acc
  else
    let acc := when (mentions qPref "grip" && has prod "grip")
                    (add (5 # 10) pref_grip) acc in
    let acc := when (mentions qPref "comfort" &&
                     (has prod "foam" || has prod "dexterity" || has prod "warm"))
                    (add (45 # 100) pref_comfort) acc in
    let acc := when (mentions qPref "durab" &&
                     (has prod "durable" || has prod "reinforced"))
                    (add (45 # 100) pref_durability) acc in
    let acc := when (mentions qPref "cut" &&
                     (has prod "cut" || has prod "high_cut"))
                    (add (9 # 10) pref_cut_protection) acc in
    let acc := when (mentions qPref "chemical" && has prod "chemical_resistance")
                    (add (8 # 10) pref_chemical_resistance) acc in
    when (mentions qPref "dexter" && has prod "dexterity")
         (add (6 # 10) pref_dexterity) acc.

Definition industryStep (prod : Loaded) (qIndustry : jsstr) (acc : Acc) : Acc :=
  if isEmpty qIndustry then acc
  else
    let acc := when (mentions qIndustry "chemical" &&
                     (has prod "nitrile" || has prod "chemical_resistance"))
                    (add (35 # 100) industry_chemical) acc in
    let acc := when (mentions qIndustry "welding" && has prod "hppe" &&
                     has prod "cut")
                    (add (2 # 10) industry_welding) acc in
    let acc := when (mentions qIndustry "glass" && has prod "cut")
                    (add (25 # 100) industry_glass) acc in
    when (mentions qIndustry "warehouse" && has prod "dexterity")
         (add (2 # 10) industry_warehouse) acc.

Definition cutLevelStep (prod : Loaded) (qHaz qPref : jsstr) (acc : Acc) : Acc :=
  if (nonEmpty qHaz && mentions qHaz "cut") ||
     (nonEmpty qPref && mentions qPref "cut")
  then match _cutLevel prod with
       | Some v => if (v =? 0) then acc
                   else add (Qminb 1 (inject_Z (Z.of_N v) * (12 # 100)))
                            (cutLevel v) acc
       | None => acc
       end
  else acc.

Definition scoreProduct (prod : Loaded) (query : Query) : Q * list Reason :=
  let qHaz := norm (orElse (hazard query) (VStr [])) in
  let qEnv := norm (orElse (env query) (VStr [])) in
  let qPref := norm (orElse (pref query) (VStr [])) in
  let qIndustry := norm (orElse (orElse (industry query) (industryCode query))
                                (VStr [])) in
  let acc : Acc := (0%Q, []) in
  let acc := hazardStep prod qHaz acc in
  let acc := envStep prod qEnv acc in
  let acc := prefStep prod qPref acc in
  let acc := industryStep prod qIndustry acc in
  let acc := cutLevelStep prod qHaz qPref acc in
  let score := (fst acc + (5 # 100))%Q in
  let finalScore := Qminb 1 score in
  (toFixed3 finalScore, snd acc).

Record Pick := {
  pick_id : jsstr;
  pick_title_fa : jsstr;
  pick_title_en : jsstr;
  pick_url : jsstr;
  pick_tags : option (list jsstr);
  pick_std : option Std;
  pick_why : jsstr;
  matchScore : Q;
  reasons : list Reason
}.

Definition pick (query : Query) (p : Loaded) : Pick :=
  let s := scoreProduct p query in
  {| pick_id := _id p;
     pick_title_fa := title_fa (product p);
     pick_title_en := title_en (product p);
     pick_url := url (product p);
     pick_tags := tags (product p);
     pick_std := std (product p);
     pick_why := why (product p);
     matchScore := fst s;
     reasons := snd s |}.

(** The comparator of [scored.sort]: [a] may stay ahead of [b] when
    it returns a negative number. *)
Definition ahead (a b : Pick) : bool :=
  if Qeq_bool (matchScore b) (matchScore a)
  then negb (gtStr (pick_title_fa b) (pick_title_fa a))
  else Qlt_bool (matchScore b) (matchScore a).

(** [(opts && opts.topN) || 6] *)
Definition topNOf (topN : option Z) : Z :=
  match topN with
  | Some n => if (n =? 0)%Z then 6%Z else n
  | None => 6%Z
  end.

Definition pickProducts (catalog : list Loaded) (query : Query)
           (topN : option Z) : list Pick :=
  let scored := List.map (pick query) catalog in
  let scored := sortBy ahead scored in
  slice0 (topNOf topN) (filter (fun x => Qlt_bool 0 (matchScore x)) scored).


End WithUnicode.
End ProductMatcher.

(* ================================================================== *)
(** * IndustryIndexer v3.0: the keyword index *)
(* ================================================================== *)

Module IndustryIndexerV3.

Record Industry := {
  code : value;
  name_fa : value;
  name_en : value;
  keywords : list value
}.

Definition industry (c fa en : string) (kws : list string) : Industry :=
  {| code := VStr (str c); name_fa := VStr (str fa); name_en := VStr (str en);
     keywords := List.map (fun k => VStr (str k)) kws |}.

Local Open Scope string_scope.

(** The base list [INDUSTRIES]. *)
Definition INDUSTRIES0 : list Industry := [
  industry "welding" "جوشکاری" "Welding"
    ["جوشکاری"; "جوشکار"; "جوش"; "weld"; "welding"; "arc welding"; "mig"; "tig"; "ساخت جوش"];
  industry "machining" "تراشکاری/ماشین‌کاری" "Machining"
    ["تراشکاری"; "تراشکار"; "ماشینکاری"; "ماشین کار"; "lathe"; "turning"; "milling"; "cnc"; "cnc operator"; "فرزکاری"; "فرزکار"];
  industry "grinding" "سنگ‌زنی/سنباده‌کاری" "Grinding / Abrasive work"
    ["سنگ زنی"; "سنگ‌زنی"; "سنگ زدن"; "سنگ ساب"; "sanding"; "grinder"; "grinding"; "abrasive"];
  industry "sheetmetal" "ورق‌کاری/فابریکیشن" "Sheet Metal / Fabrication"
    ["ورق کاری"; "ورق‌کار"; "ورقکاری"; "sheet metal"; "fabrication"; "press brake"; "برش ورق"; "برش لیزر"];
  industry "foundry" "ریخته‌گری" "Foundry / Casting"
    ["ریخته گری"; "ریخته‌گری"; "foundry"; "casting"; "کوره"; "ماتریس"; "mold"; "smelting"];
  industry "blacksmith" "آهنگری/فورج" "Blacksmith / Forging"
    ["آهنگری"; "فورج"; "blacksmith"; "forge"; "smithing"; "فلزکاری سنتی"];
  industry "metalfabrication" "تولید قطعات فلزی" "Metal Fabrication"
    ["فلزکاری"; "قطعه سازی"; "metal fabrication"; "fabricator"; "welding fabrication"];
  industry "glasswork" "شیشه‌گری/شیشه‌بری" "Glasswork / Glazing"
    ["شیشه گری"; "شیشه‌گری"; "شیشه بری"; "شیشه‌بری"; "glazier"; "glassworker"; "glass cutting"; "شیشه کار"];
  industry "stonecut" "سنگ‌بری/برش سنگ" "Stone Cutting / Masonry"
    ["سنگ بری"; "سنگ‌بری"; "سنگبری"; "stone cutting"; "stonemason"; "سنگ کار"; "marble cutting"; "granite"];
  industry "tiler" "کاشی‌کاری/سرامیک" "Tiler / Ceramic"
    ["کاشی کار"; "کاشی‌کاری"; "tiler"; "tile"; "ceramic"; "grouting"; "سرامیک کار"];
  industry "carpentry" "نجاری/چوب" "Carpentry / Woodwork"
    ["نجار"; "نجاری"; "چوب کاری"; "carpentry"; "woodwork"; "cabinet maker"; "furniture maker"];
  industry "furniture" "تولید مبل/چرم و فوم" "Furniture / Upholstery"
    ["مبلمان"; "upholstery"; "foam cutting"; "furniture maker"; "sofa maker"; "دوخت مبلمان"];
  industry "woodworking" "پردازش چوب/کارگاه" "Woodworking / Joinery"
    ["کارگاه چوب"; "joinery"; "joiner"; "woodworking"; "پارکت"; "پارکت کار"];
  industry "construction" "ساختمان/عمرانی" "Construction"
    ["ساختمان"; "بنایی"; "عمران"; "کارگر ساختمانی"; "construction"; "builder"; "concrete"; "اجر کار"];
  industry "concrete" "بتن‌ریزی/قالب‌بندی" "Concrete / Formwork"
    ["بتن ریزی"; "قالب بندی"; "concrete"; "formwork"; "بتن کار"];
  industry "roofer" "شیروانی/بام" "Roofer"
    ["شیروانی"; "roof"; "roofer"; "roofing"; "نصاب سقف"];
  industry "scaffolding" "داربست/ایمن‌سازی ارتفاع" "Scaffolding / Heights"
    ["داربست"; "scaffold"; "scaffolder"; "ارتفاع"; "rope access"; "نصاب داربست"];
  industry "plasterer" "گچ‌کاری/نقاشی داخلی" "Plasterer / Interior finishing"
    ["گچ کار"; "گچکاری"; "plasterer"; "drywall"; "تِرِوکس"];
  industry "mechanic" "مکانیک/تعمیرات خودرو" "Mechanic / Automotive"
    ["مکانیک"; "تعمیرکار"; "خودرو"; "auto mechanic"; "garage"; "car repair"; "مکانیک خودرو"];
  industry "heavy" "اپراتور ماشین‌آلات سنگین" "Heavy Equipment Operator"
    ["بیل مکانیکی"; "لودر"; "crane operator"; "اپراتور بیل"; "excavator"; "crane"];
  industry "crane" "جرثقیل‌کار/راکینگ" "Crane / Rigger"
    ["جرثقیل"; "crane"; "rigger"; "باربرداری"; "crane operator"; "rigging"];
  industry "forklift" "لیفتراک‌دار/انبار" "Forklift Operator"
    ["لیفتراک"; "forklift"; "پالت"; "pallet jack"; "انباردار"; "forklift operator"];
  industry "oilgas" "نفت و گاز/پالایش" "Oil & Gas / Refinery"
    ["نفت"; "گاز"; "حفاری"; "پالایشگاه"; "oilfield"; "offshore"; "refinery"; "rig worker"];
  industry "mining" "معدن/استخراج" "Mining / Quarry"
    ["معدن"; "معدنکاری"; "quarry"; "mine"; "excavation"; "mining operator"];
  industry "powerplant" "نیروگاه/تصفیه" "Power Plant / Utilities"
    ["نیروگاه"; "power plant"; "turbine"; "boiler"; "utility"; "power station"];
  industry "chemical" "شیمیایی/پالایش/آزمایشگاه" "Chemical / Laboratory"
    ["شیمیایی"; "اسید"; "حلال"; "chemical"; "lab"; "chemist"; "process plant"; "فرآیند"];
  industry "pharma" "داروسازی" "Pharmaceutical"
    ["داروسازی"; "pharma"; "pharmaceutical"; "drug manufacturing"; "clean room"];
  industry "labtech" "تکنسین آزمایشگاه" "Lab Technician"
    ["تکنسین آزمایشگاه"; "lab tech"; "lab technician"; "sample analysis"];
  industry "food" "صنایع غذایی/آشپزی" "Food Industry / Kitchen"
    ["رستوران"; "آشپز"; "آشپزی"; "food processing"; "butcher"; "کشتارگاه"; "chef"; "bakery"; "نانوایی"; "baker"];
  industry "agriculture" "کشاورزی/باغبانی" "Agriculture / Gardening"
    ["کشاورزی"; "باغبانی"; "کشاورز"; "agriculture"; "farmer"; "gardener"; "tractor"; "orchard"];
  industry "poultry" "مرغداری/دامداری" "Poultry / Farming"
    ["مرغداری"; "دامداری"; "poultry"; "livestock"; "farmer"; "animal farm"];
  industry "textile" "نساجی/دوخت/پوشاک" "Textile / Garment"
    ["نساجی"; "خیاط"; "دوخت"; "garment"; "textile"; "sewing"; "tailor"; "چرم"];
  industry "leather" "چرم/کفش" "Leather / Shoe making"
    ["چرم"; "کفش سازی"; "leather"; "cobbler"; "shoe maker"];
  industry "electronics" "الکترونیک/مونتاژ برد" "Electronics Manufacturing"
    ["الکترونیک"; "pcb"; "smd"; "soldering"; "electronics assembly"; "assembly line"; "solderer"; "تراشه"];
  industry "electrical" "برق/نصب/تابلو" "Electrical / Electrician"
    ["برقکار"; "برق"; "electrician"; "wiring"; "switchgear"; "تابلو برق"; "electrical maintenance"];
  industry "printing" "چاپ/بسته‌بندی" "Printing / Packaging"
    ["چاپخانه"; "چاپ"; "printing press"; "packaging"; "labels"; "palletizing"];
  industry "logistics" "لجستیک/حمل و نقل" "Logistics / Transport"
    ["لجستیک"; "حمل و نقل"; "logistics"; "courier"; "delivery"; "driver"; "truck driver"; "ترانزیت"];
  industry "healthcare" "درمان/بیمارستان" "Healthcare / Medical"
    ["بیمارستان"; "پرستار"; "دکتر"; "clinic"; "nurse"; "medical"; "physician"; "surgeon"; "healthcare"];
  industry "dental" "دندان‌پزشکی" "Dental"
    ["دندانپزشک"; "دندان پزشکی"; "dental"; "dentist"; "orthodontist"; "dental hygienist"];
  industry "safety" "ایمنی/HSE/بازرسی" "Safety / HSE / Inspection"
    ["ایمنی"; "hse"; "safety officer"; "inspector"; "safety inspection"; "pallet safety"];
  industry "quality" "کنترل کیفیت/QC" "Quality Control / QC"
    ["کنترل کیفیت"; "qc"; "qa"; "inspection"; "quality control"; "تست کیفیت"];
  industry "janitorial" "نظافت/خدمات" "Janitorial / Cleaning"
    ["نظافت"; "نظافتچی"; "cleaning"; "janitor"; "maid"; "housekeeping"; "پاکسازی"];
  industry "grounds" "نگهداری فضای سبز/حیاط" "Groundskeeping / Landscaping"
    ["فضای سبز"; "باغبانی"; "landscaping"; "gardener"; "groundskeeper"; "چمن کاری"];
  industry "jewelry" "طلا/جواهرسازی" "Jewelry / Goldsmith"
    ["طلا سازی"; "جواهرساز"; "goldsmith"; "bench jeweler"; "jewelry making"];
  industry "watchmaking" "ساعت‌سازی/ریزکار" "Watchmaking / Precision"
    ["ساعت سازی"; "ساعت‌ساز"; "watchmaker"; "precision work"; "micromechanics"];
  industry "glassblowing" "دمش شیشه/هنری" "Glassblowing / Studio"
    ["دمش شیشه"; "glassblowing"; "blown glass"; "studio glass"; "glass artist"];
  industry "ceramics" "سرامیک/کوزه‌گری" "Ceramics / Pottery"
    ["سرامیک"; "کوزه گری"; "pottery"; "ceramicist"; "kiln"; "clay work"];
  industry "printing_textile" "چاپ پارچه/لباس" "Textile Printing"
    ["چاپ پارچه"; "sublimation"; "screen printing"; "tshirt printing"; "textile print"];
  industry "assembly" "خط مونتاژ/بسته‌بندی" "Assembly Line / Packaging"
    ["مونتاژ"; "assembly line"; "packaging"; "packager"; "line worker"; "assembly"];
  industry "toy" "تولید اسباب‌بازی/کوچک‌سازی" "Toy / Small Parts Manufacturing"
    ["اسباب بازی"; "toy maker"; "small parts"; "injection molding"; "molding"];
  industry "maritime" "دریانوردی/اسکله/کشتی" "Maritime / Shipyard"
    ["کشتی"; "دریانوردی"; "shipyard"; "sailor"; "deckhand"; "marine"; "boat maintenance"];
  industry "aviation" "هوانوردی/فرودگاه" "Aviation / Aircraft Maintenance"
    ["هواپیما"; "aviation"; "aircraft maintenance"; "aerospace"; "airline"; "ground crew"];
  industry "retail" "فروشگاه/خرده‌فروشی" "Retail / Sales"
    ["فروشنده"; "فروشگاه"; "retail"; "cashier"; "store clerk"; "shop assistant"];
  industry "office" "دفتر/اداری" "Office / Administrative"
    ["دفتر"; "اداری"; "office"; "clerk"; "administrative"; "secretary"];
  industry "it" "فناوری اطلاعات/IT" "IT / Software"
    ["کامپیوتر"; "it"; "software developer"; "programmer"; "devops"; "network admin"];
  industry "photography" "عکاسی/استودیو" "Photography / Studio"
    ["عکاس"; "عکاسی"; "photographer"; "photo studio"; "camera"];
  industry "event" "رویداد/اجرا" "Event / Stage"
    ["رویداد"; "event staff"; "stagehand"; "sound engineer"; "lighting tech"];
  industry "waste" "پسماند/بازیافت" "Waste Management / Recycling"
    ["زباله"; "پسماند"; "recycling"; "waste management"; "garbage collector"];
  industry "education" "آموزش/مدرسه" "Education / School"
    ["مدرسه"; "معلم"; "teacher"; "education"; "instructor"; "tutor"];
  industry "insulation" "عایق‌کاری/ایزولاسیون" "Insulation / Thermal"
    ["عایق کاری"; "insulation"; "thermal insulation"; "pipe insulation"];
  industry "painter_industrial" "رنگ‌کاری صنعتی/پوشش" "Industrial Painting / Coating"
    ["رنگ کاری صنعتی"; "coating"; "spray painter"; "industrial painter"; "powder coating"];
  industry "boilermaker" "دیگ‌ساز/پرس‌ورک" "Boilermaker / Pressure Vessel"
    ["دیگ ساز"; "boilermaker"; "pressure vessel"; "weld pressure"];
  industry "stonecarver" "حجار/منبت‌کاری سنگ" "Stone Carver / Sculptor"
    ["حجار"; "منبت کاری"; "stone carving"; "sculptor"; "سنگ تراشی"];
  industry "safetygear" "تولید تجهیزات ایمنی" "Safety Equipment Manufacturing"
    ["تولید ایمنی"; "ppe manufacturing"; "glove factory"; "safety products"];
  industry "general" "عمومی/کارگر ساده" "General / Labor"
    ["کارگر ساده"; "عمومی"; "helper"; "general labor"; "worker"; "کارگری"]
].

Local Close Scope string_scope.

(** [keywordIndex]: a [Map] from a normalized keyword to the set of the
    indices of the industries that have it, both in insertion order. *)
Definition Index : Type := list (jsstr * list nat).

Record State := {
  INDUSTRIES : list Industry;
  keywordIndex : Index
}.

(** [keywordIndex.get(key)] *)
Fixpoint indexGet (key : jsstr) (m : Index) : option (list nat) :=
  match m with
  | [] => None
  | (k, s) :: r => if eqb_str key k then Some s else indexGet key r
  end.

(** [Set.prototype.add] *)
Definition setAdd (i : nat) (s : list nat) : list nat :=
  if existsb (Nat.eqb i) s then s else s ++ [i].

(** [if (!keywordIndex.has(key)) keywordIndex.set(key, new Set());
    keywordIndex.get(key).add(i)] *)
Fixpoint indexAdd (key : jsstr) (i : nat) (m : Index) : Index :=
  match m with
  | [] => [(key, [i])]
  | (k, s) :: r =>
      if eqb_str key k then (k, setAdd i s) :: r
      else (k, s) :: indexAdd key i r
  end.

(** [foundIndustries.set(idx, (foundIndustries.get(idx) || 0) + w)] *)
Fixpoint bump (w : Q) (idx : nat) (m : list (nat * Q)) : list (nat * Q) :=
  match m with
  | [] => [(idx, (0 + w)%Q)]
  | (i, v) :: r =>
      if (idx =? i)%nat then (i, (v + w)%Q) :: r else (i, v) :: bump w idx r
  end.

(** [if (!best || score > best.score) best = { idx, score }], over the
    entries of a map. *)
Definition pickBest (scores : list (nat * Q)) : option (nat * Q) :=
  fold_left (fun best e =>
               match best with
               | None => Some e
               | Some b => if Qlt_bool (snd b) (snd e) then Some e else best
               end) scores None.

(** The substrings [key.slice(i, i + 4)] for [i] from 0 to
    [key.length - 4]. *)
Fixpoint windows4 (key : jsstr) : list jsstr :=
  match key with
  | a :: ((b :: c :: d :: _) as r) => [a; b; c; d] :: windows4 r
  | _ => []
  end.

Inductive Matched :=
| phrase_index
| phrase_index_weak
| token_overlap
| substring (key sub : jsstr).

Record Match := {
  m_code : value;
  m_name_fa : value;
  m_name_en : value;
  m_score : Q;
  matched : Matched
}.

Section WithUnicode.
Context {U : Unicode}.

Definition normalizeText (s : value) : jsstr :=
  match s with
  | VNull | VUndef => []
  | _ =>
      let s := ToString s in
      let s := replaceChar 0x64A 0x6CC s in
      let s := replaceChar 0x643 0x6A9 s in
      let s := List.map (fun c => if (c =? 0x623) || (c =? 0x625) || (c =? 0x622)
                                  then 0x627 else c) s in
      let s := replaceChar 0x6C0 0x647 s in
      let s := replaceChar 0x629 0x647 s in
      let s := toLowerCase s in
      let s := blankOutside
                 (fun c => inRange 0x600 0x6FF c || inRange 0x61 0x7A c ||
                           inRange 0x41 0x5A c || inRange 0x30 0x39 c ||
                           isWhiteSpace c || (c =? 0x2D) || (c =? 0x2F)) s in
      let s := List.map (fun c => if (c =? 0x2D) || (c =? 0x2F) || (c =? 0x5F)
                                  then SP else c) s in
      trim (collapseSpaces s)
  end.

Definition tokensOf (s : value) : list jsstr :=
  filter (fun t => nonEmpty t && (2 <=? List.length t)%nat)
         (split SP (normalizeText s)).

(** The body of the loop of [buildIndex] over the keywords of the
    industry number [i]. *)
Definition indexKeyword (i : nat) (m : Index) (k : value) : Index :=
  let nk := normalizeText k in
  if isEmpty nk then m
  else
    let parts := filter nonEmpty (split SP nk) in
    fold_left (fun m p => if (2 <=? List.length p)%nat then indexAdd p i m else m)
              parts (indexAdd nk i m).

Definition buildIndex (inds : list Industry) : Index :=
  fold_left (fun m e => fold_left (indexKeyword (fst e)) (keywords (snd e)) m)
            (combine (seq 0 (List.length inds)) inds) [].

(** The state when the script has been evaluated. *)
Definition initial : State :=
  {| INDUSTRIES := INDUSTRIES0; keywordIndex := buildIndex INDUSTRIES0 |}.

(** [INDUSTRIES[idx]]; every index of [keywordIndex] is below
    [INDUSTRIES.length]. *)
Definition industryAt (st : State) (idx : nat) : Industry :=
  nth idx (INDUSTRIES st)
      {| code := VUndef; name_fa := VUndef; name_en := VUndef; keywords := [] |}.

(** [Math.max(1, ind.keywords.length)] *)
Definition keywordCount (st : State) (idx : nat) : Q :=
  ofNat (Nat.max 1 (List.length (keywords (industryAt st idx)))).

Definition result (st : State) (idx : nat) (score : Q) (m : Matched) : Match :=
  let ind := industryAt st idx in
  {| m_code := code ind; m_name_fa := name_fa ind; m_name_en := name_en ind;
     m_score := score; matched := m |}.

(** Step 1: the keys of the index that occur in the text. *)
Definition foundIndustries (st : State) (txt : jsstr) : list (nat * Q) :=
  fold_left (fun found e =>
               if includes txt (fst e)
               then fold_left (fun f idx => bump (15 # 10) idx f) (snd e) found
               else found)
            (keywordIndex st) [].

Definition normalized (st : State) (scores : list (nat * Q)) : list (nat * Q) :=
  List.map (fun e => (fst e, (snd e / keywordCount st (fst e))%Q)) scores.

Definition phraseStep (st : State) (threshold : Q) (txt : jsstr)
  : option Match :=
  match pickBest (normalized st (foundIndustries st txt)) with
  | Some best =>
      if Qle_bool (1 # 2) (snd best)
      then Some (result st (fst best) 1 phrase_index)
      else if Qle_bool (threshold * 2) (snd best)
      then Some (result st (fst best) (Qminb (9 # 10) (snd best))
                        phrase_index_weak)
      else None
  | None => None
  end.

(** Step 2: the tokens of the text that are keys of the index. *)
Definition hitsByIdx (st : State) (tkns : list jsstr) : list (nat * Q) :=
  fold_left (fun hits t =>
               match indexGet t (keywordIndex st) with
               | Some inds => fold_left (fun h idx => bump 1 idx h) inds hits
               | None => hits
               end)
            tkns [].

Definition tokenStep (st : State) (threshold : Q) (txt : jsstr)
  : option Match :=
  let tkns := tokensOf (VStr txt) in
  match pickBest (normalized st (hitsByIdx st tkns)) with
  | Some best =>
      if Qle_bool threshold (snd best)
      then Some (result st (fst best) (snd best) token_overlap)
      else None
  | None => None
  end.

(** Step 3: the first key of four characters or more that shares four
    consecutive characters with the text. *)
Fixpoint substringStep (st : State) (txt : jsstr) (index : Index)
  : option Match :=
  match index with
  | [] => None
  | (key, inds) :: r =>
      match find (includes txt) (windows4 key) with
      | Some sub =>
          Some (result st (hd 0%nat inds) (18 # 100) (substring key sub))
      | None => substringStep st txt r
      end
  end.

(** [bestMatch(raw, opts)]; [threshold] is [opts.threshold] when it is
    a number. [None] is [null]. *)
Definition bestMatch (st : State) (raw : value) (threshold : option Q)
  : option Match :=
  let threshold := match threshold with Some t => t | None => (25 # 100)%Q end in
  let txt := normalizeText raw in
  if isEmpty txt then None
  else
    match phraseStep st threshold txt with
    | Some m => Some m
    | None =>
        match tokenStep st threshold txt with
        | Some m => Some m
        | None => substringStep st txt (keywordIndex st)
        end
    end.

(** [addIndustry(obj)]; [None] is the exception
    [Invalid industry object]. *)
Definition addIndustry (st : State) (obj : value) : option State :=
  match get obj "keywords" with
  | VArr kws =>
      if truthy obj && truthy (get obj "code") then
        let inds := INDUSTRIES st ++
                    [{| code := get obj "code";
                        name_fa := orElse (get obj "name_fa") (get obj "code");
                        name_en := orElse (get obj "name_en") (get obj "code");
                        keywords := kws |}] in
        Some {| INDUSTRIES := inds; keywordIndex := buildIndex inds |}
      else None
  | _ => None
  end.

(** [loadFromJSON(url)]: the answer and the state it leaves. *)
Definition loadFromJSON (st : State) (r : response) : bool * State :=
  match r with
  | Json (VArr arr) =>
      (true, fold_left (fun st obj => match addIndustry st obj with
                                      | Some st' => st'
                                      | None => st
                                      end) arr st)
  | _ => (false, st)
  end.

End WithUnicode.
End IndustryIndexerV3.

(* ================================================================== *)
(** * Notions of the specification *)
(* ================================================================== *)

(** The edit distance of Levenshtein, by its recurrence on prefixes:
    both strings are given last character first. *)
Fixpoint editRev (a b : jsstr) : nat :=
  match a with
  | [] => List.length b
  | x :: a' =>
      (fix inner (b : jsstr) : nat :=
         match b with
         | [] => List.length a
         | y :: b' =>
             Nat.min (Nat.min (editRev a' b + 1) (inner b' + 1))
                     (editRev a' b' + (if (x =? y)%N then 0 else 1))
         end) b
  end.

Definition edit_distance (a b : jsstr) : nat := editRev (rev a) (rev b).

(** The invariant of the state of IndustryIndexer v3.0: [buildIndex()]
    has run since the last change of [INDUSTRIES]. *)
Definition indexed {U : Unicode} (st : IndustryIndexerV3.State) : Prop :=
  IndustryIndexerV3.keywordIndex st =
  IndustryIndexerV3.buildIndex (IndustryIndexerV3.INDUSTRIES st).

(** The pieces of a text between its spaces: the strings without a
    space that give the text back when they are joined by spaces. *)
Definition Pieces (s : jsstr) (l : list jsstr) : Prop :=
  l <> [] /\ join [SP] l = s /\ Forall (fun t => ~ In SP t) l.

(** A string is [spaced] when its only white space is the space. *)
Definition spaced (s : jsstr) : Prop :=
  forall c, In c s -> isWhiteSpace c = true -> c = SP.

(** A string is [tidy] when its white space is single spaces; [prev]
    says that a space precedes the string. *)
Fixpoint tidy (prev : bool) (s : jsstr) : Prop :=
  match s with
  | [] => True
  | c :: r =>
      if isWhiteSpace c then c = SP /\ prev = false /\ tidy true r
      else tidy false r
  end.

(** The first character of a string is not white space. *)
Definition headed (s : jsstr) : Prop :=
  match s with
  | [] => True
  | c :: _ => isWhiteSpace c = false
  end.

(** A string is [trimmed] when neither end is white space. *)
Definition trimmed (s : jsstr) : Prop := headed s /\ headed (rev s).


(** The prefixes of [b2] appended to [rb], each last character first:
    the columns of the table of [levenshtein]. *)
Fixpoint rprefixes (rb b2 : jsstr) : list jsstr :=
  rb :: match b2 with
        | [] => []
        | y :: b2' => rprefixes (y :: rb) b2'
        end.

(** The index lists the industry [i] under [key]. *)
Definition Has (m : IndustryIndexerV3.Index) (key : jsstr) (i : nat) : Prop :=
  exists s, In (key, s) m /\ In i s.

(** The map of scores gives [q] at least to [j]. *)
Definition AtLeast (m : list (nat * Q)) (j : nat) (q : Q) : Prop :=
  exists v, In (j, v) m /\ (q <= v)%Q.

(** No score of the map is negative. *)
Definition Nonneg (m : list (nat * Q)) : Prop :=
  forall e, In e m -> (0 <= snd e)%Q.

(** Every score of the map belongs to the industry [n]. *)
Definition OnlyKey (n : nat) (m : list (nat * Q)) : Prop :=
  forall e, In e m -> fst e = n.

(** The running score of [scoreProduct] is not negative. *)
Definition nonneg (acc : ProductMatcher.Acc) : Prop := (0 <= fst acc)%Q.

(** [s] is a subsequence of [l]: [l] with some elements left out. *)
Inductive Subseq (A : Type) : list A -> list A -> Prop :=
| Subseq_nil (l : list A) : Subseq [] l
| Subseq_take (x : A) (s l : list A) : Subseq s l -> Subseq (x :: s) (x :: l)
| Subseq_skip (x : A) (s l : list A) : Subseq s l -> Subseq s (x :: l).

(** [n] is the length of a longest common subsequence of [a] and [b]. *)
Definition LongestCommon (A : Type) (a b : list A) (n : nat) : Prop :=
  (exists s, Subseq s a /\ Subseq s b /\ List.length s = n) /\
  (forall s, Subseq s a -> Subseq s b -> (List.length s <= n)%nat).

(** The recurrence of the longest common subsequence on prefixes: both
    lists are given last element first. *)
Fixpoint lcsRev (A : Type) (eqb : A -> A -> bool) (a b : list A) : nat :=
  match a with
  | [] => 0%nat
  | x :: a' =>
      (fix inner (b : list A) : nat :=
         match b with
         | [] => 0%nat
         | y :: b' =>
             if eqb x y then S (lcsRev eqb a' b')
             else Nat.max (lcsRev eqb a' b) (inner b')
         end) b
  end.

(** The prefixes of [b2] appended to [rb], each last element first: the
    columns of the table of [lcsLength]. *)
Fixpoint prefixesRev (A : Type) (rb b2 : list A) : list (list A) :=
  rb :: match b2 with
        | [] => []
        | y :: b2' => prefixesRev (y :: rb) b2'
        end.

(** The sum of a list of numbers. *)
Definition Qsum (l : list Q) : Q := fold_right Qplus 0%Q l.

(** The list is in the order of decreasing [key]. *)
Definition descending (A : Type) (key : A -> Q) (l : list A) : Prop :=
  StronglySorted (fun a b => (key b <= key a)%Q) l.

(** The list is in the order of increasing [key]. *)
Definition ascending (A : Type) (key : A -> nat) (l : list A) : Prop :=
  StronglySorted (fun a b => (key a <= key b)%nat) l.

(** The sets of the index are not empty and hold positions below [n]. *)
Definition Bounded (n : nat) (m : IndustryIndexerV3.Index) : Prop :=
  forall key s, In (key, s) m -> s <> [] /\ forall i, In i s -> (i < n)%nat.

(** Every score of the map belongs to a position below [n]. *)
Definition KeysBelow (n : nat) (m : list (nat * Q)) : Prop :=
  forall e, In e m -> (fst e < n)%nat.

(** Inputs of the examples. *)
Module Examples.

Definition s (x : string) : value := VStr (str x).

(** A knowledge base of one record, and the two answers of the
    network. *)
Definition kbPayload : value := VArr [VObj [(str "title", s "a b")]].

Definition online : KnowledgeEngine.Net :=
  {| KnowledgeEngine.intentsFile := HttpError 404;
     KnowledgeEngine.kbFile := Json kbPayload |}.

Definition offline : KnowledgeEngine.Net :=
  {| KnowledgeEngine.intentsFile := NetworkError;
     KnowledgeEngine.kbFile := NetworkError |}.

Definition loaded : KnowledgeEngine.State :=
  snd (KnowledgeEngine.init KnowledgeEngine.initial VUndef online).

Definition reloaded : KnowledgeEngine.State :=
  snd (KnowledgeEngine.init loaded VUndef offline).

(** An industry of five keywords. *)
Definition plumbing : value :=
  VObj [(str "code", s "plumbing");
        (str "keywords",
         VArr [s "plumber"; s "pipe fitter"; s "drain"; s "sewer"; s "tap"])].

(** An industry of one keyword. *)
Definition florist : value :=
  VObj [(str "code", s "florist"); (str "keywords", VArr [s "Florist"])].

(** The index after [addIndustry(florist)]. *)
Definition withFlorist : IndustryIndexerV3.State :=
  match IndustryIndexerV3.addIndustry IndustryIndexerV3.initial florist with
  | Some st => st
  | None => IndustryIndexerV3.initial
  end.

(** The built-in catalogue as [init] leaves it. *)
Definition builtin : list ProductMatcher.Loaded :=
  List.map ProductMatcher.load ProductMatcher.defaultCatalog.

Definition noHints : ProductMatcher.Query :=
  {| ProductMatcher.hazard := s "radiation";
     ProductMatcher.env := VUndef;
     ProductMatcher.pref := VUndef;
     ProductMatcher.industry := VUndef;
     ProductMatcher.industryCode := VUndef |}.

(** A knowledge base of one record found by the fallback only. *)
Definition snippetOnly : KnowledgeEngine.State :=
  snd (KnowledgeEngine.init
         KnowledgeEngine.initial VUndef
         {| KnowledgeEngine.intentsFile := HttpError 404;
            KnowledgeEngine.kbFile :=
              Json (VArr [VObj [(str "title", s "x");
                                (str "snippet", s "zzz qqq")]]) |}).

(** A product tagged [Cut], and queries for the recommender. *)
Definition cutGlove : ProductMatcher.Loaded :=
  ProductMatcher.load
    {| ProductMatcher.p_id := VNum 7;
       ProductMatcher.title_fa := [];
       ProductMatcher.title_en := str "glove";
       ProductMatcher.url := [];
       ProductMatcher.tags := Some [str "Cut"];
       ProductMatcher.std :=
         Some {| ProductMatcher.en388 := None;
                 ProductMatcher.raw := Some (str "CUT: 3") |};
       ProductMatcher.why := [] |}.

Definition cutHazard : ProductMatcher.Query :=
  {| ProductMatcher.hazard := s " CUT ";
     ProductMatcher.env := s "oily";
     ProductMatcher.pref := VUndef;
     ProductMatcher.industry := VUndef;
     ProductMatcher.industryCode := VUndef |}.

(** A dictionary of two intents, two industries and one hazard. *)
Definition dictionary : IntentMatcher.Dict :=
  {| IntentMatcher.intents :=
       [(str "buy",
         {| IntentMatcher.io_keywords := Some [s "buy"; s "price"];
            IntentMatcher.io_examples := Some [s "how much"] |});
        (str "knowledge",
         {| IntentMatcher.io_keywords := Some [s "datasheet"];
            IntentMatcher.io_examples := None |})];
     IntentMatcher.industries :=
       [(str "glass", [s "glass"]); (str "welding", [s "welding"; s "weld"])];
     IntentMatcher.hazards := [(str "cut", [s "cut"; s "sharp"])];
     IntentMatcher.settings := None |}.

End Examples.

(* ================================================================== *)
(** * Lemmas on strings *)
(* ================================================================== *)

Lemma eqb_str_eq (a b : jsstr) : eqb_str a b = true <-> a = b.
Proof.
  revert b; induction a as [|x a IH]; intros [|y b]; simpl;
    try (split; [discriminate | discriminate]); try tauto.
  rewrite andb_true_iff, N.eqb_eq, IH.
  split; [intros [-> ->]; reflexivity | intros H; inversion H; auto].
Qed.

Lemma eqb_str_refl (a : jsstr) : eqb_str a a = true.
Proof. apply eqb_str_eq; reflexivity. Qed.


Lemma startsWith_refl (s : jsstr) : startsWith s s = true.
Proof. induction s; simpl; auto. rewrite N.eqb_refl; auto. Qed.

Lemma includes_refl (s : jsstr) : includes s s = true.
Proof. destruct s; simpl; auto. rewrite N.eqb_refl, startsWith_refl; auto. Qed.

Lemma arrIncludes_In (arr : list jsstr) (x : jsstr) :
  arrIncludes arr x = true <-> In x arr.
Proof.
  unfold arrIncludes. rewrite existsb_exists. split.
  - intros (y & Hy & E). apply eqb_str_eq in E. subst; auto.
  - intros H. exists x. split; auto. apply eqb_str_refl.
Qed.

Lemma isEmpty_nil (s : jsstr) : isEmpty s = true <-> s = [].
Proof. destruct s; simpl; split; congruence. Qed.

Lemma nonEmpty_length (s : jsstr) : nonEmpty s = true <-> (1 <= List.length s)%nat.
Proof. destruct s; simpl; split; intros; try lia; try discriminate; auto. Qed.

(** ** Tokens hold no white space *)

Lemma trimStart_In (s : jsstr) (c : char) : In c (trimStart s) -> In c s.
Proof.
  induction s as [|x s IH]; simpl; auto.
  destruct (isWhiteSpace x); simpl; auto.
Qed.

Lemma trim_In (s : jsstr) (c : char) : In c (trim s) -> In c s.
Proof.
  unfold trim, trimEnd. intros H.
  apply in_rev in H. apply trimStart_In in H. apply in_rev in H.
  apply trimStart_In in H. exact H.
Qed.

Lemma collapseFrom_space (inrun : bool) (s : jsstr) (c : char) :
  In c (collapseFrom inrun s) -> isWhiteSpace c = true -> c = SP.
Proof.
  revert inrun; induction s as [|x s IH]; simpl; intros inrun H W; [tauto|].
  destruct (isWhiteSpace x) eqn:Wx.
  - destruct inrun; simpl in H; [eauto|].
    destruct H as [<-|H]; eauto.
  - destruct H as [<-|H]; [congruence | eauto].
Qed.

Lemma split_nonnil (d : char) (s : jsstr) : split d s <> [].
Proof.
  destruct s as [|c r]; simpl; [discriminate|].
  destruct (c =? d)%N; [discriminate|].
  destruct (split d r); discriminate.
Qed.

Lemma split_pieces (d : char) (s t : jsstr) :
  In t (split d s) -> ~ In d t /\ (forall c, In c t -> In c s).
Proof.
  revert t; induction s as [|c r IH]; simpl; intros t H.
  - destruct H as [<-|[]]. split; simpl; tauto.
  - destruct (c =? d)%N eqn:E.
    + destruct H as [<-|H]; [split; simpl; tauto|].
      destruct (IH _ H) as [A B]. split; auto.
    + apply N.eqb_neq in E.
      destruct (split d r) as [|h tl] eqn:S; [destruct (split_nonnil _ _ S)|].
      destruct H as [<-|H].
      * destruct (IH h (or_introl eq_refl)) as [A B].
        split; simpl; [intros [X|X]; [congruence | tauto]|].
        intros c0 [<-|X]; auto.
      * destruct (IH t (or_intror H)) as [A B]. split; auto.
Qed.

Lemma join_split (d : char) (s : jsstr) : join [d] (split d s) = s.
Proof.
  induction s as [|c r IH]; [reflexivity|].
  cbn [split]. destruct (N.eqb_spec c d) as [->|N].
  - destruct (split d r) as [|h t] eqn:S; [destruct (split_nonnil _ _ S)|].
    change (join [d] ([] :: h :: t)) with ([] ++ [d] ++ join [d] (h :: t)).
    rewrite IH. reflexivity.
  - destruct (split d r) as [|h t] eqn:S; [destruct (split_nonnil _ _ S)|].
    destruct t as [|h' t'].
    + cbn [join] in *. rewrite IH. reflexivity.
    + change (join [d] ((c :: h) :: h' :: t'))
        with (c :: (h ++ [d] ++ join [d] (h' :: t'))).
      change (join [d] (h :: h' :: t'))
        with (h ++ [d] ++ join [d] (h' :: t')) in IH.
      rewrite IH. reflexivity.
Qed.

Lemma split_no_delim (d : char) (x : jsstr) : ~ In d x -> split d x = [x].
Proof.
  induction x as [|c x IH]; intros H; [reflexivity|].
  cbn [split]. destruct (N.eqb_spec c d) as [->|N]; [destruct H; left; reflexivity|].
  rewrite IH; [reflexivity|]. intros X. apply H. right. exact X.
Qed.

Lemma split_app_delim (d : char) (x rest : jsstr) :
  ~ In d x -> split d (x ++ d :: rest) = x :: split d rest.
Proof.
  induction x as [|c x IH]; intros H.
  - cbn [app split]. rewrite N.eqb_refl. reflexivity.
  - cbn [app split]. destruct (N.eqb_spec c d) as [->|N];
      [destruct H; left; reflexivity|].
    rewrite IH; [reflexivity|]. intros X. apply H. right. exact X.
Qed.

(** The pieces of a text are those of [split]. *)
Lemma Pieces_split (s : jsstr) (l : list jsstr) :
  Pieces s l <-> l = split SP s.
Proof.
  split.
  - intros (N & J & F). subst s. induction l as [|x l IH]; [congruence|].
    inversion F as [|? ? Hx Hl]; subst.
    destruct l as [|y r].
    + cbn [join]. symmetry. apply split_no_delim, Hx.
    + change (join [SP] (x :: y :: r)) with (x ++ SP :: join [SP] (y :: r)).
      rewrite split_app_delim by exact Hx.
      f_equal. apply IH; [discriminate | exact Hl].
  - intros ->. split; [apply split_nonnil|]. split; [apply join_split|].
    apply Forall_forall. intros t Ht. apply (split_pieces _ _ _ Ht).
Qed.

Lemma filter_same (A : Type) (p q : A -> bool) (l : list A) :
  (forall x, p x = q x) -> filter p l = filter q l.
Proof.
  intros H. induction l as [|x l IH]; [reflexivity|].
  cbn [filter]. rewrite H, IH. reflexivity.
Qed.

Lemma spaced_collapse (s : jsstr) : spaced (collapseSpaces s).
Proof. intros c. apply collapseFrom_space. Qed.

Lemma spaced_trim (s : jsstr) : spaced s -> spaced (trim s).
Proof. intros H c Hc. apply H. apply trim_In; auto. Qed.

Lemma spaced_nil : spaced [].
Proof. intros c []. Qed.

Lemma tokens_of_spaced (keep : jsstr -> bool) (s : jsstr) :
  spaced s ->
  Forall (fun t => Forall (fun c => isWhiteSpace c = false) t)
         (filter keep (split SP s)).
Proof.
  intros Hs. apply Forall_forall. intros t Ht.
  apply filter_In in Ht. destruct Ht as [Ht _].
  destruct (split_pieces _ _ _ Ht) as [A B].
  apply Forall_forall. intros c Hc.
  destruct (isWhiteSpace c) eqn:W; auto.
  exfalso. apply A. rewrite <- (Hs c (B c Hc) W). exact Hc.
Qed.

Lemma Forall_and_intro (A : Type) (P Q : A -> Prop) (l : list A) :
  Forall P l -> Forall Q l -> Forall (fun x => P x /\ Q x) l.
Proof. intros HP HQ. induction HP; inversion HQ; subst; constructor; auto. Qed.

(* ================================================================== *)
(** * Tokenizers (C8) *)
(* ================================================================== *)

Section Tokenizers.
Context {U : Unicode}.

Lemma spaced_KnowledgeEngine (s : value) :
  spaced (KnowledgeEngine.normalizeText s).
Proof.
  unfold KnowledgeEngine.normalizeText.
  apply spaced_trim, spaced_collapse.
Qed.

Lemma spaced_IntentMatcher (s : value) : spaced (IntentMatcher.normalizeFa s).
Proof.
  unfold IntentMatcher.normalizeFa.
  destruct (negb (truthy s)); [apply spaced_nil | apply spaced_collapse].
Qed.

Lemma spaced_IndustryIndexer (s : value) : spaced (IndustryIndexer.normalize s).
Proof.
  unfold IndustryIndexer.normalize.
  destruct (negb (truthy s)); [apply spaced_nil | apply spaced_collapse].
Qed.

Lemma spaced_IndustryIndexerV3 (s : value) :
  spaced (IndustryIndexerV3.normalizeText s).
Proof.
  unfold IndustryIndexerV3.normalizeText.
  destruct s; try apply spaced_nil; apply spaced_trim, spaced_collapse.
Qed.

Lemma filter_length_ge (keep : jsstr -> bool) (n : nat) (l : list jsstr) :
  (forall t, keep t = true -> (n <= List.length t)%nat) ->
  Forall (fun t => (n <= List.length t)%nat) (filter keep l).
Proof.
  intros H. apply Forall_forall. intros t Ht.
  apply filter_In in Ht. apply H, Ht.
Qed.

(** C8, amended. Every tokenizer normalizes the text and splits it at
    the spaces, so that no token holds white space. The tokenizer of
    IndustryIndexer v3.0 keeps the pieces of two characters or more;
    those of KnowledgeEngine, IntentMatcher and industry_indexer.js
    drop the empty pieces only, so that their tokens have one character
    or more. The tokens are all the pieces kept, in the order of the
    text. *)
Theorem C8_tokens_lengths (s : value) :
  let clean := fun min (t : jsstr) =>
    (min <= List.length t)%nat /\ Forall (fun c => isWhiteSpace c = false) t in
  (Forall (clean 2%nat) (IndustryIndexerV3.tokensOf s) /\
   Forall (clean 1%nat) (KnowledgeEngine.tokenize s) /\
   Forall (clean 1%nat) (IntentMatcher.tokenSet s) /\
   Forall (clean 1%nat) (IndustryIndexer.tokensOf s)) /\
  (forall pieces,
      Pieces (IndustryIndexerV3.normalizeText s) pieces ->
      IndustryIndexerV3.tokensOf s
      = filter (fun t => (2 <=? List.length t)%nat) pieces) /\
  (forall pieces,
      Pieces (KnowledgeEngine.normalizeText s) pieces ->
      KnowledgeEngine.tokenize s = filter nonEmpty pieces) /\
  (forall pieces,
      Pieces (IntentMatcher.normalizeFa s) pieces ->
      IntentMatcher.tokenSet s = filter nonEmpty pieces) /\
  (forall pieces,
      Pieces (IndustryIndexer.normalize s) pieces ->
      IndustryIndexer.tokensOf s = filter nonEmpty pieces).
Proof.
  cbv zeta. split; [|split; [|split; [|split]]].
  - repeat split.
    + apply Forall_and_intro.
      * apply filter_length_ge. intros t H.
        apply andb_true_iff in H. destruct H as [_ H].
        apply Nat.leb_le in H. exact H.
      * apply tokens_of_spaced, spaced_IndustryIndexerV3.
    + unfold KnowledgeEngine.tokenize.
      destruct (isEmpty (KnowledgeEngine.normalizeText s)); [constructor|].
      apply Forall_and_intro.
      * apply filter_length_ge. intros t H. apply nonEmpty_length, H.
      * apply tokens_of_spaced, spaced_KnowledgeEngine.
    + apply Forall_and_intro.
      * apply filter_length_ge. intros t H. apply nonEmpty_length, H.
      * apply tokens_of_spaced, spaced_IntentMatcher.
    + apply Forall_and_intro.
      * apply filter_length_ge. intros t H. apply nonEmpty_length, H.
      * apply tokens_of_spaced, spaced_IndustryIndexer.
  - intros pieces P. apply Pieces_split in P. subst pieces.
    unfold IndustryIndexerV3.tokensOf. apply filter_same.
    intros [|c t]; reflexivity.
  - intros pieces P. apply Pieces_split in P. subst pieces.
    unfold KnowledgeEngine.tokenize.
    destruct (KnowledgeEngine.normalizeText s); reflexivity.
  - intros pieces P. apply Pieces_split in P. subst pieces. reflexivity.
  - intros pieces P. apply Pieces_split in P. subst pieces. reflexivity.
Qed.

End Tokenizers.

Lemma C8_tokens_lengths_witness :
  IndustryIndexerV3.tokensOf (Examples.s "a, bc") = [str "bc"] /\
  KnowledgeEngine.tokenize (Examples.s "a, bc") = [str "a"; str "bc"].
Proof.
  assert (P : forall l : list jsstr,
             l <> [] -> join [SP] l = str "a bc" ->
             Forall (fun t => ~ In SP t) l -> Pieces (str "a bc") l).
  { intros l A B C. split; [exact A|]. split; [exact B | exact C]. }
  assert (Q : Pieces (str "a bc") [str "a"; str "bc"]).
  { apply P; [discriminate | reflexivity|].
    repeat constructor; vm_compute; intuition discriminate. }
  destruct (@C8_tokens_lengths Latin_Arabic (Examples.s "a, bc"))
    as (_ & A & B & _).
  split.
  - rewrite (A [str "a"; str "bc"] Q). reflexivity.
  - rewrite (B [str "a"; str "bc"] Q). reflexivity.
Defined.

(** C8, as stated, fails: [tokenize("a b")] of KnowledgeEngine returns
    the tokens [a] and [b], of one character each. *)
Lemma C8_counterexample :
  KnowledgeEngine.tokenize (Examples.s "a b") = [str "a"; str "b"] /\
  ~ Forall (fun t => (2 <= List.length t)%nat)
           (KnowledgeEngine.tokenize (Examples.s "a b")).
Proof.
  split; [reflexivity|].
  intros H. inversion H as [|? ? H1 _]. vm_compute in H1. lia.
Qed.

(* ================================================================== *)
(** * The empty query (C9) *)
(* ================================================================== *)

Section EmptyQuery.
Context {U : Unicode}.

(** C9, amended. [query] of KnowledgeEngine returns the empty list, and
    leaves the state as it is, for the texts that [ensureString] turns
    into the empty string: the empty string, [undefined] and [null].
    [bestMatch] of IndustryIndexer v3.0 returns [null] for every text
    that normalizes to the empty string. Neither raises an error. *)
Theorem C9_empty_query :
  (forall st text topN net,
      KnowledgeEngine.ensureString text = [] ->
      KnowledgeEngine.query st text topN net = ([], st)) /\
  (forall st raw threshold,
      IndustryIndexerV3.normalizeText raw = [] ->
      IndustryIndexerV3.bestMatch st raw threshold = None).
Proof.
  split.
  - intros st text topN net H. unfold KnowledgeEngine.query.
    rewrite H. reflexivity.
  - intros st raw threshold H. unfold IndustryIndexerV3.bestMatch.
    rewrite H. reflexivity.
Qed.

End EmptyQuery.

Lemma C9_empty_query_witness :
  (KnowledgeEngine.ensureString VUndef = [] /\
   KnowledgeEngine.query Examples.loaded VUndef None Examples.offline
   = ([], Examples.loaded)) /\
  (IndustryIndexerV3.normalizeText (Examples.s " ?! ") = [] /\
   IndustryIndexerV3.bestMatch IndustryIndexerV3.initial (Examples.s " ?! ") None
   = None).
Proof.
  destruct (C9_empty_query (U := Latin_Arabic)) as [A B].
  split; (split; [reflexivity|]).
  - apply A. reflexivity.
  - apply B. reflexivity.
Defined.

(** C9, as stated, fails for a text that normalizes to the empty string
    without being empty: on the knowledge base of the one record titled
    [a b], [query(" ")] returns that record, scored 0.35 * 1/3 by the
    common subsequence of the raw texts. *)
Lemma C9_counterexample :
  KnowledgeEngine.normalizeText (Examples.s " ") = [] /\
  List.map KnowledgeEngine.r_title
           (fst (KnowledgeEngine.query Examples.loaded (Examples.s " ") None
                                       Examples.offline))
  = [str "a b"].
Proof. split; reflexivity. Qed.

(* ================================================================== *)
(** * Failed loads (C1) *)
(* ================================================================== *)

Section FailedLoads.
Context {U : Unicode}.

(** The slip of [init] of ProductMatcher: the catalogue is annotated
    after the [try], so that a broken element of [data.products] makes
    the call reject and leaves the remote array, annotated up to that
    element, neither the catalogue before nor the built-in one. *)
Lemma init_rejects (path : value) (records : list ProductMatcher.Product)
      (v : value) (rest : list ProductMatcher.Item) :
  truthy path = true ->
  ProductMatcher.init
    path
    (ProductMatcher.Products
       (List.map ProductMatcher.Rec records ++ ProductMatcher.Broken v :: rest))
  = ProductMatcher.Rejected (List.map ProductMatcher.load records)
                            (ProductMatcher.Broken v :: rest).
Proof.
  intros H. unfold ProductMatcher.init. rewrite H.
  assert (A : ProductMatcher.annotate
                (List.map ProductMatcher.Rec records
                 ++ ProductMatcher.Broken v :: rest)
              = (List.map ProductMatcher.load records,
                 ProductMatcher.Broken v :: rest)).
  { induction records as [|p l IH]; [reflexivity|].
    cbn [List.map app ProductMatcher.annotate]. rewrite IH. reflexivity. }
  rewrite A. reflexivity.
Qed.

(** C1, amended. A call of [init] of KnowledgeEngine that fails (empty
    path, network failure, HTTP error, malformed payload, a payload
    that cannot be iterated) leaves the empty knowledge base, marked
    as not initialized, whatever the state before: the entries loaded
    earlier are discarded, and no part of the failed payload is kept.
    A call that succeeds holds all the records of its payload. A remote
    load of ProductMatcher that fails at the request, at the status, at
    the JSON or at the shape of [data.products] resolves with the
    built-in catalogue, every record annotated, as a call without a
    path does. *)
Theorem C1_failed_load_resets :
  (forall st kbPath net,
      KnowledgeEngine.failed (fst (KnowledgeEngine.init st kbPath net)) = true ->
      KnowledgeEngine._kb (snd (KnowledgeEngine.init st kbPath net)) = [] /\
      KnowledgeEngine._indexInitialized
        (snd (KnowledgeEngine.init st kbPath net)) = false) /\
  (forall st kbPath net,
      KnowledgeEngine.failed (fst (KnowledgeEngine.init st kbPath net)) = false ->
      exists json records,
        KnowledgeEngine.kbFile net = Json json /\
        KnowledgeEngine.recordsOf json = Some records /\
        KnowledgeEngine._kb (snd (KnowledgeEngine.init st kbPath net))
        = mapi KnowledgeEngine.normalizeEntry records /\
        KnowledgeEngine._indexInitialized
          (snd (KnowledgeEngine.init st kbPath net)) = true) /\
  (forall path remote,
      (forall l, remote <> ProductMatcher.Products l) ->
      ProductMatcher.init path remote
      = ProductMatcher.Resolved
          (List.map ProductMatcher.load ProductMatcher.defaultCatalog)) /\
  (forall path remote,
      truthy path = false ->
      ProductMatcher.init path remote
      = ProductMatcher.Resolved
          (List.map ProductMatcher.load ProductMatcher.defaultCatalog)).
Proof.
  split; [|split; [|split]].
  - intros st kbPath net. unfold KnowledgeEngine.init.
    destruct (negb (truthy _)); simpl; auto.
    destruct (KnowledgeEngine.kbFile net); simpl; auto.
    destruct (KnowledgeEngine.recordsOf body); simpl; auto.
    discriminate.
  - intros st kbPath net. unfold KnowledgeEngine.init.
    destruct (negb (truthy _)); simpl; try discriminate.
    destruct (KnowledgeEngine.kbFile net) as [| | |json]; simpl;
      try discriminate.
    destruct (KnowledgeEngine.recordsOf json) as [records|] eqn:R; simpl;
      try discriminate.
    intros _. exists json, records. auto.
  - intros path remote H. unfold ProductMatcher.init.
    destruct (truthy path); auto.
    destruct remote; auto. destruct (H l eq_refl).
  - intros path remote H. unfold ProductMatcher.init. rewrite H. reflexivity.
Qed.

End FailedLoads.

Lemma C1_failed_load_resets_witness :
  (KnowledgeEngine.failed
     (fst (KnowledgeEngine.init Examples.loaded VUndef Examples.offline)) = true /\
   KnowledgeEngine._kb Examples.reloaded = [] /\
   KnowledgeEngine._indexInitialized Examples.reloaded = false) /\
  (KnowledgeEngine.failed
     (fst (KnowledgeEngine.init KnowledgeEngine.initial VUndef Examples.online))
   = false /\
   exists json records,
     KnowledgeEngine.kbFile Examples.online = Json json /\
     KnowledgeEngine.recordsOf json = Some records /\
     KnowledgeEngine._kb Examples.loaded
     = mapi KnowledgeEngine.normalizeEntry records /\
     KnowledgeEngine._indexInitialized Examples.loaded = true) /\
  ProductMatcher.init (Examples.s "/data/products.json") ProductMatcher.Unreachable
  = ProductMatcher.Resolved Examples.builtin /\
  ProductMatcher.init VUndef (ProductMatcher.Products [])
  = ProductMatcher.Resolved Examples.builtin.
Proof.
  destruct (C1_failed_load_resets (U := Latin_Arabic)) as (A & B & C & D).
  split; [|split; [|split]].
  - split; [reflexivity|].
    apply (A Examples.loaded VUndef Examples.offline). reflexivity.
  - split; [reflexivity|].
    apply (B KnowledgeEngine.initial VUndef Examples.online). reflexivity.
  - apply C. intros l. discriminate.
  - apply D. reflexivity.
Defined.

(** C1, as stated, fails: after a load that succeeded, a load whose
    request fails leaves the knowledge base empty; the record that a
    query found before is not found any more. *)
Lemma C1_counterexample :
  KnowledgeEngine.failed
    (fst (KnowledgeEngine.init Examples.loaded VUndef Examples.offline)) = true /\
  KnowledgeEngine._kb Examples.reloaded <> KnowledgeEngine._kb Examples.loaded /\
  List.map KnowledgeEngine.r_title
    (fst (KnowledgeEngine.query Examples.loaded (Examples.s "a b") None
                                Examples.offline)) = [str "a b"] /\
  fst (KnowledgeEngine.query Examples.reloaded (Examples.s "a b") None
                             Examples.offline) = [].
Proof.
  split; [reflexivity|]. split; [|split; reflexivity].
  vm_compute. discriminate.
Qed.

(* ================================================================== *)
(** * Digits (C6) and idempotence (C2) *)
(* ================================================================== *)

Lemma filter_trimStart (p : char -> bool) (s : jsstr) :
  (forall c, isWhiteSpace c = true -> p c = false) ->
  filter p (trimStart s) = filter p s.
Proof.
  intros H. induction s as [|x s IH]; simpl; auto.
  destruct (isWhiteSpace x) eqn:W; simpl; auto.
  rewrite (H x W). exact IH.
Qed.

Lemma filter_rev (A : Type) (p : A -> bool) (l : list A) :
  filter p (rev l) = rev (filter p l).
Proof.
  induction l as [|x l IH]; simpl; auto.
  rewrite filter_app, IH. simpl. destruct (p x); simpl; auto.
  rewrite app_nil_r. reflexivity.
Qed.

Lemma filter_trim (p : char -> bool) (s : jsstr) :
  (forall c, isWhiteSpace c = true -> p c = false) ->
  filter p (trim s) = filter p s.
Proof.
  intros H. unfold trim, trimEnd.
  rewrite filter_rev, filter_trimStart, filter_rev, rev_involutive by exact H.
  apply filter_trimStart, H.
Qed.

Lemma filter_collapse (p : char -> bool) (s : jsstr) :
  (forall c, isWhiteSpace c = true -> p c = false) ->
  filter p (collapseSpaces s) = filter p s.
Proof.
  intros H. unfold collapseSpaces. generalize false.
  induction s as [|x s IH]; simpl; auto. intros b.
  destruct (isWhiteSpace x) eqn:W.
  - rewrite (H x W). destruct b; simpl; auto.
    rewrite (H SP eq_refl). auto.
  - simpl. destruct (p x); rewrite IH; auto.
Qed.

Lemma filter_map_cond (p g : char -> bool) (k : char) (s : jsstr) :
  (forall c, g c = true -> p c = false) -> p k = false ->
  filter p (List.map (fun c => if g c then k else c) s) = filter p s.
Proof.
  intros H1 H2. induction s as [|x s IH]; simpl; auto.
  destruct (g x) eqn:E.
  - rewrite H2, (H1 x E). exact IH.
  - destruct (p x); rewrite IH; auto.
Qed.

Lemma filter_blank (p keep : char -> bool) (s : jsstr) :
  (forall c, p c = true -> keep c = true) -> p SP = false ->
  filter p (blankOutside keep s) = filter p s.
Proof.
  intros H1 H2. unfold blankOutside.
  induction s as [|x s IH]; simpl; auto.
  destruct (keep x) eqn:E.
  - destruct (p x); rewrite IH; auto.
  - rewrite H2. destruct (p x) eqn:F; auto.
    rewrite (H1 x F) in E. discriminate.
Qed.

Lemma filter_filter_out (p q : char -> bool) (s : jsstr) :
  (forall c, p c = true -> q c = true) ->
  filter p (filter q s) = filter p s.
Proof.
  intros H. induction s as [|x s IH]; simpl; auto.
  destruct (q x) eqn:E; simpl; rewrite IH; auto.
  destruct (p x) eqn:F; auto. rewrite (H x F) in E. discriminate.
Qed.

Lemma filter_sub (p q : char -> bool) (s t : jsstr) :
  (forall c, p c = true -> q c = true) ->
  filter q s = filter q t -> filter p s = filter p t.
Proof.
  intros H E.
  rewrite <- (filter_filter_out p q s H), <- (filter_filter_out p q t H), E.
  reflexivity.
Qed.

(** Facts on classes of characters, by linear arithmetic on the code
    units. *)
Ltac bool_to_prop H :=
  repeat first
    [ rewrite orb_true_iff in H | rewrite andb_true_iff in H
    | rewrite negb_true_iff in H
    | rewrite N.leb_le in H | rewrite N.eqb_eq in H
    | rewrite N.ltb_lt in H ].

Ltac chars :=
  intros;
  unfold KnowledgeEngine.isZeroWidth, isDigit, isAsciiDigit, isEasternDigit,
    isWhiteSpace, inRange, SP in *;
  repeat match goal with
         | H : _ = false |- _ => apply not_true_iff_false in H
         end;
  try match goal with
      | |- _ = false => apply not_true_iff_false; intro
      end;
  repeat match goal with
         | H : ?b = true |- _ => progress bool_to_prop H
         | H : ~ (?b = true) |- _ => progress bool_to_prop H
         end;
  repeat first
    [ rewrite orb_true_iff | rewrite andb_true_iff
    | rewrite N.leb_le | rewrite N.eqb_eq | rewrite N.ltb_lt ];
  lia.

Lemma digit_not_space (c : char) : isWhiteSpace c = true -> isDigit c = false.
Proof. chars. Qed.

Lemma zero_width_not_digit (c : char) :
  KnowledgeEngine.isZeroWidth c = true -> isDigit c = false.
Proof. chars. Qed.

Lemma eastern_is_digit (c : char) : isEasternDigit c = true -> isDigit c = true.
Proof. chars. Qed.

Lemma ascii_is_digit (c : char) : isAsciiDigit c = true -> isDigit c = true.
Proof. chars. Qed.

Lemma natToString_digit (d : char) :
  isEasternDigit d = true -> natToString (d - 1776) = [d - 0x6F0 + 0x30].
Proof.
  intros H. assert (E : exists k, (k < 10)%nat /\ d = 1776 + N.of_nat k).
  { exists (N.to_nat (d - 1776)). revert H. chars. }
  destruct E as (k & Hk & ->).
  do 10 (destruct k as [|k]; [reflexivity|]). lia.
Qed.

Lemma replaceChar_digits (x y : char) (s : jsstr) :
  isDigit x = false -> isDigit y = false ->
  filter isDigit (replaceChar x y s) = filter isDigit s.
Proof.
  intros Hx Hy. apply filter_map_cond; auto.
  intros c E. apply N.eqb_eq in E. subst. exact Hx.
Qed.

#[export] Instance Latin_Arabic_digits : UnicodeDigits Latin_Arabic.
Proof.
  split.
  - intros s. simpl.
    replace Tables.lowerChar
      with (fun c => if inRange 0x41 0x5A c || inRange 0xC0 0xD6 c ||
                        inRange 0xD8 0xDE c then c + 32 else c)
      by reflexivity.
    induction s as [|x s IH]; simpl; auto.
    destruct (_ || _) eqn:E.
    + replace (isDigit (x + 32)) with false by (symmetry; revert E; chars).
      replace (isDigit x) with false by (symmetry; revert E; chars).
      exact IH.
    + destruct (isDigit x); rewrite IH; auto.
  - intros c. simpl. unfold Tables.number. chars.
Qed.

Section Digits.
Context {U : Unicode} {D : UnicodeDigits U}.

Lemma blank_digits (s : jsstr) :
  filter isDigit
         (blankOutside (fun c => isLetter c || isNumber c || isWhiteSpace c) s)
  = filter isDigit s.
Proof.
  apply filter_blank; [|reflexivity]. intros c E.
  rewrite (isNumber_digit _ E), orb_true_r. reflexivity.
Qed.

Lemma fold_digits (s : jsstr) :
  filter isAsciiDigit
         (flat_map (fun d => if isEasternDigit d
                             then natToString (d - 1776) else [d]) s)
  = List.map toAsciiDigit (filter isDigit s) /\
  filter isEasternDigit
         (flat_map (fun d => if isEasternDigit d
                             then natToString (d - 1776) else [d]) s) = [].
Proof.
  induction s as [|x s [IH1 IH2]]; simpl; auto.
  rewrite !filter_app, IH1, IH2. unfold toAsciiDigit, isDigit.
  destruct (isEasternDigit x) eqn:E.
  - rewrite (natToString_digit _ E), orb_true_r. simpl. rewrite E.
    replace (isAsciiDigit (x - 1776 + 48)) with true
      by (symmetry; revert E; chars).
    replace (isEasternDigit (x - 1776 + 48)) with false
      by (symmetry; revert E; chars).
    auto.
  - rewrite orb_false_r. simpl. rewrite E.
    destruct (isAsciiDigit x); simpl; rewrite ?E; auto.
Qed.

(** C6, amended. [normalize] of industry_indexer.js replaces each
    Eastern Arabic-Indic digit by the corresponding ASCII digit: the
    ASCII digits of its output are, in order, the digits of the input
    with each Eastern digit replaced by its ASCII digit, and no Eastern
    digit is left. [normalizeText] of KnowledgeEngine and of
    IndustryIndexer v3.0 have no digit folding: the Eastern digits of
    the input are in the output as they are. *)
Theorem C6_digits (s : jsstr) :
  (filter isAsciiDigit (IndustryIndexer.normalize (VStr s))
   = List.map toAsciiDigit (filter isDigit s) /\
   filter isEasternDigit (IndustryIndexer.normalize (VStr s)) = []) /\
  filter isEasternDigit (KnowledgeEngine.normalizeText (VStr s))
  = filter isEasternDigit s /\
  filter isEasternDigit (IndustryIndexerV3.normalizeText (VStr s))
  = filter isEasternDigit s.
Proof.
  split; [|split].
  - unfold IndustryIndexer.normalize. simpl truthy.
    destruct s as [|c s']; [simpl; auto|].
    cbn [nonEmpty isEmpty negb ToString].
    set (s := c :: s').
    set (t := replaceChar _ _ (replaceChar _ _ (toLowerCase (trim s)))).
    assert (Ht : filter isDigit t = filter isDigit s).
    { unfold t. rewrite !replaceChar_digits by reflexivity.
      rewrite toLowerCase_digits. apply filter_trim, digit_not_space. }
    destruct (fold_digits t) as [F1 F2]. split.
    + rewrite filter_collapse by chars.
      etransitivity;
        [eapply filter_sub; [exact ascii_is_digit | apply blank_digits]|].
      rewrite F1, Ht. reflexivity.
    + rewrite filter_collapse by chars.
      etransitivity;
        [eapply filter_sub; [exact eastern_is_digit | apply blank_digits]|].
      exact F2.
  - unfold KnowledgeEngine.normalizeText.
    cbn [KnowledgeEngine.ensureString ToString].
    rewrite filter_trim, filter_collapse by chars.
    apply (filter_sub isEasternDigit isDigit _ _ eastern_is_digit).
    rewrite blank_digits, filter_filter_out.
    + apply toLowerCase_digits.
    + intros c E. destruct (KnowledgeEngine.isZeroWidth c) eqn:Z; auto.
      rewrite (zero_width_not_digit _ Z) in E. discriminate.
  - unfold IndustryIndexerV3.normalizeText. cbn [ToString].
    rewrite filter_trim, filter_collapse by chars.
    apply (filter_sub isEasternDigit isDigit _ _ eastern_is_digit).
    rewrite filter_map_cond by (try reflexivity; chars).
    rewrite filter_blank by (try reflexivity; chars).
    rewrite toLowerCase_digits.
    rewrite !replaceChar_digits by reflexivity.
    rewrite filter_map_cond by (try reflexivity; chars).
    rewrite !replaceChar_digits by reflexivity.
    reflexivity.
Qed.

End Digits.

Lemma C6_digits_witness :
  (filter isAsciiDigit (IndustryIndexer.normalize (Examples.s "کد ۱۲۳"))
   = List.map toAsciiDigit (filter isDigit (str "کد ۱۲۳")) /\
   filter isEasternDigit (IndustryIndexer.normalize (Examples.s "کد ۱۲۳")) = []) /\
  filter isEasternDigit (KnowledgeEngine.normalizeText (Examples.s "کد ۱۲۳"))
  = filter isEasternDigit (str "کد ۱۲۳") /\
  filter isEasternDigit (IndustryIndexerV3.normalizeText (Examples.s "کد ۱۲۳"))
  = filter isEasternDigit (str "کد ۱۲۳").
Proof.
  exact (C6_digits (U := Latin_Arabic) (D := Latin_Arabic_digits) (str "کد ۱۲۳")).
Defined.

(** C6, as stated, fails for [normalizeText] of KnowledgeEngine, which
    has no digit folding: the digit ۵ stays ۵. *)
Lemma C6_counterexample :
  KnowledgeEngine.normalizeText (Examples.s "۵") = str "۵" /\
  KnowledgeEngine.normalizeText (Examples.s "۵") <> str "5".
Proof. split; [reflexivity | vm_compute; discriminate]. Qed.

(** The digit folding of [normalizeFa] of IntentMatcher subtracts in the
    wrong direction: only ۰ becomes its ASCII digit, ۱ becomes [/], which
    the next step blanks. *)
Lemma normalizeFa_digits_slip :
  IntentMatcher.normalizeFa (Examples.s "۰") = str "0" /\
  IntentMatcher.normalizeFa (Examples.s "۱۲۳") = str " " /\
  IndustryIndexer.normalize (Examples.s "۱۲۳") = str "123".
Proof. repeat split; reflexivity. Qed.

(** C2 at the failing input [a!]: [normalizeFa] and [normalize] of
    industry_indexer.js trim before they blank the punctuation, so that
    the space left by [!] is trimmed by the second pass only. *)
Lemma C2_normalizeFa_not_idempotent :
  IntentMatcher.normalizeFa (Examples.s "a!") = str "a " /\
  IntentMatcher.normalizeFa (VStr (IntentMatcher.normalizeFa (Examples.s "a!")))
  = str "a" /\
  IndustryIndexer.normalize (Examples.s "a!") = str "a " /\
  IndustryIndexer.normalize (VStr (IndustryIndexer.normalize (Examples.s "a!")))
  = str "a".
Proof. repeat split; reflexivity. Qed.

(* ================================================================== *)
(** * Token overlap (C5) *)
(* ================================================================== *)

Lemma ofNat_S (n : nat) : (ofNat (S n) == ofNat n + 1)%Q.
Proof.
  unfold ofNat. rewrite Nat2Z.inj_succ, <- Z.add_1_r, inject_Z_plus.
  reflexivity.
Qed.

Lemma ofNat_nonneg (n : nat) : (0 <= ofNat n)%Q.
Proof. unfold ofNat, Qle; simpl. lia. Qed.

Lemma ofNat_pos (n : nat) : (0 < n)%nat -> (0 < ofNat n)%Q.
Proof. unfold ofNat, Qlt; simpl. lia. Qed.

Lemma ofNat_le (n m : nat) : (n <= m)%nat -> (ofNat n <= ofNat m)%Q.
Proof. unfold ofNat, Qle; simpl. lia. Qed.

Lemma Qle_bool_false (a b : Q) : Qle_bool a b = false -> (b < a)%Q.
Proof.
  intros H. apply Qnot_le_lt. intros L.
  apply Qle_bool_iff in L. congruence.
Qed.

Lemma Qlt_bool_iff (a b : Q) : Qlt_bool a b = true <-> (a < b)%Q.
Proof.
  unfold Qlt_bool. rewrite negb_true_iff. split.
  - apply Qle_bool_false.
  - intros H. destruct (Qle_bool b a) eqn:E; auto.
    apply Qle_bool_iff in E. lra.
Qed.

Lemma Qmaxb_ub (a b : Q) : (a <= Qmaxb a b /\ b <= Qmaxb a b)%Q.
Proof.
  unfold Qmaxb. destruct (Qle_bool a b) eqn:E.
  - apply Qle_bool_iff in E. lra.
  - apply Qle_bool_false in E. lra.
Qed.

Lemma Qmaxb_cases (a b : Q) : Qmaxb a b = a \/ Qmaxb a b = b.
Proof. unfold Qmaxb. destruct (Qle_bool a b); auto. Qed.

Lemma Qminb_lb (a b : Q) : (Qminb a b <= a /\ Qminb a b <= b)%Q.
Proof.
  unfold Qminb. destruct (Qle_bool a b) eqn:E.
  - apply Qle_bool_iff in E. lra.
  - apply Qle_bool_false in E. lra.
Qed.

Lemma Qminb_cases (a b : Q) : Qminb a b = a \/ Qminb a b = b.
Proof. unfold Qminb. destruct (Qle_bool a b); auto. Qed.

Lemma existsb_includes (textTokens : list jsstr) (at_ : jsstr) (b : bool) :
  existsb (fun tt => includes tt at_ && b) textTokens = true <->
  b = true /\ exists tt, In tt textTokens /\ includes tt at_ = true.
Proof.
  rewrite existsb_exists. split.
  - intros (tt & Hin & H). apply andb_true_iff in H. destruct H. eauto.
  - intros (Hb & tt & Hin & H). exists tt. rewrite H, Hb. auto.
Qed.

Lemma existsb_includes_false (textTokens : list jsstr) (at_ : jsstr) (b : bool) :
  existsb (fun tt => includes tt at_ && b) textTokens = false ->
  b = false \/ forall tt, In tt textTokens -> includes tt at_ = false.
Proof.
  intros H. destruct b; auto. right. intros tt Hin.
  destruct (includes tt at_) eqn:E; auto.
  assert (X : existsb (fun tt => includes tt at_ && true) textTokens = true).
  { apply existsb_includes. eauto. }
  congruence.
Qed.

(** What a token of the alias adds to [hitCount] of [scoreAgainstAlias]. *)
Lemma tokenHit_cases (textTokens : list jsstr) (at_ : jsstr) :
  (arrIncludes textTokens at_ = true /\
   IndustryIndexer.tokenHit textTokens at_ = 1%Q) \/
  (arrIncludes textTokens at_ = false /\ (3 <= List.length at_)%nat /\
   (exists tt, In tt textTokens /\ includes tt at_ = true) /\
   IndustryIndexer.tokenHit textTokens at_ = (9 # 10)%Q) \/
  (arrIncludes textTokens at_ = false /\
   ((List.length at_ < 3)%nat \/
    forall tt, In tt textTokens -> includes tt at_ = false) /\
   IndustryIndexer.tokenHit textTokens at_ = 0%Q).
Proof.
  unfold IndustryIndexer.tokenHit.
  destruct (arrIncludes textTokens at_); [left; auto|right].
  destruct (existsb _ textTokens) eqn:E.
  - left. apply existsb_includes in E. destruct E as [L X].
    apply Nat.leb_le in L. auto.
  - right. apply existsb_includes_false in E. repeat split; auto.
    destruct E as [E|E]; auto. apply Nat.leb_gt in E. auto.
Qed.

Lemma tokenHit_bounds (textTokens : list jsstr) (at_ : jsstr) :
  (0 <= IndustryIndexer.tokenHit textTokens at_ <= 1)%Q.
Proof.
  destruct (tokenHit_cases textTokens at_) as [[_ ->]|[(_ & _ & _ & ->)|(_ & _ & ->)]];
    lra.
Qed.

Lemma sum_bounds (A : Type) (f : A -> Q) (l : list A) (acc : Q) :
  (forall x, 0 <= f x <= 1)%Q ->
  (acc <= fold_left (fun h x => h + f x) l acc <= acc + ofNat (List.length l))%Q.
Proof.
  intros Hf. revert acc. induction l as [|x l IH]; intros acc.
  - cbn [fold_left List.length]. change (ofNat 0) with 0%Q. lra.
  - cbn [fold_left List.length]. specialize (IH (acc + f x)%Q).
    specialize (Hf x). rewrite ofNat_S. lra.
Qed.

Lemma hitCount_bounds (textTokens aliasTokens : list jsstr) :
  (0 <= IndustryIndexer.hitCount textTokens aliasTokens
   <= ofNat (List.length aliasTokens))%Q.
Proof.
  unfold IndustryIndexer.hitCount.
  pose proof (sum_bounds (IndustryIndexer.tokenHit textTokens) aliasTokens 0
                         (tokenHit_bounds textTokens)) as H.
  lra.
Qed.

Lemma tokenRatio_bounds (textTokens aliasTokens : list jsstr) :
  (0 <= IndustryIndexer.tokenRatio textTokens aliasTokens <= 1)%Q.
Proof.
  unfold IndustryIndexer.tokenRatio.
  destruct (List.length aliasTokens =? 0)%nat eqn:E; [lra|].
  apply Nat.eqb_neq in E.
  pose proof (hitCount_bounds textTokens aliasTokens) as [H0 H1].
  assert (P : (0 < ofNat (List.length aliasTokens))%Q) by (apply ofNat_pos; lia).
  split.
  - apply Qle_shift_div_l; [exact P | lra].
  - apply Qle_shift_div_r; [exact P | lra].
Qed.

Lemma fold_left_Qsum (A : Type) (f : A -> Q) (l : list A) (acc : Q) :
  (fold_left (fun h x => h + f x) l acc == acc + Qsum (List.map f l))%Q.
Proof.
  revert acc. induction l as [|x l IH]; intros acc.
  - cbn [fold_left List.map Qsum fold_right]. lra.
  - cbn [fold_left List.map]. rewrite IH.
    change (Qsum (f x :: List.map f l)) with (f x + Qsum (List.map f l))%Q. lra.
Qed.

Lemma hitCount_sum (textTokens aliasTokens : list jsstr) :
  (IndustryIndexer.hitCount textTokens aliasTokens
   == Qsum (List.map (IndustryIndexer.tokenHit textTokens) aliasTokens))%Q.
Proof.
  unfold IndustryIndexer.hitCount. rewrite fold_left_Qsum. lra.
Qed.

Lemma tokenRatio_sum (textTokens aliasTokens : list jsstr) :
  aliasTokens <> [] ->
  (IndustryIndexer.tokenRatio textTokens aliasTokens
   == Qsum (List.map (IndustryIndexer.tokenHit textTokens) aliasTokens)
      / ofNat (List.length aliasTokens))%Q.
Proof.
  intros H. unfold IndustryIndexer.tokenRatio.
  destruct aliasTokens as [|a l]; [congruence|].
  cbn [List.length Nat.eqb]. rewrite hitCount_sum. reflexivity.
Qed.

Section TokenOverlap.
Context {U : Unicode}.

(** What a keyword adds to the score of [scoreForTextAgainstList]. *)
Lemma keywordScore_cases (textTokens : list jsstr) (k : value) :
  let nk := IntentMatcher.normalizeFa k in
  IntentMatcher.keywordScore textTokens k = 1%Q \/
  (arrIncludes textTokens nk = false /\ (3 <= List.length nk)%nat /\
   (exists tk, In tk textTokens /\ includes tk nk = true) /\
   IntentMatcher.keywordScore textTokens k = (6 # 10)%Q) \/
  IntentMatcher.keywordScore textTokens k = 0%Q.
Proof.
  cbv zeta. unfold IntentMatcher.keywordScore.
  destruct (isEmpty _); auto.
  destruct (1 <? _)%nat.
  - destruct (includes _ _); auto.
  - destruct (arrIncludes _ _) eqn:A; auto.
    destruct (existsb _ _) eqn:E; auto.
    right; left. apply existsb_includes in E. destruct E as [L X].
    apply Nat.leb_le in L. auto.
Qed.

Lemma keywordScore_bounds (textTokens : list jsstr) (k : value) :
  (0 <= IntentMatcher.keywordScore textTokens k <= 1)%Q.
Proof.
  destruct (keywordScore_cases textTokens k) as [->|[(_ & _ & _ & ->)| ->]];
    lra.
Qed.

(** When a keyword adds 1, 0.6 or nothing. *)
Lemma keywordScore_when (textTokens : list jsstr) (k : value) :
  let nk := IntentMatcher.normalizeFa k in
  let words := filter nonEmpty (split SP nk) in
  let sc := IntentMatcher.keywordScore textTokens k in
  (nk = [] -> sc = 0%Q) /\
  (nk <> [] -> (1 < List.length words)%nat ->
   (includes (join [SP] textTokens) nk = true -> sc = 1%Q) /\
   (includes (join [SP] textTokens) nk = false -> sc = 0%Q)) /\
  (nk <> [] -> (List.length words <= 1)%nat ->
   (In nk textTokens -> sc = 1%Q) /\
   (~ In nk textTokens -> (3 <= List.length nk)%nat ->
    (exists tk, In tk textTokens /\ includes tk nk = true) ->
    sc = (6 # 10)%Q) /\
   (~ In nk textTokens ->
    (List.length nk < 3)%nat \/
    (forall tk, In tk textTokens -> includes tk nk = false) ->
    sc = 0%Q)).
Proof.
  cbv zeta. unfold IntentMatcher.keywordScore.
  set (nk := IntentMatcher.normalizeFa k).
  set (words := filter nonEmpty (split SP nk)).
  split; [intros ->; reflexivity|].
  split.
  - intros N L. destruct nk as [|c r] eqn:E; [congruence|]. cbn [isEmpty].
    apply Nat.ltb_lt in L. rewrite L.
    split; intros ->; reflexivity.
  - intros N L. destruct nk as [|c r] eqn:E; [congruence|]. cbn [isEmpty].
    assert (L' : (1 <? List.length words)%nat = false) by (apply Nat.ltb_ge, L).
    rewrite L'. rewrite <- E. split; [|split].
    + intros I. apply arrIncludes_In in I. rewrite I. reflexivity.
    + intros I L3 (tk & Htk & Inc).
      destruct (arrIncludes textTokens nk) eqn:A;
        [apply arrIncludes_In in A; tauto|].
      assert (X : existsb (fun tk => includes tk nk && (3 <=? List.length nk)%nat)
                          textTokens = true).
      { apply existsb_includes. split; [apply Nat.leb_le, L3 | eauto]. }
      rewrite X. reflexivity.
    + intros I D.
      destruct (arrIncludes textTokens nk) eqn:A;
        [apply arrIncludes_In in A; tauto|].
      destruct (existsb (fun tk => includes tk nk && (3 <=? List.length nk)%nat)
                        textTokens) eqn:X; [|reflexivity].
      apply existsb_includes in X. destruct X as (L3 & tk & Htk & Inc).
      apply Nat.leb_le in L3. destruct D as [D|D]; [lia|].
      rewrite (D tk Htk) in Inc. discriminate.
Qed.

(** C5, amended. In [scoreAgainstAlias] a token of the alias adds 1.0
    when it is one of the tokens of the query; otherwise 0.9 when it
    has three characters or more and is a substring of a token of the
    query; otherwise nothing, also when a token of the query is a
    substring of it. The sum is divided by the number of tokens of the
    alias, so that the signal lies in [0,1]. In
    [scoreForTextAgainstList] of IntentMatcher a keyword of a single
    word adds 1.0 when it is one of the tokens of the query, otherwise
    0.6 when it has three characters or more and is a substring of a
    token of the query, otherwise nothing; a phrase of several words
    adds 1.0 when the tokens of the query, joined, contain it, and
    nothing otherwise. The score is the sum of what the keywords add,
    not divided: it lies between 0 and the number of keywords. *)
Theorem C5_token_overlap (textTokens aliasTokens : list jsstr)
        (keywords : list value) :
  (forall at_,
      (arrIncludes textTokens at_ = true /\
       IndustryIndexer.tokenHit textTokens at_ = 1%Q) \/
      (arrIncludes textTokens at_ = false /\ (3 <= List.length at_)%nat /\
       (exists tt, In tt textTokens /\ includes tt at_ = true) /\
       IndustryIndexer.tokenHit textTokens at_ = (9 # 10)%Q) \/
      (arrIncludes textTokens at_ = false /\
       ((List.length at_ < 3)%nat \/
        forall tt, In tt textTokens -> includes tt at_ = false) /\
       IndustryIndexer.tokenHit textTokens at_ = 0%Q)) /\
  (aliasTokens <> [] ->
   (IndustryIndexer.tokenRatio textTokens aliasTokens
    == Qsum (List.map (IndustryIndexer.tokenHit textTokens) aliasTokens)
       / ofNat (List.length aliasTokens))%Q) /\
  (0 <= IndustryIndexer.tokenRatio textTokens aliasTokens <= 1)%Q /\
  (forall k,
      let nk := IntentMatcher.normalizeFa k in
      let words := filter nonEmpty (split SP nk) in
      let sc := IntentMatcher.keywordScore textTokens k in
      (nk = [] -> sc = 0%Q) /\
      (nk <> [] -> (1 < List.length words)%nat ->
       (includes (join [SP] textTokens) nk = true -> sc = 1%Q) /\
       (includes (join [SP] textTokens) nk = false -> sc = 0%Q)) /\
      (nk <> [] -> (List.length words <= 1)%nat ->
       (In nk textTokens -> sc = 1%Q) /\
       (~ In nk textTokens -> (3 <= List.length nk)%nat ->
        (exists tk, In tk textTokens /\ includes tk nk = true) ->
        sc = (6 # 10)%Q) /\
       (~ In nk textTokens ->
        (List.length nk < 3)%nat \/
        (forall tk, In tk textTokens -> includes tk nk = false) ->
        sc = 0%Q))) /\
  (IntentMatcher.scoreForTextAgainstList textTokens keywords
   == Qsum (List.map (IntentMatcher.keywordScore textTokens) keywords))%Q /\
  (0 <= IntentMatcher.scoreForTextAgainstList textTokens keywords
   <= ofNat (List.length keywords))%Q.
Proof.
  split; [|split; [|split; [|split; [|split]]]].
  - apply tokenHit_cases.
  - apply tokenRatio_sum.
  - apply tokenRatio_bounds.
  - intros k. apply (keywordScore_when textTokens k).
  - unfold IntentMatcher.scoreForTextAgainstList.
    rewrite fold_left_Qsum. lra.
  - unfold IntentMatcher.scoreForTextAgainstList.
    pose proof (sum_bounds (IntentMatcher.keywordScore textTokens) keywords 0
                           (keywordScore_bounds textTokens)) as H.
    lra.
Qed.

End TokenOverlap.

Lemma C5_token_overlap_witness :
  (IndustryIndexer.tokenRatio [str "weld"; str "pipes"] [str "weld"; str "pipe"]
   == (1 + (9 # 10)) / 2)%Q /\
  IntentMatcher.keywordScore [str "weld"] (Examples.s "weld") = 1%Q /\
  IntentMatcher.keywordScore [str "welding"] (Examples.s "weld") = (6 # 10)%Q.
Proof.
  destruct (@C5_token_overlap Latin_Arabic [str "weld"; str "pipes"]
                              [str "weld"; str "pipe"] [])
    as (_ & A & _ & _ & _ & _).
  destruct (@C5_token_overlap Latin_Arabic [str "weld"]
                              [] [])
    as (_ & _ & _ & B & _ & _).
  destruct (@C5_token_overlap Latin_Arabic [str "welding"]
                              [] [])
    as (_ & _ & _ & C & _ & _).
  split; [|split].
  - rewrite A; [reflexivity | discriminate].
  - destruct (B (Examples.s "weld")) as (_ & _ & B1).
    destruct B1 as (B1 & _); [vm_compute; discriminate | vm_compute; lia |].
    apply B1. vm_compute. auto.
  - destruct (C (Examples.s "weld")) as (_ & _ & C1).
    destruct C1 as (_ & C1 & _); [vm_compute; discriminate | vm_compute; lia |].
    apply C1.
    + vm_compute. intros [H|[]]. discriminate.
    + vm_compute. lia.
    + exists (str "welding"). split; [left; reflexivity | reflexivity].
Defined.

(** C5, as stated, fails. In [scoreAgainstAlias] the token [weld] of the
    query is a substring of the token [welding] of the alias, and the
    pair adds nothing. In IntentMatcher the keyword [weld] inside the
    token [welding] adds 0.6, and the score of two keywords found is 2. *)
Lemma C5_counterexample :
  (includes (str "welding") (str "weld") = true /\
   IndustryIndexer.tokenHit [str "weld"] (str "welding") = 0%Q) /\
  IntentMatcher.keywordScore [str "welding"] (Examples.s "weld") = (6 # 10)%Q /\
  (IntentMatcher.scoreForTextAgainstList
     [str "weld"; str "cut"] [Examples.s "weld"; Examples.s "cut"] == 2)%Q.
Proof. repeat split; reflexivity. Qed.

(* ================================================================== *)
(** * Sorting and slicing *)
(* ================================================================== *)

Lemma insertSorted_perm (A : Type) (before : A -> A -> bool) (x : A) (l : list A) :
  Permutation (insertSorted before x l) (x :: l).
Proof.
  induction l as [|y l IH]; simpl; auto.
  destruct (before x y); auto.
  rewrite IH. apply perm_swap.
Qed.

Lemma sortBy_perm (A : Type) (before : A -> A -> bool) (l : list A) :
  Permutation (sortBy before l) l.
Proof.
  induction l as [|x l IH]; simpl; auto.
  rewrite insertSorted_perm. auto.
Qed.

Lemma Forall_firstn_of (A : Type) (P : A -> Prop) (n : nat) (l : list A) :
  Forall P l -> Forall P (firstn n l).
Proof.
  intros H. revert n. induction H; intros [|n]; simpl; auto.
Qed.

Lemma filter_all (A : Type) (p : A -> bool) (l : list A) :
  Forall (fun x => p x = true) l -> filter p l = l.
Proof.
  intros H. induction H as [|x l Hx _ IH]; simpl; auto.
  rewrite Hx, IH. reflexivity.
Qed.

(* ================================================================== *)
(** * The recommender never returns the empty list (C10) *)
(* ================================================================== *)

Lemma toFixed3_ge (x : Q) : (5 # 100 <= x)%Q -> (5 # 100 <= toFixed3 x)%Q.
Proof.
  intros H. unfold toFixed3.
  assert (F : (50 <= Qfloor (x * 1000 + (1 # 2)))%Z).
  { change 50%Z with (Qfloor ((5 # 100) * 1000 + (1 # 2))).
    apply Qfloor_resp_le. lra. }
  unfold Qle. cbn [Qnum Qden]. lia.
Qed.

Section Recommender.
Context {U : Unicode}.

Import ProductMatcher.

Lemma add_nonneg (w : Q) (r : Reason) (acc : Acc) :
  (0 <= w)%Q -> nonneg acc -> nonneg (add w r acc).
Proof. unfold nonneg, add. simpl. intros. lra. Qed.

Lemma when_nonneg (b : bool) (f : Acc -> Acc) (acc : Acc) :
  (nonneg acc -> nonneg (f acc)) -> nonneg acc -> nonneg (when b f acc).
Proof. unfold when. destruct b; auto. Qed.

Ltac steps :=
  repeat first
    [ assumption
    | apply when_nonneg; [intros ?|]
    | apply add_nonneg; [lra|] ].

Lemma hazardStep_nonneg prod q acc : nonneg acc -> nonneg (hazardStep prod q acc).
Proof.
  intros H. unfold hazardStep.
  destruct (isEmpty q); auto.
  destruct (arrIncludes _ _); [steps|].
  destruct (find _ _); [steps | auto].
Qed.

Lemma envStep_nonneg prod q acc : nonneg acc -> nonneg (envStep prod q acc).
Proof.
  intros H. unfold envStep.
  destruct (isEmpty q); auto.
  repeat match goal with
         | |- nonneg (if ?b then _ else _) => destruct b
         end; steps.
Qed.

Lemma prefStep_nonneg prod q acc : nonneg acc -> nonneg (prefStep prod q acc).
Proof.
  intros H. unfold prefStep.
  destruct (isEmpty q); auto. cbv zeta. steps.
Qed.

Lemma industryStep_nonneg prod q acc :
  nonneg acc -> nonneg (industryStep prod q acc).
Proof.
  intros H. unfold industryStep.
  destruct (isEmpty q); auto. cbv zeta. steps.
Qed.

Lemma cutLevelStep_nonneg prod qh qp acc :
  nonneg acc -> nonneg (cutLevelStep prod qh qp acc).
Proof.
  intros H. unfold cutLevelStep.
  destruct (_ || _); auto.
  destruct (_cutLevel prod) as [v|]; auto.
  destruct (v =? 0); auto.
  apply add_nonneg; auto.
  destruct (Qminb_cases 1 (inject_Z (Z.of_N v) * (12 # 100))) as [-> | ->];
    [lra|].
  apply Qmult_le_0_compat; [|lra].
  unfold Qle; simpl. lia.
Qed.

Lemma scoreProduct_ge (prod : Loaded) (query : Query) :
  (5 # 100 <= fst (scoreProduct prod query))%Q.
Proof.
  unfold scoreProduct. cbv zeta. cbn [fst].
  apply toFixed3_ge.
  match goal with
  | |- (_ <= Qminb 1 (fst ?acc + _))%Q =>
      assert (H : nonneg acc);
      [| destruct (Qminb_cases 1 (fst acc + (5 # 100))) as [-> | ->];
         unfold nonneg in H; lra ]
  end.
  apply cutLevelStep_nonneg, industryStep_nonneg, prefStep_nonneg,
    envStep_nonneg, hazardStep_nonneg.
  unfold nonneg. simpl. lra.
Qed.

(** C10, amended. Whatever the query, every product keeps a score of
    0.05 at least, so that the filter of [pickProducts] drops none. With
    [n] the option [topN], or 6 when the option is absent or 0,
    [pickProducts] returns [min(n, size of the catalogue)] products when
    [n] is positive; when [n] is negative, [slice(0, n)] drops the last
    [-n] products, and the result is empty exactly when [-n] is the
    size of the catalogue or more. *)
Theorem C10_pickProducts_never_empty
        (catalog : list Loaded) (query : Query) (topN : option Z) :
  let picks := pickProducts catalog query topN in
  let n := match topN with
           | Some n => if (n =? 0)%Z then 6%Z else n
           | None => 6%Z
           end in
  let size := Z.of_nat (List.length catalog) in
  n <> 0%Z /\
  Z.of_nat (List.length picks)
  = (if (0 <? n)%Z then Z.min n size else Z.max 0 (size + n)) /\
  Forall (fun p => (5 # 100 <= matchScore p)%Q) picks /\
  (catalog <> [] -> (picks = [] <-> (n <= - size)%Z)).
Proof.
  intros picks n size.
  set (scored := sortBy ahead (List.map (pick query) catalog)).
  assert (P : Permutation scored (List.map (pick query) catalog))
    by apply sortBy_perm.
  assert (S : Forall (fun p => (5 # 100 <= matchScore p)%Q) scored).
  { eapply Permutation_Forall; [symmetry; exact P|].
    apply Forall_forall. intros p Hp. apply in_map_iff in Hp.
    destruct Hp as (x & <- & _). apply scoreProduct_ge. }
  assert (F : filter (fun x => Qlt_bool 0 (matchScore x)) scored = scored).
  { apply filter_all. eapply Forall_impl; [|exact S].
    intros p Hp. apply Qlt_bool_iff. simpl in Hp. lra. }
  assert (T : n <> 0%Z).
  { unfold n. destruct topN as [k|]; [|lia].
    destruct (Z.eqb_spec k 0); lia. }
  assert (E : picks = slice0 n scored).
  { unfold picks, pickProducts. fold scored. rewrite F. reflexivity. }
  assert (L : Z.of_nat (List.length scored) = size).
  { unfold size. rewrite (Permutation_length P), length_map. reflexivity. }
  assert (Len : Z.of_nat (List.length picks)
                = (if (0 <? n)%Z then Z.min n size else Z.max 0 (size + n))).
  { rewrite E. unfold slice0.
    destruct (Z.leb_spec 0 n), (Z.ltb_spec 0 n); try lia;
      rewrite length_firstn; lia. }
  split; [exact T|]. split; [exact Len|]. split.
  - rewrite E. unfold slice0. destruct (0 <=? n)%Z; apply Forall_firstn_of, S.
  - intros NE.
    assert (Pos : (0 < size)%Z).
    { unfold size. destruct catalog; [congruence|]. simpl List.length. lia. }
    split.
    + intros Hnil. rewrite Hnil in Len. simpl in Len.
      destruct (Z.ltb_spec 0 n); lia.
    + intros Hn. apply length_zero_iff_nil.
      destruct (Z.ltb_spec 0 n); lia.
Qed.

End Recommender.

Lemma C10_pickProducts_never_empty_witness :
  let picks := ProductMatcher.pickProducts Examples.builtin Examples.noHints
                                           (Some 3%Z) in
  Z.of_nat (List.length picks) = 3%Z /\
  Forall (fun p => (5 # 100 <= ProductMatcher.matchScore p)%Q) picks /\
  picks <> [].
Proof.
  destruct (C10_pickProducts_never_empty
              (U := Latin_Arabic) Examples.builtin Examples.noHints (Some 3%Z))
    as (_ & A & B & C).
  split; [exact A|]. split; [exact B|].
  intros E. apply C in E; [|vm_compute; discriminate].
  vm_compute in E. apply E. reflexivity.
Defined.

(** C10, as stated, fails: with [topN = 0] the sixteen products of the
    built-in catalogue give six picks, not [min(0, 16)]; with
    [topN = -16] they give none, though each of them has the score
    0.05 at least. *)
Lemma C10_counterexample :
  List.length Examples.builtin = 16%nat /\
  List.length (ProductMatcher.pickProducts Examples.builtin Examples.noHints
                                           (Some 0%Z)) = 6%nat /\
  ProductMatcher.pickProducts Examples.builtin Examples.noHints (Some (-16)%Z)
  = [].
Proof. repeat split; reflexivity. Qed.

(* ================================================================== *)
(** * The table of [levenshtein] computes the edit distance (C7) *)
(* ================================================================== *)

Lemma editRev_cons_cons (x y : char) (a b : jsstr) :
  editRev (x :: a) (y :: b)
  = Nat.min (Nat.min (editRev a (y :: b) + 1) (editRev (x :: a) b + 1))
            (editRev a b + (if (x =? y)%N then 0 else 1)).
Proof. reflexivity. Qed.

Lemma editRev_nil_r (a : jsstr) : editRev a [] = List.length a.
Proof. destruct a; reflexivity. Qed.

Lemma editRev_refl (a : jsstr) : editRev a a = 0%nat.
Proof.
  induction a as [|x a IH]; [reflexivity|].
  rewrite editRev_cons_cons, IH, N.eqb_refl. lia.
Qed.

Lemma editRev_zero (a b : jsstr) : editRev a b = 0%nat -> a = b.
Proof.
  revert b. induction a as [|x a IH]; intros b H.
  - destruct b; [reflexivity | discriminate].
  - destruct b as [|y b]; [discriminate|].
    rewrite editRev_cons_cons in H.
    destruct (N.eqb_spec x y) as [->|N]; [|lia].
    f_equal. apply IH. lia.
Qed.

Lemma levRow_spec (x : char) (ra : jsstr) (b2 rb : jsstr) :
  IndustryIndexer.levRow x b2 (List.map (editRev ra) (rprefixes rb b2))
                         (editRev (x :: ra) rb)
  = List.map (editRev (x :: ra)) (tl (rprefixes rb b2)).
Proof.
  revert rb. induction b2 as [|y b2 IH]; intros rb; [reflexivity|].
  cbn [rprefixes List.map tl].
  destruct b2 as [|z b2'].
  - cbn [rprefixes List.map IndustryIndexer.levRow].
    rewrite editRev_cons_cons. reflexivity.
  - specialize (IH (y :: rb)).
    cbn [rprefixes List.map tl] in IH.
    cbn [rprefixes List.map IndustryIndexer.levRow].
    cbn [IndustryIndexer.levRow] in IH.
    rewrite <- editRev_cons_cons.
    f_equal. exact IH.
Qed.

Lemma levRows_spec (b : jsstr) (a2 ra : jsstr) :
  IndustryIndexer.levRows (S (List.length ra)) a2 b
                          (List.map (editRev ra) (rprefixes [] b))
  = List.map (editRev (rev a2 ++ ra)) (rprefixes [] b).
Proof.
  revert ra. induction a2 as [|x a2 IH]; intros ra; [reflexivity|].
  cbn [IndustryIndexer.levRows rev].
  rewrite <- app_assoc. cbn [app].
  rewrite <- (IH (x :: ra)). f_equal.
  pose proof (levRow_spec x ra b []) as R.
  destruct b as [|y b]; [reflexivity|].
  cbn [rprefixes List.map tl] in *.
  rewrite <- R. reflexivity.
Qed.

Lemma rprefixes_lengths (b2 rb : jsstr) :
  List.map (editRev []) (rprefixes rb b2)
  = seq (List.length rb) (S (List.length b2)).
Proof.
  revert rb. induction b2 as [|y b2 IH]; intros rb; [reflexivity|].
  cbn [rprefixes List.map List.length seq]. f_equal.
  rewrite IH. reflexivity.
Qed.

Lemma rprefixes_last (A : Type) (f : jsstr -> A) (d : A) (b2 rb : jsstr) :
  nth (List.length b2) (List.map f (rprefixes rb b2)) d = f (rev b2 ++ rb).
Proof.
  revert rb. induction b2 as [|y b2 IH]; intros rb; [reflexivity|].
  cbn [rprefixes List.map List.length nth rev].
  rewrite IH, <- app_assoc. reflexivity.
Qed.

(** [levenshtein] returns the edit distance of its arguments. *)
Lemma levenshtein_correct (a b : jsstr) :
  IndustryIndexer.levenshtein a b = edit_distance a b.
Proof.
  unfold IndustryIndexer.levenshtein, edit_distance.
  destruct (eqb_str a b) eqn:E.
  - apply eqb_str_eq in E. subst. symmetry. apply editRev_refl.
  - destruct a as [|x a]; [simpl; rewrite length_rev; reflexivity|].
    destruct b as [|y b]; [simpl; rewrite editRev_nil_r, length_app, length_rev;
                           simpl; lia|].
    set (a0 := x :: a). set (b0 := y :: b). cbv zeta.
    destruct (Nat.eqb_spec (List.length a0) 0); [discriminate|].
    destruct (Nat.eqb_spec (List.length b0) 0); [discriminate|].
    change (seq 0 (S (List.length b0)))
      with (seq (List.length (@nil char)) (S (List.length b0))).
    rewrite <- (rprefixes_lengths b0 []).
    change 1%nat with (S (List.length (@nil char))).
    rewrite levRows_spec, app_nil_r.
    rewrite rprefixes_last, app_nil_r. reflexivity.
Qed.

Lemma levSim_formula (a b : jsstr) :
  (0 < Nat.max (List.length a) (List.length b))%nat ->
  IndustryIndexer.levSim a b
  = Qmaxb 0 (1 - ofNat (edit_distance a b)
                 / ofNat (Nat.max (List.length a) (List.length b)))%Q.
Proof.
  intros H. unfold IndustryIndexer.levSim.
  destruct (Nat.eqb_spec (Nat.max (List.length a) (List.length b)) 0); [lia|].
  rewrite levenshtein_correct. reflexivity.
Qed.

Lemma ofNat_inv_le (n m : nat) :
  (0 < n <= m)%nat -> (1 / ofNat m <= 1 / ofNat n)%Q.
Proof.
  intros H.
  apply Qle_shift_div_l; [apply ofNat_pos; lia|].
  unfold Qdiv. rewrite <- Qmult_assoc, (Qmult_comm (/ _)), Qmult_assoc.
  apply Qle_shift_div_r; [apply ofNat_pos; lia|].
  rewrite !Qmult_1_l. apply ofNat_le. lia.
Qed.

Lemma levSim_distance_one (a b : jsstr) :
  edit_distance a b = 1%nat -> (5 <= List.length a)%nat ->
  (4 # 5 <= IndustryIndexer.levSim a b)%Q.
Proof.
  intros D L. rewrite levSim_formula by lia. rewrite D.
  pose proof (ofNat_inv_le (n := 5) (m := Nat.max (List.length a) (List.length b)))
    as I.
  pose proof (Qmaxb_ub 0 (1 - ofNat 1 / ofNat (Nat.max (List.length a)
                                                       (List.length b)))) as [_ M].
  change (ofNat 1) with 1%Q in *.
  assert (X : (1 / ofNat 5 == 1 # 5)%Q) by reflexivity.
  specialize (I ltac:(lia)). lra.
Qed.

Lemma closer_cases (a t : jsstr) (acc : Q) :
  ((acc < IndustryIndexer.levSim a t)%Q /\
   IndustryIndexer.closer a acc t = IndustryIndexer.levSim a t) \/
  ((IndustryIndexer.levSim a t <= acc)%Q /\
   IndustryIndexer.closer a acc t = acc).
Proof.
  unfold IndustryIndexer.closer. cbv zeta.
  destruct (Qlt_bool acc (IndustryIndexer.levSim a t)) eqn:E.
  - left. apply Qlt_bool_iff in E. auto.
  - right. split; [|reflexivity].
    apply Qnot_lt_le. intros X. apply Qlt_bool_iff in X. congruence.
Qed.

Lemma bestSim_from (a : jsstr) (textTokens : list jsstr) (acc : Q) :
  (acc <= fold_left (IndustryIndexer.closer a) textTokens acc)%Q /\
  (forall tt, In tt textTokens ->
              (IndustryIndexer.levSim a tt
               <= fold_left (IndustryIndexer.closer a) textTokens acc)%Q) /\
  (fold_left (IndustryIndexer.closer a) textTokens acc = acc \/
   exists tt, In tt textTokens /\
              fold_left (IndustryIndexer.closer a) textTokens acc
              = IndustryIndexer.levSim a tt).
Proof.
  revert acc. induction textTokens as [|t l IH]; intros acc.
  - simpl. split; [lra|]. split; [tauto | auto].
  - cbn [fold_left].
    destruct (IH (IndustryIndexer.closer a acc t)) as (A & B & C).
    destruct (closer_cases a t acc) as [[E R]|[E R]]; rewrite R in *.
    + split; [lra|]. split.
      * intros tt [<-|H]; auto.
      * right. destruct C as [C|(tt & H & C)]; [exists t | exists tt];
          simpl; auto.
    + split; [exact A|]. split.
      * intros tt [<-|H]; [lra | auto].
      * destruct C as [C|(tt & H & C)]; [left; auto|].
        right. exists tt. simpl. auto.
Qed.

Lemma bestSim_ge (a tt : jsstr) (textTokens : list jsstr) :
  In tt textTokens ->
  (IndustryIndexer.levSim a tt <= IndustryIndexer.bestSim a textTokens)%Q.
Proof.
  intros H.
  destruct (bestSim_from a textTokens 0) as (_ & B & _).
  apply B, H.
Qed.

(* ================================================================== *)
(** * The keyword index of IndustryIndexer v3.0 (C3, C4) *)
(* ================================================================== *)

Lemma setAdd_here (i : nat) (s : list nat) : In i (IndustryIndexerV3.setAdd i s).
Proof.
  unfold IndustryIndexerV3.setAdd.
  destruct (existsb (Nat.eqb i) s) eqn:E.
  - apply existsb_exists in E. destruct E as (j & Hj & E).
    apply Nat.eqb_eq in E. subst. exact Hj.
  - apply in_or_app. right. left. reflexivity.
Qed.

Lemma setAdd_keeps (i j : nat) (s : list nat) :
  In j s -> In j (IndustryIndexerV3.setAdd i s).
Proof.
  unfold IndustryIndexerV3.setAdd. intros H.
  destruct (existsb (Nat.eqb i) s); auto. apply in_or_app. auto.
Qed.

Lemma indexAdd_here (key : jsstr) (i : nat) (m : IndustryIndexerV3.Index) :
  Has (IndustryIndexerV3.indexAdd key i m) key i.
Proof.
  induction m as [|[k s] m IH]; simpl.
  - exists [i]. simpl. auto.
  - destruct (eqb_str key k) eqn:E.
    + apply eqb_str_eq in E. subst. exists (IndustryIndexerV3.setAdd i s).
      split; [left; reflexivity | apply setAdd_here].
    + destruct IH as (s' & A & B). exists s'. split; [right; exact A | exact B].
Qed.

Lemma indexAdd_keeps (key k : jsstr) (i j : nat) (m : IndustryIndexerV3.Index) :
  Has m k j -> Has (IndustryIndexerV3.indexAdd key i m) k j.
Proof.
  intros (s & A & B). induction m as [|[k' s'] m IH]; [destruct A|].
  simpl. destruct (eqb_str key k') eqn:E.
  - destruct A as [A|A].
    + inversion A; subst. exists (IndustryIndexerV3.setAdd i s).
      split; [left; reflexivity | apply setAdd_keeps, B].
    + exists s. split; [right; exact A | exact B].
  - destruct A as [A|A].
    + exists s. split; [left; exact A | exact B].
    + destruct (IH A) as (s0 & A0 & B0). exists s0. split; [right|]; auto.
Qed.

Section Index.
Context {U : Unicode}.

Import IndustryIndexerV3.

Lemma parts_keep (i j : nat) (k : jsstr) (parts : list jsstr) (m : Index) :
  Has m k j ->
  Has (fold_left (fun m p => if (2 <=? List.length p)%nat
                             then indexAdd p i m else m) parts m) k j.
Proof.
  revert m. induction parts as [|p parts IH]; intros m H; cbn [fold_left]; auto.
  apply IH. destruct (2 <=? List.length p)%nat; auto.
  apply indexAdd_keeps, H.
Qed.

Lemma indexKeyword_keeps (i j : nat) (k' : jsstr) (k : value) (m : Index) :
  Has m k' j -> Has (indexKeyword i m k) k' j.
Proof.
  intros H. unfold indexKeyword.
  destruct (isEmpty (normalizeText k)); auto.
  apply parts_keep, indexAdd_keeps, H.
Qed.

Lemma indexKeyword_here (i : nat) (k : value) (m : Index) :
  normalizeText k <> [] -> Has (indexKeyword i m k) (normalizeText k) i.
Proof.
  intros H. unfold indexKeyword.
  destruct (isEmpty (normalizeText k)) eqn:E.
  - apply isEmpty_nil in E. contradiction.
  - apply parts_keep, indexAdd_here.
Qed.

Lemma keywords_keep (i j : nat) (k' : jsstr) (kws : list value) (m : Index) :
  Has m k' j -> Has (fold_left (indexKeyword i) kws m) k' j.
Proof.
  revert m. induction kws as [|k kws IH]; intros m H; cbn [fold_left]; auto.
  apply IH, indexKeyword_keeps, H.
Qed.

Lemma keywords_here (i : nat) (k : value) (kws : list value) (m : Index) :
  In k kws -> normalizeText k <> [] ->
  Has (fold_left (indexKeyword i) kws m) (normalizeText k) i.
Proof.
  revert m. induction kws as [|k0 kws IH]; intros m H N; [destruct H|].
  simpl. destruct H as [->|H].
  - apply keywords_keep, indexKeyword_here, N.
  - apply IH; auto.
Qed.

Lemma entries_keep (j : nat) (k' : jsstr) (es : list (nat * Industry)) (m : Index) :
  Has m k' j ->
  Has (fold_left (fun m e => fold_left (indexKeyword (fst e)) (keywords (snd e)) m)
                 es m) k' j.
Proof.
  revert m. induction es as [|e es IH]; intros m H; cbn [fold_left]; auto.
  apply IH, keywords_keep, H.
Qed.

Lemma entries_here (i : nat) (ind : Industry) (k : value)
      (es : list (nat * Industry)) (m : Index) :
  In (i, ind) es -> In k (keywords ind) -> normalizeText k <> [] ->
  Has (fold_left (fun m e => fold_left (indexKeyword (fst e)) (keywords (snd e)) m)
                 es m) (normalizeText k) i.
Proof.
  revert m. induction es as [|e es IH]; intros m H K N; [destruct H|].
  simpl. destruct H as [->|H].
  - apply entries_keep. simpl. apply keywords_here; auto.
  - apply IH; auto.
Qed.

Lemma numbered (A : Type) (l : list A) (i : nat) (x : A) (s : nat) :
  nth_error l i = Some x -> In ((s + i)%nat, x) (combine (seq s (List.length l)) l).
Proof.
  revert i s. induction l as [|y l IH]; intros [|i] s H; try discriminate.
  - inversion H; subst. simpl. left. f_equal. lia.
  - simpl. right. replace (s + S i)%nat with (S s + i)%nat by lia.
    apply IH. exact H.
Qed.

(** Every keyword of every industry is a key of the index that
    [buildIndex] returns, once normalized and unless it is empty. *)
Lemma buildIndex_has (inds : list Industry) (i : nat) (ind : Industry) (k : value) :
  nth_error inds i = Some ind -> In k (keywords ind) -> normalizeText k <> [] ->
  Has (buildIndex inds) (normalizeText k) i.
Proof.
  intros H K N. unfold buildIndex.
  apply entries_here with (ind := ind); auto.
  apply (numbered inds i 0 H).
Qed.

(** ** The scores of step 1 *)

Lemma bump_nonneg (w : Q) (idx : nat) (m : list (nat * Q)) :
  (0 <= w)%Q -> Nonneg m -> Nonneg (bump w idx m).
Proof.
  intros W. induction m as [|[i v] m IH]; intros H e He; simpl in He.
  - destruct He as [<-|[]]. simpl. lra.
  - destruct (idx =? i)%nat.
    + destruct He as [<-|He]; [|apply H; right; exact He].
      simpl. specialize (H (i, v) (or_introl eq_refl)). simpl in H. lra.
    + destruct He as [<-|He]; [apply H; left; reflexivity|].
      apply IH; auto. intros e' He'. apply H. right. exact He'.
Qed.

Lemma bump_here (w : Q) (idx : nat) (m : list (nat * Q)) :
  Nonneg m -> AtLeast (bump w idx m) idx w.
Proof.
  induction m as [|[i v] m IH]; intros H; simpl.
  - exists (0 + w)%Q. split; [left; reflexivity | lra].
  - destruct (Nat.eqb_spec idx i) as [->|N].
    + exists (v + w)%Q. split; [left; reflexivity|].
      specialize (H (i, v) (or_introl eq_refl)). simpl in H. lra.
    + destruct IH as (v' & A & B).
      * intros e He. apply H. right. exact He.
      * exists v'. split; [right; exact A | exact B].
Qed.

Lemma bump_keeps (w q : Q) (idx j : nat) (m : list (nat * Q)) :
  (0 <= w)%Q -> AtLeast m j q -> AtLeast (bump w idx m) j q.
Proof.
  intros W (v & A & B). induction m as [|[i v'] m IH]; [destruct A|].
  simpl. destruct (Nat.eqb_spec idx i) as [->|N].
  - destruct A as [A|A].
    + inversion A; subst. exists (v + w)%Q. split; [left; reflexivity | lra].
    + exists v. split; [right; exact A | exact B].
  - destruct A as [A|A].
    + exists v. split; [left; exact A | exact B].
    + destruct (IH A) as (v0 & A0 & B0). exists v0. split; [right|]; auto.
Qed.

Lemma bump_only (w : Q) (n : nat) (m : list (nat * Q)) :
  OnlyKey n m -> OnlyKey n (bump w n m).
Proof.
  induction m as [|[i v] m IH]; intros H e He; simpl in He.
  - destruct He as [<-|[]]. reflexivity.
  - destruct (n =? i)%nat.
    + destruct He as [<-|He]; [|apply H; right; exact He].
      apply (H (i, v)). left. reflexivity.
    + destruct He as [<-|He]; [apply H; left; reflexivity|].
      apply IH; auto. intros e' He'. apply H. right. exact He'.
Qed.

Lemma bumps_nonneg (w : Q) (s : list nat) (m : list (nat * Q)) :
  (0 <= w)%Q -> Nonneg m -> Nonneg (fold_left (fun f idx => bump w idx f) s m).
Proof.
  intros W. revert m. induction s as [|i s IH]; intros m H; cbn [fold_left]; auto.
  apply IH, bump_nonneg; auto.
Qed.

Lemma bumps_keep (w q : Q) (j : nat) (s : list nat) (m : list (nat * Q)) :
  (0 <= w)%Q -> AtLeast m j q ->
  AtLeast (fold_left (fun f idx => bump w idx f) s m) j q.
Proof.
  intros W. revert m. induction s as [|i s IH]; intros m H; cbn [fold_left]; auto.
  apply IH, bump_keeps; auto.
Qed.

Lemma bumps_here (w : Q) (i : nat) (s : list nat) (m : list (nat * Q)) :
  (0 <= w)%Q -> Nonneg m -> In i s ->
  AtLeast (fold_left (fun f idx => bump w idx f) s m) i w.
Proof.
  intros W. revert m. induction s as [|j s IH]; intros m H I; [destruct I|].
  simpl. destruct I as [->|I].
  - apply bumps_keep; auto. apply bump_here, H.
  - apply IH; auto. apply bump_nonneg; auto.
Qed.

Lemma found_from (txt : jsstr) (index : Index) (found : list (nat * Q)) :
  let step := fun found (e : jsstr * list nat) =>
                if includes txt (fst e)
                then fold_left (fun f idx => bump (15 # 10) idx f) (snd e) found
                else found in
  Nonneg found ->
  Nonneg (fold_left step index found) /\
  (forall j q, AtLeast found j q -> AtLeast (fold_left step index found) j q) /\
  (forall key i, Has index key i -> includes txt key = true ->
                 AtLeast (fold_left step index found) i (15 # 10)).
Proof.
  intros step. revert found.
  induction index as [|[k s] index IH]; intros found H.
  - simpl. split; [exact H|]. split; [auto|].
    intros key i (s & [] & _).
  - cbn [fold_left].
    assert (N : Nonneg (step found (k, s))).
    { unfold step. simpl. destruct (includes txt k); auto.
      apply bumps_nonneg; auto. lra. }
    destruct (IH _ N) as (A & B & C).
    split; [exact A|]. split.
    + intros j q X. apply B. unfold step. simpl.
      destruct (includes txt k); auto. apply bumps_keep; auto. lra.
    + intros key i (s' & [E|E] & I) T.
      * inversion E; subst. apply B. unfold step. simpl. rewrite T.
        apply bumps_here; auto. lra.
      * apply (C key i); auto. exists s'. auto.
Qed.

Lemma found_has (st : State) (txt key : jsstr) (i : nat) :
  Has (keywordIndex st) key i -> includes txt key = true ->
  AtLeast (foundIndustries st txt) i (15 # 10).
Proof.
  intros H T. unfold foundIndustries.
  destruct (found_from txt (keywordIndex st) (found := [])) as (_ & _ & C).
  - intros e [].
  - apply (C key i H T).
Qed.

Lemma found_only (st : State) (txt : jsstr) (n : nat) :
  (forall key inds, In (key, inds) (keywordIndex st) ->
                    includes txt key = true -> inds = [n]) ->
  OnlyKey n (foundIndustries st txt).
Proof.
  intros H. unfold foundIndustries.
  assert (G : forall index found,
             (forall key inds, In (key, inds) index ->
                               includes txt key = true -> inds = [n]) ->
             OnlyKey n found ->
             OnlyKey n (fold_left
                          (fun found (e : jsstr * list nat) =>
                             if includes txt (fst e)
                             then fold_left (fun f idx => bump (15 # 10) idx f)
                                            (snd e) found
                             else found) index found)).
  { induction index as [|[k s] index IH]; intros found Hi Hf; simpl; auto.
    apply IH.
    - intros key inds I. apply Hi. right. exact I.
    - destruct (includes txt k) eqn:T; auto.
      rewrite (Hi k s (or_introl eq_refl) T). simpl. apply bump_only, Hf. }
  apply G; auto. intros e [].
Qed.

(** ** The best score *)

Lemma pickBest_from (l : list (nat * Q)) (acc : option (nat * Q)) :
  let choose := fun (best : option (nat * Q)) e =>
                  match best with
                  | None => Some e
                  | Some b => if Qlt_bool (snd b) (snd e) then Some e else best
                  end in
  (acc <> None \/ l <> []) ->
  exists b, fold_left choose l acc = Some b /\
            (acc = Some b \/ In b l) /\
            (forall a, acc = Some a -> (snd a <= snd b)%Q) /\
            (forall e, In e l -> (snd e <= snd b)%Q).
Proof.
  intros choose. revert acc.
  induction l as [|e l IH]; intros acc H.
  - destruct acc as [a|]; [|destruct H; congruence].
    exists a. simpl. split; [reflexivity|]. split; [auto|]. split.
    + intros a' E. inversion E. lra.
    + intros e [].
  - cbn [fold_left].
    destruct (IH (choose acc e)) as (b & A & B & C & D).
    { left. unfold choose. destruct acc as [a|]; [|discriminate].
      destruct (Qlt_bool (snd a) (snd e)); discriminate. }
    exists b. split; [exact A|].
    assert (X : choose acc e = Some e /\
                (forall a, acc = Some a -> (snd a <= snd e)%Q) \/
                choose acc e = acc /\ exists a, acc = Some a /\ (snd e <= snd a)%Q).
    { unfold choose. destruct acc as [a|].
      - destruct (Qlt_bool (snd a) (snd e)) eqn:E.
        + left. split; [reflexivity|]. intros a' Ea. inversion Ea; subst.
          apply Qlt_bool_iff in E. lra.
        + right. split; [reflexivity|]. exists a. split; [reflexivity|].
          apply Qnot_lt_le. intros L. apply Qlt_bool_iff in L. congruence.
      - left. split; [reflexivity|]. intros a'. discriminate. }
    destruct X as [[X1 X2]|[X1 (a & X2 & X3)]].
    + split; [|split].
      * destruct B as [B|B]; [right; left; congruence | right; right; exact B].
      * intros a Ea. specialize (X2 a Ea). specialize (C e X1). lra.
      * intros e' [<-|I]; [apply C, X1 | apply D, I].
    + rewrite X1 in *. split; [|split].
      * destruct B as [B|B]; [left; exact B | right; right; exact B].
      * exact C.
      * intros e' [<-|I]; [|apply D, I].
        specialize (C a X2). lra.
Qed.

Lemma pickBest_ge (l : list (nat * Q)) (j : nat) (q : Q) :
  AtLeast l j q ->
  exists b, pickBest l = Some b /\ In b l /\ (q <= snd b)%Q.
Proof.
  intros (v & A & B). unfold pickBest.
  destruct (@pickBest_from l None) as (b & E & I & _ & D).
  - right. intros ->. destruct A.
  - exists b. split; [exact E|]. split.
    + destruct I as [I|I]; [discriminate | exact I].
    + specialize (D (j, v) A). simpl in D. lra.
Qed.

Lemma keywordCount_small (st : State) (i : nat) (ind : Industry) :
  nth_error (INDUSTRIES st) i = Some ind ->
  (List.length (keywords ind) <= 3)%nat ->
  (0 < keywordCount st i <= 3)%Q.
Proof.
  intros H L. unfold keywordCount, industryAt.
  rewrite (nth_error_nth _ _ _ H).
  split.
  - apply ofNat_pos. lia.
  - change 3%Q with (ofNat 3). apply ofNat_le. lia.
Qed.

(** An industry of three keywords at most, one of which occurs in the
    text, makes step 1 answer with the score 1. *)
Lemma phraseStep_short (st : State) (threshold : Q) (txt : jsstr)
      (i : nat) (ind : Industry) (k : value) :
  indexed st ->
  nth_error (INDUSTRIES st) i = Some ind ->
  (List.length (keywords ind) <= 3)%nat ->
  In k (keywords ind) -> normalizeText k <> [] ->
  includes txt (normalizeText k) = true ->
  exists best, In best (normalized st (foundIndustries st txt)) /\
               phraseStep st threshold txt
               = Some (result st (fst best) 1 phrase_index).
Proof.
  intros X H L K N T.
  pose proof (buildIndex_has (INDUSTRIES st) i k H K N) as B.
  rewrite <- X in B.
  pose proof (found_has st txt B T) as (v & F1 & F2).
  pose proof (keywordCount_small st i H L) as [C1 C2].
  assert (A : AtLeast (normalized st (foundIndustries st txt)) i (1 # 2)).
  { exists (v / keywordCount st i)%Q. split.
    - unfold normalized. apply in_map_iff. exists (i, v). auto.
    - apply Qle_shift_div_l; [exact C1 | lra]. }
  destruct (pickBest_ge A) as (b & E & I & G).
  exists b. split; [exact I|].
  unfold phraseStep. rewrite E.
  replace (Qle_bool (1 # 2) (snd b)) with true; [reflexivity|].
  symmetry. apply Qle_bool_iff. exact G.
Qed.

End Index.

(* ================================================================== *)
(** * Phrase containment (C3) and the round trip (C4) *)
(* ================================================================== *)

Lemma includes_nil_l (t : jsstr) : includes [] t = true -> t = [].
Proof. destruct t; simpl; [reflexivity | discriminate]. Qed.

Lemma edit_distance_pos (a b : jsstr) : a <> b -> (1 <= edit_distance a b)%nat.
Proof.
  intros N. destruct (edit_distance a b) eqn:E; [|lia].
  exfalso. apply N. apply editRev_zero in E.
  rewrite <- (rev_involutive a), <- (rev_involutive b), E. reflexivity.
Qed.

Lemma levSim_le_1 (a b : jsstr) : (IndustryIndexer.levSim a b <= 1)%Q.
Proof.
  unfold IndustryIndexer.levSim.
  destruct (Nat.max (List.length a) (List.length b) =? 0)%nat eqn:E; [lra|].
  apply Nat.eqb_neq in E.
  set (d := ofNat (IndustryIndexer.levenshtein a b)).
  set (m := ofNat (Nat.max (List.length a) (List.length b))).
  assert (P : (0 <= d / m)%Q).
  { apply Qle_shift_div_l; [apply ofNat_pos; lia|].
    pose proof (ofNat_nonneg (IndustryIndexer.levenshtein a b)). fold d in H. lra. }
  destruct (Qmaxb_cases 0 (1 - d / m)) as [-> | ->]; lra.
Qed.

Lemma levSim_lt_1 (a b : jsstr) : a <> b -> (IndustryIndexer.levSim a b < 1)%Q.
Proof.
  intros N.
  assert (M : (0 < Nat.max (List.length a) (List.length b))%nat).
  { destruct a, b; simpl; try lia. congruence. }
  rewrite (levSim_formula a b M).
  pose proof (edit_distance_pos N) as D.
  set (d := ofNat (edit_distance a b)).
  set (m := ofNat (Nat.max (List.length a) (List.length b))).
  assert (P : (0 < d / m)%Q).
  { apply Qlt_shift_div_l; [apply ofNat_pos; lia|].
    pose proof (ofNat_pos D). fold d in H. lra. }
  destruct (Qmaxb_cases 0 (1 - d / m)) as [-> | ->]; lra.
Qed.

Lemma bestSim_le_1 (a : jsstr) (textTokens : list jsstr) :
  (IndustryIndexer.bestSim a textTokens <= 1)%Q.
Proof.
  unfold IndustryIndexer.bestSim.
  destruct (bestSim_from a textTokens 0) as (_ & _ & [-> | (tt & _ & ->)]);
    [lra | apply levSim_le_1].
Qed.

Lemma bestSim_lt_1 (a : jsstr) (textTokens : list jsstr) :
  arrIncludes textTokens a = false ->
  (IndustryIndexer.bestSim a textTokens < 1)%Q.
Proof.
  intros H. unfold IndustryIndexer.bestSim.
  destruct (bestSim_from a textTokens 0) as (_ & _ & [-> | (tt & I & ->)]);
    [lra|].
  apply levSim_lt_1. intros ->.
  apply arrIncludes_In in I. congruence.
Qed.

Lemma tokenRatio_exact (a : jsstr) (textTokens : list jsstr) :
  arrIncludes textTokens a = true ->
  (IndustryIndexer.tokenRatio textTokens [a] == 1)%Q.
Proof.
  intros H. unfold IndustryIndexer.tokenRatio, IndustryIndexer.hitCount,
              IndustryIndexer.tokenHit.
  simpl. rewrite H. reflexivity.
Qed.

Lemma scoreAgainstAlias_le_1 (textTokens : list jsstr) (joinedText alias : jsstr) :
  (IndustryIndexer.score
     (IndustryIndexer.scoreAgainstAlias textTokens joinedText alias) <= 1)%Q.
Proof.
  unfold IndustryIndexer.scoreAgainstAlias.
  destruct (includes joinedText alias); [simpl; lra|]. cbv zeta.
  set (tokens := filter nonEmpty (split SP alias)).
  assert (C : (Qminb 1 (IndustryIndexer.tokenRatio textTokens tokens * (85 # 100))
               <= 1)%Q) by apply Qminb_lb.
  destruct tokens as [|a [|b rest]]; try exact C.
  destruct (Qle_bool _ _); [|exact C].
  cbn [IndustryIndexer.score].
  pose proof (tokenRatio_bounds textTokens [a]) as [_ R].
  pose proof (bestSim_le_1 a textTokens) as S.
  destruct (Qmaxb_cases (IndustryIndexer.tokenRatio textTokens [a])
                        (IndustryIndexer.bestSim a textTokens * (9 # 10)))
    as [-> | ->]; lra.
Qed.

Lemma fuzzy_only_below (textTokens : list jsstr) (joinedText alias a : jsstr) :
  IndustryIndexer.reason
    (IndustryIndexer.scoreAgainstAlias textTokens joinedText alias)
  = IndustryIndexer.Fuzzy a ->
  (IndustryIndexer.tokenRatio textTokens (filter nonEmpty (split SP alias)) == 0)%Q ->
  (IndustryIndexer.score
     (IndustryIndexer.scoreAgainstAlias textTokens joinedText alias) < 9 # 10)%Q.
Proof.
  unfold IndustryIndexer.scoreAgainstAlias.
  destruct (includes joinedText alias); [discriminate|]. cbv zeta.
  destruct (filter nonEmpty (split SP alias)) as [|a0 [|b rest]];
    try discriminate.
  destruct (Qle_bool _ _); [|discriminate].
  cbn [IndustryIndexer.reason IndustryIndexer.score].
  intros E Z. inversion E; subst a0.
  assert (N : arrIncludes textTokens a = false).
  { destruct (arrIncludes textTokens a) eqn:I; auto.
    pose proof (tokenRatio_exact a textTokens I) as X. rewrite X in Z.
    discriminate. }
  pose proof (bestSim_lt_1 a textTokens N) as S.
  destruct (Qmaxb_cases (IndustryIndexer.tokenRatio textTokens [a])
                        (IndustryIndexer.bestSim a textTokens * (9 # 10)))
    as [-> | ->]; lra.
Qed.

Lemma unmatched_below (textTokens : list jsstr) (joinedText alias : jsstr) :
  includes joinedText alias = false ->
  (IndustryIndexer.tokenRatio textTokens (filter nonEmpty (split SP alias)) == 0)%Q ->
  (0 <= IndustryIndexer.score
          (IndustryIndexer.scoreAgainstAlias textTokens joinedText alias)
   < 9 # 10)%Q.
Proof.
  intros I Z.
  pose proof (@fuzzy_only_below textTokens joinedText alias) as F.
  unfold IndustryIndexer.scoreAgainstAlias in *. rewrite I in *. cbv zeta in *.
  set (tokens := filter nonEmpty (split SP alias)) in *.
  assert (C : (0 <= Qminb 1 (IndustryIndexer.tokenRatio textTokens tokens
                             * (85 # 100)) < 9 # 10)%Q).
  { destruct (Qminb_cases 1 (IndustryIndexer.tokenRatio textTokens tokens
                             * (85 # 100))) as [E|E]; rewrite E.
    - pose proof (Qminb_lb 1 (IndustryIndexer.tokenRatio textTokens tokens
                              * (85 # 100))) as [_ B].
      rewrite E, Z in B. lra.
    - rewrite Z. lra. }
  destruct tokens as [|a [|b rest]]; try exact C.
  destruct (Qle_bool (75 # 100) (IndustryIndexer.bestSim a textTokens)) eqn:E;
    [|exact C].
  cbn [IndustryIndexer.score IndustryIndexer.reason] in *.
  split; [|apply (F a eq_refl Z)].
  apply Qle_bool_iff in E.
  pose proof (Qmaxb_ub (IndustryIndexer.tokenRatio textTokens [a])
                       (IndustryIndexer.bestSim a textTokens * (9 # 10)))
    as [_ M].
  lra.
Qed.

Lemma topAlias_from (textTokens : list jsstr) (joinedText : jsstr)
      (aliases : list jsstr) (acc : Q * option IndustryIndexer.Reason) :
  let step := fun (top : Q * option IndustryIndexer.Reason) alias =>
                let res := IndustryIndexer.scoreAgainstAlias
                             textTokens joinedText alias in
                if Qlt_bool (fst top) (IndustryIndexer.score res)
                then (IndustryIndexer.score res, Some (IndustryIndexer.reason res))
                else top in
  let score := fun a => IndustryIndexer.score
                          (IndustryIndexer.scoreAgainstAlias
                             textTokens joinedText a) in
  (fst acc <= fst (fold_left step aliases acc))%Q /\
  (forall a, In a aliases -> (score a <= fst (fold_left step aliases acc))%Q) /\
  (fst (fold_left step aliases acc) = fst acc \/
   exists a, In a aliases /\ fst (fold_left step aliases acc) = score a).
Proof.
  intros step score. revert acc.
  induction aliases as [|x l IH]; intros acc.
  - simpl. split; [lra|]. split; [tauto | auto].
  - cbn [fold_left].
    destruct (IH (step acc x)) as (A & B & C).
    assert (X : ((fst acc < score x)%Q /\ fst (step acc x) = score x) \/
                ((score x <= fst acc)%Q /\ fst (step acc x) = fst acc)).
    { unfold step, score. cbv zeta.
      destruct (Qlt_bool (fst acc) _) eqn:E.
      - left. apply Qlt_bool_iff in E. auto.
      - right. split; [|reflexivity].
        apply Qnot_lt_le. intros X. apply Qlt_bool_iff in X. congruence. }
    destruct X as [[X1 X2]|[X1 X2]]; rewrite X2 in *.
    + split; [lra|]. split.
      * intros a [<-|H]; auto.
      * right. destruct C as [C|(a & H & C)]; [exists x | exists a];
          simpl; auto.
    + split; [exact A|]. split.
      * intros a [<-|H]; [lra | auto].
      * destruct C as [C|(a & H & C)]; [left; auto|].
        right. exists a. simpl. auto.
Qed.

(** An industry with an alias in the text scores 0.9 at least. *)
Lemma industryScore_phrase (textTokens : list jsstr) (joinedText : jsstr)
      (aliases : list jsstr) (a : jsstr) :
  In a aliases -> includes joinedText a = true ->
  (9 # 10 <= IndustryIndexer.industryScore textTokens joinedText aliases)%Q.
Proof.
  intros I T. unfold IndustryIndexer.industryScore, IndustryIndexer.topAlias.
  destruct (topAlias_from textTokens joinedText aliases (0%Q, None))
    as (_ & B & _).
  cbv zeta in *. specialize (B a I).
  unfold IndustryIndexer.scoreAgainstAlias at 1 in B. rewrite T in B.
  cbn [IndustryIndexer.score] in B.
  set (top := fst (fold_left _ aliases _)) in *.
  set (gp := if existsb (fun a => (List.length a <=? 2)%nat) aliases
             then (9 # 10)%Q else 1%Q).
  assert (G : (9 # 10 <= top * gp)%Q).
  { unfold gp.
    destruct (existsb (fun a => (List.length a <=? 2)%nat) aliases); lra. }
  destruct (1 <? List.length (filter (includes joinedText) aliases))%nat;
    [|exact G].
  set (n := ofNat (List.length (filter (includes joinedText) aliases))).
  assert (N : (0 <= Qminb (12 # 100) ((3 # 100) * n))%Q).
  { pose proof (ofNat_nonneg (List.length (filter (includes joinedText) aliases)))
      as P. fold n in P.
    destruct (Qminb_cases (12 # 100) ((3 # 100) * n)) as [-> | ->]; lra. }
  destruct (Qminb_cases 1 (top * gp + Qminb (12 # 100) ((3 # 100) * n)))
    as [-> | ->]; lra.
Qed.

(** An industry none of whose aliases is in the text, with no token of
    them matched, scores less than 0.9. *)
Lemma industryScore_fuzzy (textTokens : list jsstr) (joinedText : jsstr)
      (aliases : list jsstr) :
  (forall b, In b aliases ->
             includes joinedText b = false /\
             (IndustryIndexer.tokenRatio textTokens
                                         (filter nonEmpty (split SP b)) == 0)%Q) ->
  (IndustryIndexer.industryScore textTokens joinedText aliases < 9 # 10)%Q.
Proof.
  intros H. unfold IndustryIndexer.industryScore, IndustryIndexer.topAlias.
  destruct (topAlias_from textTokens joinedText aliases (0%Q, None))
    as (A & _ & C).
  cbv zeta in *. cbn [fst] in A, C.
  set (top := fst (fold_left _ aliases _)) in *.
  assert (T : (0 <= top < 9 # 10)%Q).
  { destruct C as [C|(b & I & C)]; rewrite C; [lra|].
    destruct (H b I) as [X Z]. apply unmatched_below; auto. }
  assert (M : filter (includes joinedText) aliases = []).
  { clear - H. induction aliases as [|b l IH]; simpl; auto.
    destruct (H b (or_introl eq_refl)) as [-> _].
    apply IH. intros c I. apply H. right. exact I. }
  rewrite M. cbn [List.length Nat.ltb Nat.leb].
  destruct (existsb (fun a => (List.length a <=? 2)%nat) aliases); nra.
Qed.

Section Phrases.
Context {U : Unicode}.

Import IndustryIndexerV3.

Lemma bestMatch_short (st : State) (raw : value) (threshold : option Q)
      (i : nat) (ind : Industry) (k : value) :
  indexed st ->
  nth_error (INDUSTRIES st) i = Some ind ->
  (List.length (keywords ind) <= 3)%nat ->
  In k (keywords ind) -> normalizeText k <> [] ->
  includes (normalizeText raw) (normalizeText k) = true ->
  exists best,
    In best (normalized st (foundIndustries st (normalizeText raw))) /\
    bestMatch st raw threshold = Some (result st (fst best) 1 phrase_index).
Proof.
  intros X H L K N T. unfold bestMatch.
  destruct (isEmpty (normalizeText raw)) eqn:E.
  - apply isEmpty_nil in E. rewrite E in T.
    apply includes_nil_l in T. contradiction.
  - destruct (@phraseStep_short
                U st (match threshold with Some t => t | None => (25 # 100)%Q end)
                (normalizeText raw) i ind k X H L K N T) as (best & I & P).
    exists best. split; [exact I|]. rewrite P. reflexivity.
Qed.

(** C3, amended. In [scoreAgainstAlias] an alias that occurs in the
    joined tokens of the query scores 1.0 with the reason [phrase], which
    is the largest score there is, and a result that rests on the fuzzy
    signal alone (reason [fuzzy], no token of the alias matched) scores
    less than 0.9: the phrase outranks it. So does the industry: with an
    alias in the text [industryScore] is 0.9 at least, whatever the
    penalty for short aliases, and below 0.9 for an industry none of whose
    aliases is in the text or has a token matched. In [bestMatch] of
    IndustryIndexer v3.0 the score of a phrase is 1.5 per key of the
    index found in the text, divided by the number of keywords of the
    industry: an industry of three keywords at most, one of which occurs
    in the text, makes [bestMatch] answer with the score 1 and
    [phrase-index]. *)
Theorem C3_phrase_containment
        (textTokens : list jsstr) (joinedText alias a : jsstr)
        (aliasesA aliasesB : list jsstr)
        (st : State) (raw : value) (threshold : option Q)
        (i : nat) (ind : Industry) (k : value) :
  let r := IndustryIndexer.scoreAgainstAlias textTokens joinedText alias in
  (includes joinedText alias = true ->
   r = {| IndustryIndexer.score := 1;
          IndustryIndexer.reason := IndustryIndexer.Phrase alias |}) /\
  (IndustryIndexer.score r <= 1)%Q /\
  (IndustryIndexer.reason r = IndustryIndexer.Fuzzy a ->
   (IndustryIndexer.tokenRatio textTokens (filter nonEmpty (split SP alias))
    == 0)%Q ->
   (IndustryIndexer.score r < 9 # 10)%Q) /\
  ((exists x, In x aliasesA /\ includes joinedText x = true) ->
   (forall b, In b aliasesB ->
              includes joinedText b = false /\
              (IndustryIndexer.tokenRatio textTokens
                                          (filter nonEmpty (split SP b))
               == 0)%Q) ->
   (IndustryIndexer.industryScore textTokens joinedText aliasesB < 9 # 10)%Q /\
   (9 # 10 <= IndustryIndexer.industryScore textTokens joinedText aliasesA)%Q) /\
  (indexed st ->
   nth_error (INDUSTRIES st) i = Some ind ->
   (List.length (keywords ind) <= 3)%nat ->
   In k (keywords ind) -> normalizeText k <> [] ->
   includes (normalizeText raw) (normalizeText k) = true ->
   exists m, bestMatch st raw threshold = Some m /\
             m_score m = 1%Q /\ matched m = phrase_index).
Proof.
  intros r. split; [|split; [|split; [|split]]].
  - intros H. unfold r, IndustryIndexer.scoreAgainstAlias. rewrite H.
    reflexivity.
  - apply scoreAgainstAlias_le_1.
  - apply fuzzy_only_below.
  - intros (x & I & T) B. split.
    + apply industryScore_fuzzy. exact B.
    + apply (@industryScore_phrase textTokens joinedText aliasesA x I T).
  - intros X H L K N T.
    destruct (@bestMatch_short st raw threshold i ind k X H L K N T)
      as (best & _ & E).
    eexists. split; [exact E|]. split; reflexivity.
Qed.

(** C4, amended. A record with a code and three keywords at most, added
    by [addIndustry], is indexed at once: for each of its keywords [K]
    that does not normalize to the empty string, [bestMatch(K)] returns a
    match of [phrase-index] with the score 1. The match is the industry
    added when no key of the index that occurs in the normalized [K]
    belongs to another industry; otherwise it is the industry with the
    largest share of keys found. *)
Theorem C4_round_trip
        (st : State) (obj : value) (kws : list value) (K : value)
        (threshold : option Q) :
  truthy (get obj "code") = true ->
  get obj "keywords" = VArr kws ->
  (List.length kws <= 3)%nat ->
  In K kws ->
  normalizeText K <> [] ->
  exists st' m,
    addIndustry st obj = Some st' /\
    indexed st' /\
    bestMatch st' K threshold = Some m /\
    m_score m = 1%Q /\
    matched m = phrase_index /\
    ((forall key inds,
         In (key, inds) (keywordIndex st') ->
         includes (normalizeText K) key = true ->
         inds = [List.length (INDUSTRIES st)]) ->
     m_code m = get obj "code").
Proof.
  intros Hc Hk L I N.
  set (new := {| code := get obj "code";
                 name_fa := orElse (get obj "name_fa") (get obj "code");
                 name_en := orElse (get obj "name_en") (get obj "code");
                 keywords := kws |}).
  set (st' := {| INDUSTRIES := INDUSTRIES st ++ [new];
                 keywordIndex := buildIndex (INDUSTRIES st ++ [new]) |}).
  assert (A : addIndustry st obj = Some st').
  { unfold addIndustry. rewrite Hk, Hc.
    destruct obj; try discriminate. reflexivity. }
  assert (X : indexed st') by reflexivity.
  assert (H : nth_error (INDUSTRIES st') (List.length (INDUSTRIES st)) = Some new).
  { simpl. rewrite nth_error_app2, Nat.sub_diag by lia. reflexivity. }
  destruct (@bestMatch_short st' K threshold _ new K X H L I N
                             (includes_refl _)) as (best & B & E).
  exists st', (result st' (fst best) 1 phrase_index).
  repeat (split; [first [exact A | exact X | exact E | reflexivity]|]).
  intros O.
  assert (F : fst best = List.length (INDUSTRIES st)).
  { unfold normalized in B. apply in_map_iff in B.
    destruct B as (e & <- & Be). simpl.
    apply (@found_only st' (normalizeText K) _ O e Be). }
  unfold result, industryAt. rewrite F, (nth_error_nth _ _ _ H). reflexivity.
Qed.

End Phrases.

Lemma C3_phrase_containment_witness :
  IndustryIndexer.scoreAgainstAlias
    [str "arc"; str "welding"; str "shop"] (str "arc welding shop")
    (str "arc welding")
  = {| IndustryIndexer.score := 1;
       IndustryIndexer.reason := IndustryIndexer.Phrase (str "arc welding") |} /\
  (IndustryIndexer.score
     (IndustryIndexer.scoreAgainstAlias [str "weldin"] (str "weldin")
                                        (str "welding")) < 9 # 10)%Q /\
  ((IndustryIndexer.industryScore
      [str "arc"; str "welding"; str "shop"] (str "arc welding shop")
      [str "wolding"] < 9 # 10)%Q /\
   (9 # 10 <= IndustryIndexer.industryScore
                [str "arc"; str "welding"; str "shop"] (str "arc welding shop")
                [str "arc welding"; str "it"])%Q) /\
  exists m,
    IndustryIndexerV3.bestMatch Examples.withFlorist
                                (Examples.s "Ask the florist!") None
    = Some m /\
    IndustryIndexerV3.m_score m = 1%Q /\
    IndustryIndexerV3.matched m = IndustryIndexerV3.phrase_index.
Proof.
  split; [|split; [|split]].
  - destruct (@C3_phrase_containment
                Latin_Arabic
                [str "arc"; str "welding"; str "shop"] (str "arc welding shop")
                (str "arc welding") [] [] []
                IndustryIndexerV3.initial VUndef None 0
                (IndustryIndexerV3.industry "" "" "" []) VUndef)
      as (H & _).
    apply H. reflexivity.
  - destruct (@C3_phrase_containment
                Latin_Arabic
                [str "weldin"] (str "weldin") (str "welding") (str "welding")
                [] []
                IndustryIndexerV3.initial VUndef None 0
                (IndustryIndexerV3.industry "" "" "" []) VUndef)
      as (_ & _ & H & _).
    apply H; reflexivity.
  - destruct (@C3_phrase_containment
                Latin_Arabic
                [str "arc"; str "welding"; str "shop"] (str "arc welding shop")
                [] [] [str "arc welding"; str "it"] [str "wolding"]
                IndustryIndexerV3.initial VUndef None 0
                (IndustryIndexerV3.industry "" "" "" []) VUndef)
      as (_ & _ & _ & H & _).
    apply H.
    + exists (str "arc welding"). split; [left|]; reflexivity.
    + intros b [<-|[]]. split; reflexivity.
  - destruct (@C3_phrase_containment
                Latin_Arabic [] [] [] [] [] []
                Examples.withFlorist (Examples.s "Ask the florist!") None
                65
                {| IndustryIndexerV3.code := Examples.s "florist";
                   IndustryIndexerV3.name_fa := Examples.s "florist";
                   IndustryIndexerV3.name_en := Examples.s "florist";
                   IndustryIndexerV3.keywords := [Examples.s "Florist"] |}
                (Examples.s "Florist"))
      as (_ & _ & _ & _ & H).
    apply H.
    + reflexivity.
    + reflexivity.
    + simpl. lia.
    + left. reflexivity.
    + vm_compute. discriminate.
    + reflexivity.
Defined.

(** C3, as stated, fails in IndustryIndexer v3.0: [welding] is a keyword
    of the industry [welding], which has nine keywords, and the text
    [welding] contains it; the phrase scores 1.5 * 2 / 9, below the gate
    of 0.5, and [bestMatch] answers with the score 0.18 of the match on
    four characters. *)
Lemma C3_counterexample :
  In (Examples.s "welding")
     (IndustryIndexerV3.keywords
        (nth 0 (IndustryIndexerV3.INDUSTRIES IndustryIndexerV3.initial)
             (IndustryIndexerV3.industry "" "" "" []))) /\
  includes (IndustryIndexerV3.normalizeText (Examples.s "welding"))
           (IndustryIndexerV3.normalizeText (Examples.s "welding")) = true /\
  option_map (fun m => (IndustryIndexerV3.m_code m, IndustryIndexerV3.m_score m,
                        IndustryIndexerV3.matched m))
             (IndustryIndexerV3.bestMatch IndustryIndexerV3.initial
                                          (Examples.s "welding") None)
  = Some (Examples.s "welding", (18 # 100)%Q,
          IndustryIndexerV3.substring (str "weld") (str "weld")).
Proof.
  split; [|split]; [|reflexivity|vm_compute; reflexivity].
  vm_compute. auto 10.
Qed.

Lemma C4_round_trip_witness :
  exists st' m,
    IndustryIndexerV3.addIndustry IndustryIndexerV3.initial Examples.florist
    = Some st' /\
    indexed st' /\
    IndustryIndexerV3.bestMatch st' (Examples.s "Florist") None = Some m /\
    IndustryIndexerV3.m_score m = 1%Q /\
    IndustryIndexerV3.matched m = IndustryIndexerV3.phrase_index /\
    IndustryIndexerV3.m_code m = Examples.s "florist".
Proof.
  destruct (@C4_round_trip Latin_Arabic IndustryIndexerV3.initial
                           Examples.florist [Examples.s "Florist"]
                           (Examples.s "Florist") None)
    as (st' & m & A & X & B & S & M & C).
  - reflexivity.
  - reflexivity.
  - simpl. lia.
  - left. reflexivity.
  - vm_compute. discriminate.
  - exists st', m. repeat (split; [assumption|]).
    apply C. intros key inds I T.
    assert (E : st' = Examples.withFlorist)
      by (unfold Examples.withFlorist; rewrite A; reflexivity).
    subst st'.
    assert (F : forallb
                  (fun e : jsstr * list nat =>
                     negb (includes (IndustryIndexerV3.normalizeText
                                       (Examples.s "Florist")) (fst e)) ||
                     if list_eq_dec Nat.eq_dec (snd e) [65%nat]
                     then true else false)
                  (IndustryIndexerV3.keywordIndex Examples.withFlorist) = true)
      by (vm_compute; reflexivity).
    rewrite forallb_forall in F. specialize (F (key, inds) I).
    cbn [fst snd] in F. rewrite T in F. cbn [negb orb] in F.
    destruct (list_eq_dec Nat.eq_dec inds [65%nat]); [assumption | discriminate].
Defined.

(** C4, as stated, fails: the industry [plumbing] is added with five
    keywords, [tap] among them, and [bestMatch("tap")] returns [null]:
    the phrase scores 1.5 / 5 and the token 1 / 5, below the gates, and
    the text is too short for the match on four characters. *)
Lemma C4_counterexample :
  exists st',
    IndustryIndexerV3.addIndustry IndustryIndexerV3.initial Examples.plumbing
    = Some st' /\
    In (Examples.s "tap")
       (IndustryIndexerV3.keywords
          (nth 65 (IndustryIndexerV3.INDUSTRIES st')
               (IndustryIndexerV3.industry "" "" "" []))) /\
    IndustryIndexerV3.bestMatch st' (Examples.s "tap") None = None.
Proof.
  eexists. split; [reflexivity|]. split; [|vm_compute; reflexivity].
  vm_compute. auto 10.
Qed.

(* ================================================================== *)
(** * The normalizers that trim last are idempotent (C2) *)
(* ================================================================== *)

Lemma collapse_tidy (b : bool) (s : jsstr) : tidy b (collapseFrom b s).
Proof.
  revert b. induction s as [|c r IH]; intros b; simpl; auto.
  destruct (isWhiteSpace c) eqn:W.
  - destruct b; [apply IH|]. simpl. auto.
  - simpl. rewrite W. apply IH.
Qed.

Lemma tidy_weaken (s : jsstr) : tidy true s -> tidy false s.
Proof.
  destruct s as [|c r]; simpl; auto.
  destruct (isWhiteSpace c); auto. intros (_ & X & _). discriminate.
Qed.

Lemma tidy_fixed (b : bool) (s : jsstr) : tidy b s -> collapseFrom b s = s.
Proof.
  revert b. induction s as [|c r IH]; intros b H; simpl in *; auto.
  destruct (isWhiteSpace c).
  - destruct H as (-> & -> & H). rewrite (IH true H). reflexivity.
  - rewrite (IH false H). reflexivity.
Qed.

Lemma tidy_prefix (b : bool) (p w : jsstr) : tidy b (p ++ w) -> tidy b p.
Proof.
  revert b. induction p as [|c r IH]; intros b H; simpl in *; auto.
  destruct (isWhiteSpace c).
  - destruct H as (A & B & H). eauto.
  - eauto.
Qed.

Lemma tidy_trimStart (b : bool) (s : jsstr) : tidy b s -> tidy false (trimStart s).
Proof.
  revert b. induction s as [|c r IH]; intros b H; simpl in *; auto.
  destruct (isWhiteSpace c) eqn:W.
  - destruct H as (_ & _ & H). eauto.
  - simpl. rewrite W. exact H.
Qed.

Lemma trimStart_split (s : jsstr) :
  exists w, s = w ++ trimStart s /\ headed (trimStart s).
Proof.
  induction s as [|c r (w & E & H)]; simpl.
  - exists []. simpl. auto.
  - destruct (isWhiteSpace c) eqn:W.
    + exists (c :: w). simpl. rewrite <- E. auto.
    + exists []. simpl. auto.
Qed.

Lemma trimEnd_split (s : jsstr) :
  exists w, s = trimEnd s ++ w /\ headed (rev (trimEnd s)).
Proof.
  unfold trimEnd. destruct (trimStart_split (rev s)) as (w & E & H).
  exists (rev w). rewrite rev_involutive. split; [|exact H].
  rewrite <- rev_app_distr, <- E, rev_involutive. reflexivity.
Qed.

Lemma trimStart_fixed (s : jsstr) : headed s -> trimStart s = s.
Proof. destruct s as [|c r]; simpl; auto. intros ->. reflexivity. Qed.

Lemma trimEnd_fixed (s : jsstr) : headed (rev s) -> trimEnd s = s.
Proof.
  intros H. unfold trimEnd. rewrite (trimStart_fixed _ H).
  apply rev_involutive.
Qed.

Lemma trim_trimmed (s : jsstr) : trimmed (trim s).
Proof.
  unfold trim, trimmed.
  destruct (trimStart_split s) as (_ & _ & H).
  destruct (trimEnd_split (trimStart s)) as (w & E & T).
  split; [|exact T].
  destruct (trimEnd (trimStart s)) as [|c r]; simpl; auto.
  rewrite E in H. exact H.
Qed.

Lemma trimmed_fixed (s : jsstr) : trimmed s -> trim s = s.
Proof.
  intros [H T]. unfold trim.
  rewrite (trimStart_fixed _ H). apply trimEnd_fixed, T.
Qed.

Lemma tidy_trim (s : jsstr) : tidy false s -> tidy false (trim s).
Proof.
  intros H. unfold trim.
  pose proof (tidy_trimStart _ _ H) as H'.
  destruct (trimEnd_split (trimStart s)) as (w & E & _).
  rewrite E in H'. apply (tidy_prefix _ _ _ H').
Qed.

(** A string that was collapsed, then trimmed, is left alone by both. *)
Lemma collapsed_trimmed_fixed (z : jsstr) :
  trim (collapseSpaces (trim (collapseSpaces z))) = trim (collapseSpaces z).
Proof.
  unfold collapseSpaces at 1.
  rewrite (tidy_fixed false (trim (collapseSpaces z))).
  - apply trimmed_fixed, trim_trimmed.
  - apply tidy_trim, collapse_tidy.
Qed.

Lemma collapse_In (b : bool) (s : jsstr) (c : char) :
  In c (collapseFrom b s) -> c = SP \/ In c s.
Proof.
  revert b. induction s as [|x s IH]; intros b H; simpl in *; auto.
  destruct (isWhiteSpace x).
  - destruct b; simpl in H.
    + destruct (IH _ H); auto.
    + destruct H as [<-|H]; auto. destruct (IH _ H); auto.
  - destruct H as [<-|H]; auto. destruct (IH _ H); auto.
Qed.

Lemma blank_In (keep : char -> bool) (s : jsstr) (c : char) :
  In c (blankOutside keep s) -> c = SP \/ (In c s /\ keep c = true).
Proof.
  unfold blankOutside. intros H. apply in_map_iff in H.
  destruct H as (x & E & I). destruct (keep x) eqn:K; subst; auto.
Qed.

Lemma map_fixed (f : char -> char) (s : jsstr) :
  (forall c, In c s -> f c = c) -> List.map f s = s.
Proof.
  intros H. induction s as [|x s IH]; simpl; auto.
  rewrite (H x (or_introl eq_refl)), IH; auto.
  intros c I. apply H. right. exact I.
Qed.

Lemma filter_fixed (p : char -> bool) (s : jsstr) :
  (forall c, In c s -> p c = true) -> filter p s = s.
Proof. intros H. apply filter_all, Forall_forall, H. Qed.

#[export] Instance Latin_Arabic_lower : UnicodeLower Latin_Arabic.
Proof.
  assert (I : forall c, Tables.lowerChar (Tables.lowerChar c) = Tables.lowerChar c).
  { intros c. unfold Tables.lowerChar.
    destruct (inRange 65 90 c || inRange 192 214 c || inRange 216 222 c) eqn:E;
      [|rewrite E; reflexivity].
    replace (inRange 65 90 (c + 32) || inRange 192 214 (c + 32) ||
             inRange 216 222 (c + 32)) with false; [reflexivity|].
    symmetry. revert E. chars. }
  split; simpl.
  - intros s c H. apply in_map_iff in H. destruct H as (x & <- & _).
    rewrite I. reflexivity.
  - intros s H. apply map_fixed. intros c Hc.
    specialize (H c Hc). inversion H as [E]. rewrite E. exact E.
  - reflexivity.
  - intros s c H A. apply in_map_iff in H. destruct H as (x & E & Hx).
    replace c with x in *; [exact Hx|].
    subst c. unfold Tables.lowerChar in *.
    destruct (inRange 65 90 x || inRange 192 214 x || inRange 216 222 x) eqn:R;
      [|reflexivity].
    exfalso. revert R A. chars.
Qed.

Section Idempotence.
Context {U : Unicode} {L : UnicodeLower U}.

(** [normalizeText] of KnowledgeEngine is idempotent. *)
Theorem KnowledgeEngine_normalizeText_idempotent (v : value) :
  KnowledgeEngine.normalizeText (VStr (KnowledgeEngine.normalizeText v))
  = KnowledgeEngine.normalizeText v.
Proof.
  unfold KnowledgeEngine.normalizeText at 1.
  cbn [KnowledgeEngine.ensureString ToString].
  set (keep := fun c => isLetter c || isNumber c || isWhiteSpace c).
  set (y := KnowledgeEngine.normalizeText v).
  assert (Y : forall c, In c y ->
                c = SP \/
                (toLowerCase [c] = [c] /\
                 KnowledgeEngine.isZeroWidth c = false /\ keep c = true)).
  { intros c H. unfold y, KnowledgeEngine.normalizeText in H.
    apply trim_In in H. apply collapse_In in H. destruct H as [H|H]; auto.
    apply blank_In in H. destruct H as [H|[H K]]; auto.
    apply filter_In in H. destruct H as [H Z].
    right. split; [exact (lowered_out _ _ H)|].
    split; [apply negb_true_iff, Z | exact K]. }
  rewrite (lowered_fix y).
  2:{ intros c H. destruct (Y c H) as [->|(E & _)];
        [apply lowered_space | exact E]. }
  rewrite (filter_fixed _ y).
  2:{ intros c H. destruct (Y c H) as [->|(_ & Z & _)];
        [reflexivity | rewrite Z; reflexivity]. }
  unfold blankOutside. rewrite (map_fixed _ y).
  2:{ intros c H. destruct (Y c H) as [->|(_ & _ & K)].
      - destruct (keep SP); reflexivity.
      - fold keep. rewrite K. reflexivity. }
  unfold y, KnowledgeEngine.normalizeText. apply collapsed_trimmed_fixed.
Qed.



End Idempotence.

(* ================================================================== *)
(** * The table of [lcsLength] computes the longest common subsequence *)
(* ================================================================== *)

Section LcsTable.
Variable A : Type.
Variable eqb : A -> A -> bool.
Hypothesis eqb_eq : forall x y, eqb x y = true <-> x = y.

Lemma lcsRev_cons_cons (x y : A) (a b : list A) :
  lcsRev eqb (x :: a) (y :: b)
  = if eqb x y then S (lcsRev eqb a b)
    else Nat.max (lcsRev eqb a (y :: b)) (lcsRev eqb (x :: a) b).
Proof. reflexivity. Qed.

Lemma lcsRev_nil_r (a : list A) : lcsRev eqb a [] = 0%nat.
Proof. destruct a; reflexivity. Qed.

Lemma lcsRow_spec (x : A) (ra b2 rb : list A) :
  KnowledgeEngine.lcsRow eqb x b2 (List.map (lcsRev eqb ra) (prefixesRev rb b2))
                         (lcsRev eqb (x :: ra) rb)
  = List.map (lcsRev eqb (x :: ra)) (tl (prefixesRev rb b2)).
Proof.
  revert rb. induction b2 as [|y b2 IH]; intros rb; [reflexivity|].
  cbn [prefixesRev List.map tl].
  assert (E : (if eqb x y then (lcsRev eqb ra rb + 1)%nat
               else if (lcsRev eqb (x :: ra) rb <? lcsRev eqb ra (y :: rb))%nat
                    then lcsRev eqb ra (y :: rb)
                    else lcsRev eqb (x :: ra) rb)
              = lcsRev eqb (x :: ra) (y :: rb)).
  { rewrite lcsRev_cons_cons. destruct (eqb x y); [lia|].
    destruct (Nat.ltb_spec (lcsRev eqb (x :: ra) rb) (lcsRev eqb ra (y :: rb)));
      lia. }
  destruct b2 as [|z b2'].
  - cbn [prefixesRev List.map KnowledgeEngine.lcsRow]. rewrite E. reflexivity.
  - specialize (IH (y :: rb)).
    cbn [prefixesRev List.map tl] in IH.
    cbn [prefixesRev List.map KnowledgeEngine.lcsRow].
    cbn [KnowledgeEngine.lcsRow] in IH.
    rewrite E. f_equal. exact IH.
Qed.

Lemma lcsRows_spec (b a2 ra : list A) :
  KnowledgeEngine.lcsRows eqb a2 b (List.map (lcsRev eqb ra) (prefixesRev [] b))
  = List.map (lcsRev eqb (rev a2 ++ ra)) (prefixesRev [] b).
Proof.
  revert ra. induction a2 as [|x a2 IH]; intros ra; [reflexivity|].
  cbn [KnowledgeEngine.lcsRows rev].
  rewrite <- app_assoc. cbn [app].
  rewrite <- (IH (x :: ra)). f_equal.
  pose proof (lcsRow_spec x ra b []) as R.
  rewrite lcsRev_nil_r in R.
  destruct b as [|y b]; [reflexivity|].
  cbn [prefixesRev List.map tl] in *.
  rewrite <- R, lcsRev_nil_r. reflexivity.
Qed.

Lemma prefixesRev_zeros (b2 rb : list A) :
  List.map (lcsRev eqb []) (prefixesRev rb b2) = repeat 0%nat (S (List.length b2)).
Proof.
  revert rb. induction b2 as [|y b2 IH]; intros rb; [reflexivity|].
  cbn [prefixesRev List.map List.length repeat]. f_equal.
  rewrite IH. reflexivity.
Qed.

Lemma prefixesRev_last (B : Type) (f : list A -> B) (d : B) (b2 rb : list A) :
  nth (List.length b2) (List.map f (prefixesRev rb b2)) d = f (rev b2 ++ rb).
Proof.
  revert rb. induction b2 as [|y b2 IH]; intros rb; [reflexivity|].
  cbn [prefixesRev List.map List.length nth rev].
  rewrite IH, <- app_assoc. reflexivity.
Qed.

Lemma lcsTable_rev (a b : list A) :
  KnowledgeEngine.lcsTable eqb a b = lcsRev eqb (rev a) (rev b).
Proof.
  unfold KnowledgeEngine.lcsTable.
  rewrite <- (prefixesRev_zeros b []).
  rewrite lcsRows_spec, app_nil_r, prefixesRev_last, app_nil_r. reflexivity.
Qed.

Lemma Subseq_nil_inv (s : list A) : Subseq s [] -> s = [].
Proof. intros H. inversion H. reflexivity. Qed.

Lemma Subseq_tail (z x : A) (s l : list A) :
  Subseq (z :: s) (x :: l) -> Subseq s l.
Proof.
  revert x. induction l as [|y l IH]; intros x H.
  - inversion H as [| ? ? ? H1 | ? ? ? H1]; subst.
    + exact H1.
    + inversion H1.
  - inversion H as [| ? ? ? H1 | ? ? ? H1]; subst.
    + exact H1.
    + apply Subseq_skip. apply (IH y). exact H1.
Qed.

Lemma Subseq_length (s l : list A) : Subseq s l -> (List.length s <= List.length l)%nat.
Proof. induction 1; simpl; lia. Qed.

Lemma Subseq_refl (l : list A) : Subseq l l.
Proof. induction l; constructor; auto. Qed.

Lemma Subseq_app (s1 l1 s2 l2 : list A) :
  Subseq s1 l1 -> Subseq s2 l2 -> Subseq (s1 ++ s2) (l1 ++ l2).
Proof.
  intros H1 H2. induction H1; simpl.
  - induction l as [|x l IH]; simpl; auto. apply Subseq_skip, IH.
  - apply Subseq_take, IHSubseq.
  - apply Subseq_skip, IHSubseq.
Qed.

Lemma Subseq_rev (s l : list A) : Subseq s l -> Subseq (rev s) (rev l).
Proof.
  induction 1; simpl.
  - constructor.
  - apply Subseq_app; [assumption | apply Subseq_refl].
  - rewrite <- (app_nil_r (rev s)).
    apply Subseq_app; [assumption | constructor].
Qed.

Lemma lcsRev_common (a b : list A) :
  exists s, Subseq s a /\ Subseq s b /\ List.length s = lcsRev eqb a b.
Proof.
  revert b. induction a as [|x a IHa]; intros b.
  - exists []. repeat split; constructor.
  - induction b as [|y b IHb].
    + exists []. repeat split; constructor.
    + rewrite lcsRev_cons_cons. destruct (eqb x y) eqn:E.
      * apply eqb_eq in E. subst y.
        destruct (IHa b) as (s & S1 & S2 & L).
        exists (x :: s). repeat split; [constructor; auto ..|]. simpl. lia.
      * destruct (Nat.max_spec (lcsRev eqb a (y :: b)) (lcsRev eqb (x :: a) b))
          as [[_ ->]|[_ ->]].
        -- destruct IHb as (s & S1 & S2 & L).
           exists s. repeat split; auto. apply Subseq_skip, S2.
        -- destruct (IHa (y :: b)) as (s & S1 & S2 & L).
           exists s. repeat split; auto. apply Subseq_skip, S1.
Qed.

Lemma lcsRev_longest (a b s : list A) :
  Subseq s a -> Subseq s b -> (List.length s <= lcsRev eqb a b)%nat.
Proof.
  revert b s. induction a as [|x a IHa]; intros b s Ha Hb.
  - apply Subseq_nil_inv in Ha. subst. simpl. lia.
  - revert s Ha Hb. induction b as [|y b IHb]; intros s Ha Hb.
    + apply Subseq_nil_inv in Hb. subst. simpl. lia.
    + destruct s as [|z s]; [simpl; lia|].
      rewrite lcsRev_cons_cons. destruct (eqb x y) eqn:E.
      * apply Subseq_tail in Ha. apply Subseq_tail in Hb.
        specialize (IHa b s Ha Hb). simpl. lia.
      * inversion Ha as [| ? ? ? H1 | ? ? ? H1]; subst.
        -- inversion Hb as [| ? ? ? H2 | ? ? ? H2]; subst.
           ++ assert (X : eqb y y = true) by (apply eqb_eq; reflexivity).
              congruence.
           ++ specialize (IHb (x :: s) Ha H2). lia.
        -- specialize (IHa (y :: b) (z :: s) H1 Hb). lia.
Qed.

Lemma lcsTable_longest (a b : list A) :
  LongestCommon a b (KnowledgeEngine.lcsTable eqb a b).
Proof.
  rewrite lcsTable_rev. split.
  - destruct (lcsRev_common (rev a) (rev b)) as (s & S1 & S2 & L).
    exists (rev s). rewrite length_rev.
    apply Subseq_rev in S1. apply Subseq_rev in S2.
    rewrite rev_involutive in S1, S2. auto.
  - intros s S1 S2. rewrite <- (length_rev s).
    apply lcsRev_longest; apply Subseq_rev; assumption.
Qed.

End LcsTable.

Lemma LongestCommon_nil_l (A : Type) (b : list A) : LongestCommon [] b 0.
Proof.
  split.
  - exists []. repeat split; constructor.
  - intros s H _. inversion H. simpl. lia.
Qed.

Lemma LongestCommon_nil_r (A : Type) (a : list A) : LongestCommon a [] 0.
Proof.
  split.
  - exists []. repeat split; constructor.
  - intros s _ H. inversion H. simpl. lia.
Qed.

Lemma LongestCommon_self (A : Type) (a : list A) (n : nat) :
  LongestCommon a a n -> n = List.length a.
Proof.
  intros [(s & S1 & _ & L) M].
  specialize (M a (Subseq_refl a) (Subseq_refl a)).
  apply Subseq_length in S1. lia.
Qed.

Lemma length_zero_nil (A : Type) (l : list A) :
  (List.length l =? 0)%nat = true -> l = [].
Proof. destruct l; [reflexivity | discriminate]. Qed.

Section LcsLength.
Context {U : Unicode}.

Lemma lcsLength_chars (a b : jsstr) :
  (List.length a <= 300)%nat -> (List.length b <= 300)%nat ->
  LongestCommon a b (KnowledgeEngine.lcsLength (VStr a) (VStr b)).
Proof.
  unfold KnowledgeEngine.lcsLength.
  cbn [KnowledgeEngine.ensureString ToString].
  intros La Lb.
  destruct (List.length a =? 0)%nat eqn:Za;
    [apply length_zero_nil in Za; subst; apply LongestCommon_nil_l|].
  destruct (List.length b =? 0)%nat eqn:Zb;
    [apply length_zero_nil in Zb; subst; apply LongestCommon_nil_r|].
  cbn [orb].
  destruct (Nat.ltb_spec 300 (List.length a)); [lia|].
  destruct (Nat.ltb_spec 300 (List.length b)); [lia|].
  cbn [orb]. apply lcsTable_longest. apply N.eqb_eq.
Qed.

Lemma lcsLength_tokens (a b : jsstr) :
  (300 < List.length a)%nat \/ (300 < List.length b)%nat ->
  a <> [] -> b <> [] ->
  LongestCommon (KnowledgeEngine.tokenize (VStr a))
                (KnowledgeEngine.tokenize (VStr b))
                (KnowledgeEngine.lcsLength (VStr a) (VStr b)).
Proof.
  unfold KnowledgeEngine.lcsLength.
  cbn [KnowledgeEngine.ensureString ToString].
  intros L Na Nb.
  destruct (List.length a =? 0)%nat eqn:Za;
    [apply length_zero_nil in Za; congruence|].
  destruct (List.length b =? 0)%nat eqn:Zb;
    [apply length_zero_nil in Zb; congruence|].
  cbn [orb].
  replace ((300 <? List.length a)%nat || (300 <? List.length b)%nat)
    with true
    by (symmetry; apply orb_true_iff;
        destruct L; [left | right]; apply Nat.ltb_lt; assumption).
  destruct (List.length (KnowledgeEngine.tokenize (VStr a)) =? 0)%nat eqn:Ta;
    [apply length_zero_nil in Ta; rewrite Ta; apply LongestCommon_nil_l|].
  destruct (List.length (KnowledgeEngine.tokenize (VStr b)) =? 0)%nat eqn:Tb;
    [apply length_zero_nil in Tb; rewrite Tb; apply LongestCommon_nil_r|].
  cbn [orb]. apply lcsTable_longest. apply eqb_str_eq.
Qed.

(** X1. [lcsLength(a, b)] is the length of a longest common subsequence:
    of the characters of the two strings when both have 300 characters
    at most, and of their tokens, not of their characters, as soon as
    one of them is longer (and neither is empty). *)
Theorem lcsLength_longest_common (a b : jsstr) :
  ((List.length a <= 300)%nat -> (List.length b <= 300)%nat ->
   LongestCommon a b (KnowledgeEngine.lcsLength (VStr a) (VStr b))) /\
  ((300 < List.length a)%nat \/ (300 < List.length b)%nat ->
   a <> [] -> b <> [] ->
   LongestCommon (KnowledgeEngine.tokenize (VStr a))
                 (KnowledgeEngine.tokenize (VStr b))
                 (KnowledgeEngine.lcsLength (VStr a) (VStr b))).
Proof. split; [apply lcsLength_chars | apply lcsLength_tokens]. Qed.

End LcsLength.

Lemma lcsLength_longest_common_witness :
  LongestCommon (str "nitrile") (str "latex")
                (KnowledgeEngine.lcsLength (Examples.s "nitrile")
                                           (Examples.s "latex")) /\
  let long := VStr (flat_map (fun _ => str "cut gloves ") (seq 0 30)) in
  LongestCommon (KnowledgeEngine.tokenize long)
                (KnowledgeEngine.tokenize (Examples.s "gloves cut"))
                (KnowledgeEngine.lcsLength long (Examples.s "gloves cut")).
Proof.
  split.
  - apply (lcsLength_longest_common (U := Latin_Arabic));
      vm_compute; lia.
  - apply (lcsLength_longest_common
             (U := Latin_Arabic)
             (flat_map (fun _ => str "cut gloves ") (seq 0 30))
             (str "gloves cut")).
    + left. vm_compute. lia.
    + vm_compute. discriminate.
    + vm_compute. discriminate.
Defined.

(* ================================================================== *)
(** * The scores of [scoreCandidate] *)
(* ================================================================== *)

Lemma arrIncludes_app (l1 l2 : list jsstr) (x : jsstr) :
  arrIncludes (l1 ++ l2) x = arrIncludes l1 x || arrIncludes l2 x.
Proof. unfold arrIncludes. apply existsb_app. Qed.

Lemma arrIncludes_false (arr : list jsstr) (x : jsstr) :
  arrIncludes arr x = false <-> ~ In x arr.
Proof.
  rewrite <- arrIncludes_In. destruct (arrIncludes arr x); split; intros;
    congruence.
Qed.

(** The loop of [new Set(arr)], from the elements [acc] already there. *)
Lemma uniq_from_prefix (l acc : list jsstr) :
  exists t,
    fold_left (fun acc x => if arrIncludes acc x then acc else acc ++ [x]) l acc
    = acc ++ t.
Proof.
  revert acc. induction l as [|x l IH]; intros acc; simpl.
  - exists []. rewrite app_nil_r. reflexivity.
  - destruct (arrIncludes acc x).
    + apply IH.
    + destruct (IH (acc ++ [x])) as (t & ->).
      exists (x :: t). rewrite <- app_assoc. reflexivity.
Qed.

Lemma uniq_from_NoDup (l acc : list jsstr) :
  NoDup acc ->
  NoDup (fold_left (fun acc x => if arrIncludes acc x then acc else acc ++ [x])
                   l acc).
Proof.
  revert acc. induction l as [|x l IH]; intros acc H; simpl; auto.
  destruct (arrIncludes acc x) eqn:E; [apply IH, H|].
  apply IH. apply arrIncludes_false in E.
  apply NoDup_app; [exact H | repeat constructor; simpl; tauto|].
  intros y Hy [<-|[]]. contradiction.
Qed.

Lemma uniq_from_In (l acc : list jsstr) (x : jsstr) :
  In x (fold_left (fun acc x => if arrIncludes acc x then acc else acc ++ [x])
                  l acc)
  <-> In x acc \/ In x l.
Proof.
  revert acc. induction l as [|y l IH]; intros acc; simpl; [tauto|].
  rewrite IH. destruct (arrIncludes acc y) eqn:E.
  - apply arrIncludes_In in E. split; [tauto|].
    intros [H|[<-|H]]; auto.
  - rewrite in_app_iff. simpl. tauto.
Qed.

Lemma uniq_from_fixed (l acc : list jsstr) :
  (forall x, In x l -> In x acc) ->
  fold_left (fun acc x => if arrIncludes acc x then acc else acc ++ [x]) l acc
  = acc.
Proof.
  induction l as [|y l IH]; intros H; simpl; auto.
  replace (arrIncludes acc y) with true
    by (symmetry; apply arrIncludes_In, H; left; reflexivity).
  apply IH. intros x Hx. apply H. right. exact Hx.
Qed.

Lemma uniq_from_fresh (l acc : list jsstr) :
  NoDup l -> (forall x, In x l -> ~ In x acc) ->
  fold_left (fun acc x => if arrIncludes acc x then acc else acc ++ [x]) l acc
  = acc ++ l.
Proof.
  revert acc. induction l as [|y l IH]; intros acc N D; simpl.
  - rewrite app_nil_r. reflexivity.
  - inversion N as [|? ? Ny Nl]; subst.
    replace (arrIncludes acc y) with false
      by (symmetry; apply arrIncludes_false, D; left; reflexivity).
    rewrite IH, <- app_assoc; auto.
    intros x Hx Hacc. apply in_app_iff in Hacc. destruct Hacc as [Hacc|[<-|[]]].
    + apply (D x); [right|]; assumption.
    + contradiction.
Qed.

Lemma uniq_NoDup (l : list jsstr) : NoDup (uniq l).
Proof. apply uniq_from_NoDup. constructor. Qed.

Lemma uniq_In (l : list jsstr) (x : jsstr) : In x (uniq l) <-> In x l.
Proof. unfold uniq. rewrite uniq_from_In. simpl. tauto. Qed.

Lemma uniq_fixed (l : list jsstr) : NoDup l -> uniq l = l.
Proof. intros H. unfold uniq. rewrite uniq_from_fresh; simpl; auto. Qed.

Lemma uniq_app_length (a b : list jsstr) :
  NoDup a -> (List.length a <= List.length (uniq (a ++ b)))%nat.
Proof.
  intros H. unfold uniq. rewrite fold_left_app.
  fold (uniq a). rewrite (uniq_fixed H).
  destruct (uniq_from_prefix b a) as (t & ->).
  rewrite length_app. lia.
Qed.

Lemma filter_length_le (A : Type) (p : A -> bool) (l : list A) :
  (List.length (filter p l) <= List.length l)%nat.
Proof. induction l as [|x l IH]; simpl; [lia|]. destruct (p x); simpl; lia. Qed.

Lemma ratio_bounds (n m : nat) :
  (n <= m)%nat -> (0 < m)%nat -> (0 <= ofNat n / ofNat m <= 1)%Q.
Proof.
  intros H P.
  pose proof (ofNat_nonneg n) as N0. pose proof (ofNat_pos P) as M0.
  pose proof (ofNat_le H) as L. split.
  - apply Qle_shift_div_l; [exact M0 | lra].
  - apply Qle_shift_div_r; [exact M0 | lra].
Qed.

Lemma ratio_nonneg (n m : nat) : (0 <= ofNat n / ofNat m)%Q.
Proof.
  destruct m as [|m].
  - change (ofNat 0) with 0%Q. unfold Qdiv.
    change (/ 0)%Q with 0%Q. lra.
  - pose proof (ofNat_nonneg n) as N0.
    apply Qle_shift_div_l; [apply ofNat_pos; lia | lra].
Qed.

Lemma ratio_one (n : nat) : (0 < n)%nat -> (ofNat n / ofNat n == 1)%Q.
Proof.
  intros P. pose proof (ofNat_pos P) as M0. field. lra.
Qed.

Lemma Qminb_range (x : Q) : (0 <= x)%Q -> (0 <= Qminb 1 x <= 1)%Q.
Proof. intros H. destruct (Qminb_cases 1 x) as [E|E]; rewrite E;
         pose proof (Qminb_lb 1 x) as [B _]; rewrite E in B; lra. Qed.

Section Scores.
Context {U : Unicode}.

Import KnowledgeEngine.

Lemma tokenOverlapScore_range (a b : value) :
  (0 <= tokenOverlapScore a b <= 1)%Q.
Proof.
  unfold tokenOverlapScore. cbv zeta.
  set (A := uniq (tokenize a)). set (B := uniq (tokenize b)).
  destruct (List.length A =? 0)%nat eqn:Za; [simpl; lra|].
  destruct (List.length B =? 0)%nat eqn:Zb; [simpl; lra|].
  cbn [orb]. apply Nat.eqb_neq in Za.
  pose proof (uniq_app_length B (uniq_NoDup (tokenize a))) as L. fold A in L.
  pose proof (filter_length_le (arrIncludes B) A).
  apply ratio_bounds; lia.
Qed.

Lemma lcsRatio_range (a b : value) : (0 <= lcsRatio a b <= 1)%Q.
Proof. unfold lcsRatio. cbv zeta. apply Qminb_range, ratio_nonneg. Qed.

Lemma keywordHitScore_range (text : value) (entry : Entry) :
  (0 <= keywordHitScore text entry <= 1)%Q.
Proof.
  unfold keywordHitScore. cbv zeta.
  destruct (_ =? 0)%nat; [lra|].
  destruct (_ =? 0)%nat; [lra|].
  apply Qminb_range, ratio_nonneg.
Qed.

Lemma scoreCandidate_range_aux (text : value) (entry : Entry) :
  (0 <= fst (scoreCandidate text entry) <= 1)%Q.
Proof.
  unfold scoreCandidate. cbv zeta. cbn [fst].
  set (a := VStr (ensureString text)).
  set (b := VStr (if nonEmpty (title entry) then title entry else snippet entry)).
  pose proof (tokenOverlapScore_range a b).
  pose proof (lcsRatio_range a b).
  pose proof (keywordHitScore_range a entry).
  unfold tokenOverlapWeight, lcsWeight, keywordHitWeight. lra.
Qed.

(** X2. Each component of [scoreCandidate] lies between 0 and 1, and
    so does the score, the weights adding up to 1. *)
Theorem scoreCandidate_range (text : value) (entry : Entry) :
  let sc := scoreCandidate text entry in
  (0 <= tokenOverlap (snd sc) <= 1)%Q /\
  (0 <= lcs (snd sc) <= 1)%Q /\
  (0 <= keywordHit (snd sc) <= 1)%Q /\
  (fst sc == (45 # 100) * tokenOverlap (snd sc) + (35 # 100) * lcs (snd sc)
             + (20 # 100) * keywordHit (snd sc))%Q /\
  (0 <= fst sc <= 1)%Q.
Proof.
  cbv zeta.
  split; [|split; [|split; [|split]]];
    [ apply tokenOverlapScore_range | apply lcsRatio_range
    | apply keywordHitScore_range | reflexivity
    | apply scoreCandidate_range_aux ].
Qed.

(** X3. A text scored against itself: the overlap of the tokens is 1 as
    soon as the text has a token, and the ratio of the common
    subsequence is 1 for a text of 1 to 300 characters; so an entry
    whose title is such a query scores 0.8 at least. *)
Theorem scoreCandidate_of_title (text : jsstr) (entry : Entry) :
  (tokenize (VStr text) <> [] ->
   (tokenOverlapScore (VStr text) (VStr text) == 1)%Q) /\
  ((1 <= List.length text <= 300)%nat ->
   lcsRatio (VStr text) (VStr text) = 1%Q) /\
  (tokenize (VStr text) <> [] -> (1 <= List.length text <= 300)%nat ->
   title entry = text ->
   (8 # 10 <= fst (scoreCandidate (VStr text) entry))%Q).
Proof.
  assert (T : tokenize (VStr text) <> [] ->
              (tokenOverlapScore (VStr text) (VStr text) == 1)%Q).
  { intros H. unfold tokenOverlapScore. cbv zeta.
    set (A := uniq (tokenize (VStr text))).
    assert (LA : (0 < List.length A)%nat).
    { destruct (tokenize (VStr text)) as [|t l] eqn:X; [congruence|].
      assert (I : In t A) by (apply uniq_In; left; reflexivity).
      destruct A; [destruct I | simpl; lia]. }
    destruct (Nat.eqb_spec (List.length A) 0); [lia|]. cbn [orb].
    rewrite filter_all
      by (apply Forall_forall; intros x Hx; apply arrIncludes_In, Hx).
    unfold uniq. rewrite fold_left_app. fold (uniq A).
    rewrite (@uniq_fixed A) by apply uniq_NoDup.
    rewrite uniq_from_fixed by auto.
    apply ratio_one, LA. }
  assert (L : (1 <= List.length text <= 300)%nat ->
              lcsRatio (VStr text) (VStr text) = 1%Q).
  { intros H. unfold lcsRatio. cbv zeta.
    pose proof (@lcsLength_chars U text text) as X.
    apply LongestCommon_self in X; try lia. rewrite X.
    cbn [ensureString ToString]. rewrite Nat.max_id.
    destruct (Nat.eqb_spec (List.length text) 0); [lia|].
    unfold Qminb.
    destruct (Qle_bool 1 (ofNat (List.length text) / ofNat (List.length text)))
      eqn:E; [reflexivity|].
    apply Qle_bool_false in E. rewrite ratio_one in E by lia. lra. }
  split; [exact T|]. split; [exact L|].
  intros H Len Ti. unfold scoreCandidate. cbv zeta. cbn [fst].
  cbn [ensureString ToString]. rewrite Ti.
  replace (nonEmpty text) with true by (destruct text; simpl in *; [lia|reflexivity]).
  rewrite (L Len), (T H).
  pose proof (keywordHitScore_range (VStr text) entry).
  unfold tokenOverlapWeight, lcsWeight, keywordHitWeight. lra.
Qed.

End Scores.

Lemma scoreCandidate_of_title_witness :
  let entry := {| KnowledgeEngine.id := VNull;
                  KnowledgeEngine.title := str "cut gloves";
                  KnowledgeEngine.snippet := [];
                  KnowledgeEngine.url := [];
                  KnowledgeEngine.type_ := [];
                  KnowledgeEngine.keywords := [];
                  KnowledgeEngine.source := [] |} in
  (KnowledgeEngine.tokenOverlapScore (Examples.s "cut gloves")
                                     (Examples.s "cut gloves") == 1)%Q /\
  KnowledgeEngine.lcsRatio (Examples.s "cut gloves") (Examples.s "cut gloves")
  = 1%Q /\
  (8 # 10 <= fst (KnowledgeEngine.scoreCandidate (Examples.s "cut gloves")
                                                 entry))%Q.
Proof.
  intros entry.
  destruct (@scoreCandidate_of_title Latin_Arabic (str "cut gloves") entry)
    as (A & B & C).
  split; [|split].
  - apply A. vm_compute. discriminate.
  - apply B. vm_compute. lia.
  - apply C; [vm_compute; discriminate | vm_compute; lia | reflexivity].
Defined.

(* ================================================================== *)
(** * Sorted results *)
(* ================================================================== *)

Section SortedBy.
Variable A : Type.
Variable before : A -> A -> bool.
Variable R : A -> A -> Prop.
Variable P : A -> Prop.
Hypothesis R_trans : forall x y z, R x y -> R y z -> R x z.
Hypothesis before_R : forall x y, P x -> P y -> before x y = true -> R x y.
Hypothesis after_R : forall x y, P x -> P y -> before x y = false -> R y x.

Lemma insertSorted_sorted (x : A) (l : list A) :
  P x -> Forall P l ->
  StronglySorted R l -> StronglySorted R (insertSorted before x l).
Proof.
  intros Px Pl H. induction H as [|y l Hl IH Hy]; simpl.
  - repeat constructor.
  - inversion Pl as [|? ? Py Pl']; subst.
    destruct (before x y) eqn:E.
    + constructor; [constructor; assumption|].
      constructor; [apply before_R; assumption|].
      eapply Forall_impl; [|exact Hy].
      intros z Hz. eapply R_trans; [apply before_R; eassumption | exact Hz].
    + constructor; [apply IH, Pl'|].
      eapply Permutation_Forall; [symmetry; apply insertSorted_perm|].
      constructor; [apply after_R; assumption | exact Hy].
Qed.

Lemma sortBy_sorted (l : list A) :
  Forall P l -> StronglySorted R (sortBy before l).
Proof.
  induction 1 as [|x l Px Pl IH]; simpl; [constructor|].
  apply insertSorted_sorted; auto.
  eapply Permutation_Forall; [symmetry; apply sortBy_perm | exact Pl].
Qed.

End SortedBy.

Lemma sortBy_In (A : Type) (before : A -> A -> bool) (l : list A) (x : A) :
  In x (sortBy before l) <-> In x l.
Proof.
  split; apply Permutation_in; [|symmetry]; apply sortBy_perm.
Qed.

Lemma StronglySorted_firstn (A : Type) (R : A -> A -> Prop) (n : nat) (l : list A) :
  StronglySorted R l -> StronglySorted R (firstn n l).
Proof.
  intros H. revert n. induction H as [|x l Hl IH Hx]; intros [|n]; simpl;
    try constructor; auto.
  apply Forall_firstn_of, Hx.
Qed.

Lemma slice0_sorted (A : Type) (R : A -> A -> Prop) (n : Z) (l : list A) :
  StronglySorted R l -> StronglySorted R (slice0 n l).
Proof. intros H. unfold slice0. destruct (0 <=? n)%Z; apply StronglySorted_firstn, H. Qed.

Lemma firstn_In (A : Type) (n : nat) (l : list A) (x : A) :
  In x (firstn n l) -> In x l.
Proof.
  revert n. induction l as [|y l IH]; intros n H; destruct n; simpl in *;
    try tauto.
  destruct H as [H|H]; eauto.
Qed.

Lemma slice0_In (A : Type) (n : Z) (l : list A) (x : A) :
  In x (slice0 n l) -> In x l.
Proof. unfold slice0. destruct (0 <=? n)%Z; apply firstn_In. Qed.

Lemma slice0_length (A : Type) (n : Z) (l : list A) :
  (0 <= n)%Z -> (Z.of_nat (List.length (slice0 n l)) <= n)%Z.
Proof.
  intros H. unfold slice0. destruct (Z.leb_spec 0 n); [|lia].
  rewrite length_firstn. lia.
Qed.

Lemma slice0_all (A : Type) (n : Z) (l : list A) :
  (Z.of_nat (List.length l) <= n)%Z -> slice0 n l = l.
Proof.
  intros H. unfold slice0. destruct (Z.leb_spec 0 n); [|lia].
  apply firstn_all2. lia.
Qed.

Lemma collect_In (A B : Type) (f : A -> option B) (l : list A) (y : B) :
  In y (KnowledgeEngine.collect f l) <-> exists x, In x l /\ f x = Some y.
Proof.
  unfold KnowledgeEngine.collect. rewrite in_flat_map. split.
  - intros (x & H & Hy). exists x. split; [exact H|].
    destruct (f x); [destruct Hy as [->|[]]; reflexivity | destruct Hy].
  - intros (x & H & E). exists x. split; [exact H|]. rewrite E. left. reflexivity.
Qed.

Lemma collect_nil (A B : Type) (f : A -> option B) (l : list A) :
  KnowledgeEngine.collect f l = [] -> forall x, In x l -> f x = None.
Proof.
  intros H x Hx. destruct (f x) as [y|] eqn:E; [|reflexivity].
  assert (I : In y (KnowledgeEngine.collect f l))
    by (apply collect_In; exists x; auto).
  rewrite H in I. destruct I.
Qed.

Lemma Qle_bool_total (a b : Q) : Qle_bool a b = false -> Qle_bool b a = true.
Proof. intros H. apply Qle_bool_iff. apply Qle_bool_false in H. lra. Qed.

(* ================================================================== *)
(** * The results of [query] *)
(* ================================================================== *)

Lemma StronglySorted_map (A B : Type) (R : A -> A -> Prop) (S : B -> B -> Prop)
      (f : A -> B) (l : list A) :
  (forall x y, R x y -> S (f x) (f y)) ->
  StronglySorted R l -> StronglySorted S (List.map f l).
Proof.
  intros H. induction 1 as [|x l Hl IH Hx]; simpl; constructor; auto.
  apply Forall_map. eapply Forall_impl; [|exact Hx]. intros y. apply H.
Qed.

Lemma StronglySorted_filter (A : Type) (R : A -> A -> Prop) (p : A -> bool)
      (l : list A) :
  StronglySorted R l -> StronglySorted R (filter p l).
Proof.
  induction 1 as [|x l Hl IH Hx]; simpl; [constructor|].
  destruct (p x); [|exact IH]. constructor; [exact IH|].
  apply Forall_forall. intros y Hy. apply filter_In in Hy.
  apply (proj1 (Forall_forall _ _) Hx). tauto.
Qed.

Lemma sorted_head (A : Type) (key : A -> Q) (x y : A) (l : list A) :
  descending key (x :: l) -> In y (x :: l) -> (key y <= key x)%Q.
Proof.
  intros D [<-|H]; [lra|].
  inversion D as [|? ? _ F]; subst.
  apply (proj1 (Forall_forall _ _) F y H).
Qed.

Lemma slice0_head (A : Type) (n : Z) (l : list A) (x : A) (r : list A) :
  slice0 n l = x :: r -> exists r', l = x :: r'.
Proof.
  unfold slice0. destruct l as [|y l].
  - destruct (0 <=? n)%Z; rewrite firstn_nil; discriminate.
  - destruct (0 <=? n)%Z.
    + destruct (Z.to_nat n); [discriminate|].
      cbn [firstn]. intros H. inversion H. eauto.
    + destruct (Nat.sub (List.length (y :: l)) (Z.to_nat (- n)));
        [discriminate|].
      cbn [firstn]. intros H. inversion H. eauto.
Qed.

Lemma slice0_nonnil (A : Type) (n : Z) (l : list A) :
  (1 <= n)%Z -> l <> [] -> slice0 n l <> [].
Proof.
  intros N L. unfold slice0. destruct (Z.leb_spec 0 n); [|lia].
  destruct l as [|x l]; [congruence|].
  destruct (Z.to_nat n) eqn:E; [lia|]. discriminate.
Qed.

Section Query.
Context {U : Unicode}.

Import KnowledgeEngine.

(** The state in which [query] scores the entries. *)
Lemma query_state (st : State) (text : value) (topN : option Z) (net : Net) :
  ensureString text <> [] ->
  snd (query st text topN net)
  = if negb (_indexInitialized st) && truthy (_kbPath st)
    then snd (init st (_kbPath st) net) else st.
Proof.
  intros H. unfold query.
  destruct (ensureString text); [congruence|]. reflexivity.
Qed.

Lemma query_unfold (st : State) (text : value) (topN : option Z) (net : Net) :
  ensureString text <> [] ->
  let raw := ensureString text in
  let kb := _kb (snd (query st text topN net)) in
  let found := sortBy byScore (collect (scored raw) kb) in
  fst (query st text topN net)
  = slice0 (topNOf topN)
           (if (List.length found =? 0)%nat
            then sortBy byScoreThenTitle
                        (collect (fallback (normalizeText (VStr raw))) kb)
            else found).
Proof.
  intros H. cbv zeta. rewrite (@query_state st text topN net H).
  unfold query. destruct (ensureString text); [congruence|]. reflexivity.
Qed.

Lemma scored_fields (raw : jsstr) (e : Entry) (r : Result) :
  scored raw e = Some r ->
  r_id r = id e /\ r_title r = title e /\ r_snippet r = snippet e /\
  r_url r = url e /\
  r_score r = fst (scoreCandidate (VStr raw) e) /\
  r_components r = Some (snd (scoreCandidate (VStr raw) e)) /\
  (1 # 10 <= r_score r <= 1)%Q.
Proof.
  unfold scored. cbv zeta.
  destruct (Qle_bool minScoreThreshold (fst (scoreCandidate (VStr raw) e)))
    eqn:E; [|discriminate].
  intros X. inversion X; subst; clear X. cbn.
  repeat split; try reflexivity.
  - apply Qle_bool_iff in E. exact E.
  - apply (scoreCandidate_range_aux (VStr raw) e).
Qed.

Lemma fallback_fields (t : jsstr) (e : Entry) (r : Result) :
  fallback t e = Some r ->
  r_id r = id e /\ r_title r = title e /\ r_snippet r = snippet e /\
  r_url r = url e /\ r_score r = (5 # 100)%Q /\ r_components r = None /\
  t <> [] /\
  includes (normalizeText
              (VStr (title e ++ [SP] ++ snippet e ++ [SP] ++
                     join [SP] (keywords e)))) t = true.
Proof.
  unfold fallback. cbv zeta.
  destruct (nonEmpty t) eqn:N; [|discriminate]. cbn [andb].
  destruct (includes _ t) eqn:I; [|discriminate].
  intros X. inversion X; subst; clear X. cbn.
  repeat split; try reflexivity.
  intros ->. discriminate.
Qed.

Lemma byScore_sorted (l : list Result) : descending r_score (sortBy byScore l).
Proof.
  apply (@sortBy_sorted _ byScore (fun a b => (r_score b <= r_score a)%Q)
                        (fun _ => True)).
  - intros x y z H1 H2. lra.
  - intros x y _ _ H. apply Qle_bool_iff, H.
  - intros x y _ _ H. apply Qle_bool_iff, Qle_bool_total, H.
  - apply Forall_forall. auto.
Qed.

Lemma byTitle_sorted (l : list Result) :
  Forall (fun r => r_score r = (5 # 100)%Q) l ->
  ascending (fun r => List.length (r_title r)) (sortBy byScoreThenTitle l).
Proof.
  apply (@sortBy_sorted
           _ byScoreThenTitle
           (fun a b => (List.length (r_title a) <= List.length (r_title b))%nat)
           (fun r => r_score r = (5 # 100)%Q)).
  - intros x y z H1 H2. lia.
  - intros x y Hx Hy. unfold byScoreThenTitle. rewrite Hx, Hy. simpl.
    apply Nat.leb_le.
  - intros x y Hx Hy. unfold byScoreThenTitle. rewrite Hx, Hy. simpl.
    intros H. apply Nat.leb_gt in H. lia.
Qed.

Lemma constant_descending (l : list Result) (q : Q) :
  Forall (fun r => r_score r = q) l -> descending r_score l.
Proof.
  induction 1 as [|x l Hx Hl IH]; constructor; auto.
  eapply Forall_impl; [|exact Hl]. simpl. intros y Hy. rewrite Hx, Hy. lra.
Qed.

(** What [query] returns for a text that is not empty. *)
Lemma query_facts (st : State) (text : value) (topN : option Z) (net : Net) :
  ensureString text <> [] ->
  let raw := ensureString text in
  let res := fst (query st text topN net) in
  let kb := _kb (snd (query st text topN net)) in
  (forall r, In r res ->
     exists e, In e kb /\ r_id r = id e /\ r_title r = title e /\
               r_snippet r = snippet e /\ r_url r = url e) /\
  ((forall r, In r res ->
      (1 # 10 <= r_score r <= 1)%Q /\
      exists e, In e kb /\ r_title r = title e /\
                r_score r = fst (scoreCandidate (VStr raw) e) /\
                r_components r = Some (snd (scoreCandidate (VStr raw) e))) \/
   ((forall r, In r res -> r_score r = (5 # 100)%Q /\ r_components r = None) /\
    (forall e, In e kb -> (fst (scoreCandidate (VStr raw) e) < 1 # 10)%Q))) /\
  descending r_score res /\
  (match topN with Some n => (0 <= n)%Z | None => True end ->
   (Z.of_nat (List.length res) <= topNOf topN)%Z).
Proof.
  intros H raw res kb.
  pose proof (@query_unfold st text topN net H) as E. cbv zeta in E.
  fold raw res kb in E.
  set (found := sortBy byScore (collect (scored raw) kb)) in *.
  set (back := sortBy byScoreThenTitle
                      (collect (fallback (normalizeText (VStr raw))) kb)) in *.
  assert (F : forall r, In r found -> exists e, In e kb /\ scored raw e = Some r).
  { intros r Hr. apply sortBy_In, collect_In in Hr. exact Hr. }
  assert (B : forall r, In r back ->
                exists e, In e kb /\
                          fallback (normalizeText (VStr raw)) e = Some r).
  { intros r Hr. apply sortBy_In, collect_In in Hr. exact Hr. }
  destruct (List.length found =? 0)%nat eqn:Z.
  - apply length_zero_nil in Z.
    assert (N : forall e, In e kb -> scored raw e = None).
    { apply collect_nil. unfold found in Z.
      destruct (collect (scored raw) kb) as [|r l] eqn:C; [reflexivity|].
      exfalso. assert (I : In r (sortBy byScore (r :: l)))
        by (apply sortBy_In; left; reflexivity).
      rewrite Z in I. destruct I. }
    assert (S5 : Forall (fun r => r_score r = (5 # 100)%Q) back).
    { apply Forall_forall. intros r Hr. destruct (B r Hr) as (e & _ & X).
      apply fallback_fields in X. tauto. }
    split; [|split; [|split]].
    + intros r Hr. rewrite E in Hr. apply slice0_In in Hr.
      destruct (B r Hr) as (e & He & X). apply fallback_fields in X.
      exists e. tauto.
    + right. split.
      * intros r Hr. rewrite E in Hr. apply slice0_In in Hr.
        destruct (B r Hr) as (e & He & X). apply fallback_fields in X. tauto.
      * intros e He. specialize (N e He). unfold scored in N. cbv zeta in N.
        destruct (Qle_bool minScoreThreshold (fst (scoreCandidate (VStr raw) e)))
          eqn:Q; [discriminate|].
        apply Qle_bool_false in Q. exact Q.
    + rewrite E. apply slice0_sorted.
      apply (constant_descending (q := (5 # 100)%Q)), S5.
    + intros T. rewrite E. apply slice0_length.
      unfold topNOf, defaultTopN. destruct topN as [n|]; [|lia].
      destruct (Z.eqb_spec n 0); lia.
  - split; [|split; [|split]].
    + intros r Hr. rewrite E in Hr. apply slice0_In in Hr.
      destruct (F r Hr) as (e & He & X). apply scored_fields in X.
      exists e. tauto.
    + left. intros r Hr. rewrite E in Hr. apply slice0_In in Hr.
      destruct (F r Hr) as (e & He & X). apply scored_fields in X.
      split; [tauto|]. exists e. tauto.
    + rewrite E. apply slice0_sorted, byScore_sorted.
    + intros T. rewrite E. apply slice0_length.
      unfold topNOf, defaultTopN. destruct topN as [n|]; [|lia].
      destruct (Z.eqb_spec n 0); lia.
Qed.

(** X4. What [query] returns for a text that is not empty. Every result
    is an entry of the knowledge base with its fields. Either every
    result was scored, with the score of [scoreCandidate] between the
    threshold 0.1 and 1, or every result comes from the fallback on
    substrings, with the score 0.05, and then no entry scores above the
    threshold. As soon as an entry scores above the threshold the
    results are scored ones, and there is one at least when [topN] is
    positive. The results are in the order of decreasing score, a first
    result that was scored having the best score of all entries, and
    there are [topN] of them at most ([topN] a positive integer, 6 by
    default). *)
Theorem query_results (st : State) (text : value) (topN : option Z) (net : Net) :
  ensureString text <> [] ->
  let raw := ensureString text in
  let res := fst (query st text topN net) in
  let kb := _kb (snd (query st text topN net)) in
  let scoreOf := fun e => fst (scoreCandidate (VStr raw) e) in
  (forall r, In r res ->
     exists e, In e kb /\ r_id r = id e /\ r_title r = title e /\
               r_snippet r = snippet e /\ r_url r = url e) /\
  ((forall r, In r res ->
      (1 # 10 <= r_score r <= 1)%Q /\
      exists e, In e kb /\ r_title r = title e /\
                r_score r = scoreOf e /\
                r_components r = Some (snd (scoreCandidate (VStr raw) e))) \/
   ((forall r, In r res -> r_score r = (5 # 100)%Q /\ r_components r = None) /\
    (forall e, In e kb -> (scoreOf e <= 1 # 10)%Q))) /\
  ((exists e, In e kb /\ (1 # 10 < scoreOf e)%Q) ->
   (forall r, In r res -> (1 # 10 <= r_score r)%Q) /\
   ((1 <= topNOf topN)%Z -> res <> [])) /\
  (forall r l, res = r :: l -> (1 # 10 <= r_score r)%Q ->
               forall e, In e kb -> (scoreOf e <= r_score r)%Q) /\
  descending r_score res /\
  (match topN with Some n => (0 <= n)%Z | None => True end ->
   (Z.of_nat (List.length res) <= topNOf topN)%Z).
Proof.
  intros H raw res kb scoreOf.
  destruct (@query_facts st text topN net H) as (P & S & D & L).
  cbv zeta in P, S, D, L. fold raw res kb in P, S, D, L.
  pose proof (@query_unfold st text topN net H) as E. cbv zeta in E.
  fold raw res kb in E.
  set (found := sortBy byScore (collect (scored raw) kb)) in *.
  assert (F : forall r, In r found -> exists e, In e kb /\ scored raw e = Some r).
  { intros r Hr. apply sortBy_In, collect_In in Hr. exact Hr. }
  assert (Reach : forall e, In e kb -> (1 # 10 <= scoreOf e)%Q ->
                            exists r, In r found /\ r_score r = scoreOf e).
  { intros e He G. unfold scoreOf in G.
    assert (X : exists r, scored raw e = Some r /\ r_score r = scoreOf e).
    { unfold scored. cbv zeta.
      replace (Qle_bool minScoreThreshold (fst (scoreCandidate (VStr raw) e)))
        with true by (symmetry; apply Qle_bool_iff; exact G).
      eexists. split; reflexivity. }
    destruct X as (r & X & Sr). exists r. split; [|exact Sr].
    apply sortBy_In, collect_In. exists e. auto. }
  split; [exact P|]. split; [|split; [|split; [|split; [exact D | exact L]]]].
  - destruct S as [S|[S1 S2]]; [left; exact S|].
    right. split; [exact S1|]. intros e He. specialize (S2 e He).
    unfold scoreOf. lra.
  - intros (e & He & G).
    destruct (Reach e He ltac:(lra)) as (r0 & Hr0 & _).
    assert (NE : (List.length found =? 0)%nat = false).
    { destruct found; [destruct Hr0 | reflexivity]. }
    rewrite NE in E. split.
    + intros r Hr. rewrite E in Hr. apply slice0_In in Hr.
      destruct (F r Hr) as (e' & _ & X). apply scored_fields in X. tauto.
    + intros T. rewrite E. apply slice0_nonnil; [exact T|].
      intros Z. rewrite Z in Hr0. destruct Hr0.
  - intros r l R G e He.
    destruct (Qlt_le_dec (scoreOf e) (1 # 10)) as [X|X]; [lra|].
    destruct (Reach e He X) as (r0 & Hr0 & Sr0).
    assert (NE : (List.length found =? 0)%nat = false).
    { destruct found; [destruct Hr0 | reflexivity]. }
    rewrite NE in E. rewrite R in E. symmetry in E.
    apply slice0_head in E. destruct E as (r' & E).
    pose proof (byScore_sorted (collect (scored raw) kb)) as Srt.
    fold found in Srt. rewrite E in Srt, Hr0.
    rewrite <- Sr0. apply (sorted_head Srt Hr0).
Qed.

(** X5. The fallback of [query]: when no entry of the knowledge base
    reaches the threshold, the results are entries whose title, snippet
    and keywords, normalized, contain the normalized text, which is not
    empty; each has the score 0.05, and they come in the order of
    increasing length of the title. *)
Theorem query_fallback (st : State) (text : value) (topN : option Z) (net : Net) :
  ensureString text <> [] ->
  let raw := ensureString text in
  let t := normalizeText (VStr raw) in
  let res := fst (query st text topN net) in
  let kb := _kb (snd (query st text topN net)) in
  (forall e, In e kb -> (fst (scoreCandidate (VStr raw) e) < 1 # 10)%Q) ->
  (forall r, In r res ->
     r_score r = (5 # 100)%Q /\ r_components r = None /\ t <> [] /\
     exists e, In e kb /\ r_id r = id e /\ r_title r = title e /\
               includes (normalizeText
                           (VStr (title e ++ [SP] ++ snippet e ++ [SP] ++
                                  join [SP] (keywords e)))) t = true) /\
  ascending (fun r => List.length (r_title r)) res /\
  (t = [] -> res = []).
Proof.
  intros H raw t res kb Low.
  pose proof (@query_unfold st text topN net H) as E. cbv zeta in E.
  fold raw res kb in E. fold t in E.
  assert (C : collect (scored raw) kb = []).
  { destruct (collect (scored raw) kb) as [|r l] eqn:C; [reflexivity|].
    assert (I : In r (collect (scored raw) kb)) by (rewrite C; left; reflexivity).
    apply collect_In in I. destruct I as (e & He & X).
    apply scored_fields in X. specialize (Low e He).
    destruct X as (_ & _ & _ & _ & S & _ & R). rewrite S in R. lra. }
  rewrite C in E. cbn [sortBy List.length Nat.eqb] in E.
  set (back := sortBy byScoreThenTitle (collect (fallback t) kb)) in *.
  assert (B : forall r, In r back -> exists e, In e kb /\ fallback t e = Some r).
  { intros r Hr. apply sortBy_In, collect_In in Hr. exact Hr. }
  split; [|split].
  - intros r Hr. rewrite E in Hr. apply slice0_In in Hr.
    destruct (B r Hr) as (e & He & X). apply fallback_fields in X.
    repeat split; try tauto. exists e. tauto.
  - rewrite E. apply slice0_sorted. unfold back. apply byTitle_sorted.
    apply Forall_forall. intros r Hr. apply collect_In in Hr.
    destruct Hr as (e & _ & X). apply fallback_fields in X. tauto.
  - intros T. destruct res as [|r l] eqn:R; [reflexivity|]. exfalso.
    assert (Hr : In r back).
    { apply (slice0_In (topNOf topN)). rewrite <- E. left. reflexivity. }
    destruct (B r Hr) as (e & _ & X). apply fallback_fields in X. tauto.
Qed.

(** X6. The lazy load of [query]: on a state that is not initialized
    and has a path, [query] gives the results and the state of [init]
    with that path followed by [query], whether the load succeeds or
    fails. *)
Theorem query_lazy_init (st : State) (text : value) (topN : option Z) (net : Net) :
  ensureString text <> [] ->
  _indexInitialized st = false ->
  truthy (_kbPath st) = true ->
  query st text topN net
  = query (snd (init st (_kbPath st) net)) text topN net.
Proof.
  intros H I P. unfold query.
  destruct (ensureString text) as [|c raw]; [congruence|]. cbn [isEmpty].
  rewrite I, P. cbn [negb andb].
  set (st1 := snd (init st (_kbPath st) net)).
  assert (K : _kbPath st1 = _kbPath st).
  { unfold st1, init.
    destruct (_kbPath st) eqn:PE; try discriminate P;
      rewrite P; cbn [negb];
      (destruct (kbFile net) as [| | |json]; try reflexivity;
       destruct (recordsOf json); reflexivity). }
  destruct (_indexInitialized st1) eqn:I1; cbn [negb andb]; [reflexivity|].
  rewrite K, P. fold st1. reflexivity.
Qed.

(** X28. [bestMatches] gives the results of [query] for [topN = n] (6
    by default) reduced to their identifier, title, snippet, URL and
    score, in the same order: for a text that is not empty they are
    entries of the knowledge base, [n] at most, by decreasing score,
    each score being 0.05 or between 0.1 and 1. *)
Theorem bestMatches_summaries (st : State) (text : value) (n : option Z)
        (net : Net) :
  ensureString text <> [] ->
  let res := fst (bestMatches st text n net) in
  let kb := _kb (snd (bestMatches st text n net)) in
  snd (bestMatches st text n net) = snd (query st text n net) /\
  List.length res = List.length (fst (query st text n net)) /\
  descending s_score res /\
  (forall s, In s res ->
     ((1 # 10 <= s_score s <= 1)%Q \/ s_score s = (5 # 100)%Q) /\
     exists e, In e kb /\ s_id s = id e /\ s_title s = title e /\
               s_snippet s = snippet e /\ s_url s = url e) /\
  (match n with Some k => (0 <= k)%Z | None => True end ->
   (Z.of_nat (List.length res) <= topNOf n)%Z).
Proof.
  intros H res kb. unfold res, kb, bestMatches. cbv zeta. cbn [fst snd].
  destruct (@query_facts st text n net H) as (P & S & D & L). cbv zeta in *.
  set (q := fst (query st text n net)) in *.
  split; [reflexivity|]. split; [apply length_map|]. split; [|split].
  - apply (StronglySorted_map (R := fun a b => (r_score b <= r_score a)%Q));
      [|exact D].
    intros x y X. exact X.
  - intros s Hs. apply in_map_iff in Hs. destruct Hs as (r & <- & Hr).
    cbn [s_score s_id s_title s_snippet s_url]. split.
    + destruct S as [S|[S _]]; [left; apply (S r Hr) | right; apply (S r Hr)].
    + apply (P r Hr).
  - intros T. rewrite length_map. apply L, T.
Qed.

End Query.

Lemma query_results_witness :
  let res := fst (KnowledgeEngine.query Examples.loaded (Examples.s "a b") None
                                        Examples.offline) in
  descending KnowledgeEngine.r_score res /\
  (Z.of_nat (List.length res) <= 6)%Z /\
  res <> [].
Proof.
  destruct (@query_results Latin_Arabic Examples.loaded (Examples.s "a b") None
                           Examples.offline) as (_ & _ & N & _ & D & L).
  - vm_compute. discriminate.
  - split; [exact D|]. split; [apply L; exact I|].
    apply N; [|vm_compute; discriminate].
    exists (KnowledgeEngine.normalizeEntry
              (VObj [(str "title", Examples.s "a b")]) 0).
    split; [vm_compute; left; reflexivity | vm_compute; reflexivity].
Defined.

Lemma query_fallback_witness :
  let res := fst (KnowledgeEngine.query Examples.snippetOnly (Examples.s "QQQ!")
                                        None Examples.offline) in
  (forall r, In r res -> KnowledgeEngine.r_score r = (5 # 100)%Q) /\
  res <> [].
Proof.
  destruct (@query_fallback Latin_Arabic Examples.snippetOnly
                            (Examples.s "QQQ!") None Examples.offline)
    as (F & _ & _).
  - vm_compute. discriminate.
  - intros e [<-|[]]. vm_compute. reflexivity.
  - split.
    + intros r Hr. apply (F r Hr).
    + vm_compute. discriminate.
Defined.

Lemma query_lazy_init_witness :
  KnowledgeEngine.query Examples.reloaded (Examples.s "a b") None Examples.online
  = KnowledgeEngine.query
      (snd (KnowledgeEngine.init Examples.reloaded
                                 (KnowledgeEngine._kbPath Examples.reloaded)
                                 Examples.online))
      (Examples.s "a b") None Examples.online.
Proof.
  apply (@query_lazy_init Latin_Arabic Examples.reloaded (Examples.s "a b") None
                          Examples.online).
  - vm_compute. discriminate.
  - reflexivity.
  - reflexivity.
Defined.

Lemma bestMatches_summaries_witness :
  List.map KnowledgeEngine.s_title
           (fst (KnowledgeEngine.bestMatches Examples.loaded (Examples.s "a b")
                                             (Some 2%Z) Examples.offline))
  = [str "a b"] /\
  (Z.of_nat (List.length
               (fst (KnowledgeEngine.bestMatches Examples.loaded
                                                 (Examples.s "a b")
                                                 (Some 2%Z) Examples.offline)))
   <= 2)%Z.
Proof.
  destruct (@bestMatches_summaries Latin_Arabic Examples.loaded (Examples.s "a b")
                                   (Some 2%Z) Examples.offline)
    as (_ & _ & _ & _ & L); [vm_compute; discriminate|].
  split; [reflexivity|]. apply L. simpl. lia.
Defined.

(* ================================================================== *)
(** * Words, intents and questions *)
(* ================================================================== *)

Section Words.
Context {U : Unicode}.

Import KnowledgeEngine.

(** In a text without a word character no position is a word
    boundary. *)
Lemma testWord_no_word (kw txt : jsstr) (prev : option char) :
  match prev with Some c => isWordChar c = false | None => True end ->
  forallb (fun c => negb (isWordChar c)) txt = true ->
  testWord kw prev txt = false.
Proof.
  revert prev. induction txt as [|c r IH]; intros prev P H.
  - simpl. unfold boundary. destruct prev as [p|]; [rewrite P|]; reflexivity.
  - cbn [forallb] in H. apply andb_true_iff in H. destruct H as [Hc Hr].
    apply negb_true_iff in Hc.
    cbn [testWord hd_error]. rewrite (IH (Some c) Hc Hr).
    unfold boundary at 1. rewrite Hc.
    destruct prev as [p|]; [rewrite P|]; reflexivity.
Qed.

Lemma detectIn_no_word (t : jsstr) (intents : list Intent) :
  forallb (fun c => negb (isWordChar c)) t = true ->
  detectIn t intents = None.
Proof.
  intros H. induction intents as [|i l IH]; [reflexivity|].
  cbn [detectIn]. cbv zeta.
  replace (existsb (fun p => testWord p None t)
                   (filter nonEmpty (intent_keywords i))) with false; [exact IH|].
  symmetry. apply not_true_is_false. intros E.
  apply existsb_exists in E. destruct E as (p & _ & E).
  rewrite testWord_no_word in E; [discriminate | exact I | exact H].
Qed.

Lemma existsb_none (A : Type) (p : A -> bool) (l : list A) :
  (forall x, In x l -> p x = false) -> existsb p l = false.
Proof.
  intros H. apply not_true_is_false. intros E.
  apply existsb_exists in E. destruct E as (x & Hx & E).
  rewrite (H x Hx) in E. discriminate.
Qed.

Lemma detectIn_none (t : jsstr) (intents : list Intent) :
  detectIn t intents = None ->
  Forall (fun i => truthy (intent_id i) = true) intents ->
  forall intent kw, In intent intents -> In kw (intent_keywords intent) ->
                    kw <> [] -> testWord kw None t = false.
Proof.
  intros D F. induction F as [|i l Hi Hl IH]; intros intent kw Hin Hkw N.
  - destruct Hin.
  - cbn [detectIn] in D. cbv zeta in D.
    destruct (existsb _ (filter nonEmpty (intent_keywords i))) eqn:E.
    + rewrite Hi in D. discriminate.
    + destruct Hin as [<-|Hin]; [|apply (IH D intent kw Hin Hkw N)].
      destruct (testWord kw None t) eqn:T; [|reflexivity].
      assert (X : existsb (fun p => testWord p None t)
                          (filter nonEmpty (intent_keywords i)) = true).
      { apply existsb_exists. exists kw. split; [|exact T].
        apply filter_In. split; [exact Hkw|]. destruct kw; [congruence|reflexivity]. }
      congruence.
Qed.

Lemma detectIn_some (t : jsstr) (intents : list Intent) (id : value) :
  detectIn t intents = Some id ->
  truthy id = true /\
  exists intent kw, In intent intents /\ intent_id intent = id /\
                    In kw (intent_keywords intent) /\ kw <> [] /\
                    testWord kw None t = true.
Proof.
  induction intents as [|i l IH]; [discriminate|].
  cbn [detectIn]. cbv zeta.
  destruct (existsb _ (filter nonEmpty (intent_keywords i))) eqn:E.
  - destruct (truthy (intent_id i)) eqn:T; [|discriminate].
    intros X. inversion X; subst. split; [exact T|].
    apply existsb_exists in E. destruct E as (kw & Hk & E).
    apply filter_In in Hk. destruct Hk as [Hk N].
    exists i, kw. repeat split; auto; [left; reflexivity|].
    intros ->. discriminate.
  - intros D. destruct (IH D) as (T & intent & kw & H & R).
    split; [exact T|]. exists intent, kw. split; [right; exact H | exact R].
Qed.

Lemma mapi_from_Forall (A B : Type) (P : B -> Prop) (f : A -> nat -> B)
      (i : nat) (l : list A) :
  (forall x j, P (f x j)) -> Forall P (mapi_from f i l).
Proof.
  intros H. revert i. induction l as [|x l IH]; intros i; simpl; constructor; auto.
Qed.

Lemma mapi_from_length (A B : Type) (f : A -> nat -> B) (i : nat) (l : list A) :
  List.length (mapi_from f i l) = List.length l.
Proof. revert i. induction l as [|x l IH]; intros i; simpl; auto. Qed.

Lemma orElse_truthy (a b : value) : truthy b = true -> truthy (orElse a b) = true.
Proof. intros H. unfold orElse. destruct (truthy a) eqn:E; assumption. Qed.

Lemma loaded_ids (r : response) :
  Forall (fun i => truthy (intent_id i) = true) (_loadIntentKeywords r).
Proof.
  unfold _loadIntentKeywords. destruct r; try constructor.
  apply mapi_from_Forall. intros it idx. unfold normalizeIntent. cbv zeta.
  destruct it; try reflexivity; cbn [intent_id]; apply orElse_truthy; reflexivity.
Qed.

Lemma init_intents (st : State) (kbPath : value) (net : Net) :
  _intentKeywords (snd (init st kbPath net))
  = _loadIntentKeywords (intentsFile net).
Proof.
  unfold init. destruct (negb (truthy _)); [reflexivity|].
  destruct (kbFile net) as [| | |json]; try reflexivity.
  destruct (recordsOf json); reflexivity.
Qed.

(** X7. After [init], [detectIntent] answers [null] exactly when the
    text is empty, normalizes to the empty string, or no keyword (not
    empty) of a loaded intent occurs in the normalized text as a whole
    word; an answer that is not [null] is the identifier, never empty,
    of a loaded intent with such a keyword. *)
Theorem detectIntent_after_init (st : State) (kbPath : value) (net : Net)
        (text : value) :
  let st' := snd (init st kbPath net) in
  let t := normalizeText text in
  (detectIntent st' text = None <->
   truthy text = false \/ t = [] \/
   forall intent kw, In intent (_intentKeywords st') ->
                     In kw (intent_keywords intent) -> kw <> [] ->
                     testWord kw None t = false) /\
  (forall id, detectIntent st' text = Some id ->
              truthy id = true /\
              exists intent kw, In intent (_intentKeywords st') /\
                                intent_id intent = id /\
                                In kw (intent_keywords intent) /\ kw <> [] /\
                                testWord kw None t = true).
Proof.
  intros st' t.
  assert (F : Forall (fun i => truthy (intent_id i) = true) (_intentKeywords st')).
  { unfold st'. rewrite init_intents. apply loaded_ids. }
  unfold detectIntent. fold t. split; [split|].
  - destruct (truthy text); cbn [negb]; auto.
    destruct t as [|c r] eqn:T; cbn [isEmpty]; auto.
    intros D. right; right. apply (detectIn_none _ D F).
  - intros [H|[H|H]].
    + rewrite H. reflexivity.
    + destruct (negb (truthy text)); [reflexivity|]. rewrite H. reflexivity.
    + destruct (negb (truthy text)); [reflexivity|].
      destruct (isEmpty t); [reflexivity|].
      destruct (detectIn t (_intentKeywords st')) as [id|] eqn:D; [|reflexivity].
      apply detectIn_some in D.
      destruct D as (_ & intent & kw & H1 & _ & H2 & H3 & H4).
      rewrite (H intent kw H1 H2 H3) in H4. discriminate.
  - intros id. destruct (negb (truthy text)); [discriminate|].
    destruct (isEmpty t); [discriminate|]. apply detectIn_some.
Qed.

Lemma normalizeEntry_id (it : value) (idx : nat) :
  truthy (id (normalizeEntry it idx)) = true.
Proof.
  unfold normalizeEntry. cbv zeta. cbn [id].
  apply orElse_truthy. reflexivity.
Qed.

Lemma normalizeEntry_keywords (it : value) (idx : nat) :
  keywords (normalizeEntry it idx) = [] ->
  tokenize (VStr (title (normalizeEntry it idx))) = [].
Proof.
  unfold normalizeEntry. cbv zeta. cbn [keywords title].
  destruct (_ =? 0)%nat eqn:E.
  - destruct (tokenize _); [reflexivity | discriminate].
  - intros H. rewrite H in E. discriminate.
Qed.

(** X8. A load that succeeds counts the entries it holds and marks the
    index as initialized. Every entry has an identifier that is not
    empty ([id], else [code], else [kb_] and its position), and
    keywords: its own, or, when it has none, the first eight tokens of
    its title, so that only an entry whose title has no token is left
    without keywords. *)
Theorem init_entries (st : State) (kbPath : value) (net : Net) (count : nat) :
  fst (init st kbPath net) = InitOk count ->
  let kb := _kb (snd (init st kbPath net)) in
  List.length kb = count /\
  _indexInitialized (snd (init st kbPath net)) = true /\
  Forall (fun e => truthy (id e) = true /\
                   (keywords e = [] -> tokenize (VStr (title e)) = [])) kb.
Proof.
  unfold init. destruct (negb (truthy _)); [discriminate|].
  destruct (kbFile net) as [| | |json]; try discriminate.
  destruct (recordsOf json) as [records|]; [|discriminate].
  cbn [fst snd _kb _indexInitialized]. intros H. inversion H; subst; clear H.
  split; [reflexivity|]. split; [reflexivity|].
  apply mapi_from_Forall. intros it idx.
  split; [apply normalizeEntry_id | apply normalizeEntry_keywords].
Qed.

End Words.

Lemma detectIntent_after_init_witness :
  let net := {| KnowledgeEngine.intentsFile :=
                  Json (VArr [VObj [(str "id", Examples.s "knowledge");
                                    (str "keywords",
                                     VArr [Examples.s "datasheet"])]]);
                KnowledgeEngine.kbFile := NetworkError |} in
  let st' := snd (KnowledgeEngine.init KnowledgeEngine.initial VUndef net) in
  KnowledgeEngine.detectIntent st' (Examples.s "The Datasheet, please")
  = Some (Examples.s "knowledge") /\
  truthy (Examples.s "knowledge") = true /\
  KnowledgeEngine.detectIntent st' (Examples.s "datasheets") = None.
Proof.
  intros net st'.
  destruct (@detectIntent_after_init
              Latin_Arabic KnowledgeEngine.initial VUndef net
              (Examples.s "The Datasheet, please")) as [_ S].
  destruct (@detectIntent_after_init
              Latin_Arabic KnowledgeEngine.initial VUndef net
              (Examples.s "datasheets")) as [[_ N] _].
  split; [reflexivity|]. split.
  - apply (S (Examples.s "knowledge")). reflexivity.
  - apply N. right; right.
    intros intent kw [<-|[]] [<-|[]] _. reflexivity.
Defined.

Lemma init_entries_witness :
  List.length (KnowledgeEngine._kb Examples.loaded) = 1%nat /\
  Forall (fun e => truthy (KnowledgeEngine.id e) = true)
         (KnowledgeEngine._kb Examples.loaded).
Proof.
  destruct (@init_entries Latin_Arabic KnowledgeEngine.initial VUndef
                          Examples.online 1%nat eq_refl) as (L & _ & F).
  split; [exact L|].
  eapply Forall_impl; [|exact F]. intros e [T _]. exact T.
Defined.

Lemma filter_nothing (A : Type) (p : A -> bool) (l : list A) :
  (forall x, In x l -> p x = false) -> filter p l = [].
Proof.
  induction l as [|x l IH]; intros H; simpl; auto.
  rewrite (H x (or_introl eq_refl)). apply IH.
  intros y Hy. apply H. right. exact Hy.
Qed.

Section NoWordCharacter.
Context {U : Unicode} {L : UnicodeLower U}.

Import KnowledgeEngine.

(** X9. The word boundaries of the patterns are those of the ASCII
    letters, digits and underscore. For a text that normalizes to a
    string without such a character (a text in Persian script only), no
    keyword is ever found as a whole word: [keywordHitScore] is 0, so
    that [scoreCandidate] stays at 0.8 at most, [detectIntent] answers
    [null] whatever intents are loaded, and [isKBQuestion] holds exactly
    when the normalized text, not empty, contains one of the words of
    [kbWords]. *)
Theorem no_word_boundary (st : State) (text : value) (entry : Entry) :
  forallb (fun c => negb (isWordChar c)) (normalizeText text) = true ->
  keywordHitScore text entry = 0%Q /\
  (fst (scoreCandidate text entry) <= 8 # 10)%Q /\
  detectIntent st text = None /\
  (isKBQuestion st text = true <->
   normalizeText text <> [] /\
   exists w, In w kbWords /\
             includes (normalizeText text) (toLowerCase w) = true).
Proof.
  intros H.
  assert (K : forall v, normalizeText v = normalizeText text ->
                        keywordHitScore v entry = 0%Q).
  { intros v E. unfold keywordHitScore. cbv zeta. rewrite E.
    destruct (_ =? 0)%nat; [reflexivity|].
    rewrite (@filter_nothing _ _ (keywords entry)); [reflexivity|].
    intros kw _. rewrite (@testWord_no_word U kw _ None I H). apply andb_false_r. }
  split; [apply K; reflexivity|]. split; [|split].
  - unfold scoreCandidate. cbv zeta. cbn [fst].
    rewrite (K (VStr (ensureString text))) by reflexivity.
    set (a := VStr (ensureString text)).
    set (b := VStr (if nonEmpty (title entry) then title entry else snippet entry)).
    pose proof (tokenOverlapScore_range a b).
    pose proof (lcsRatio_range a b).
    unfold tokenOverlapWeight, lcsWeight, keywordHitWeight. lra.
  - unfold detectIntent. destruct (negb (truthy text)); [reflexivity|].
    destruct (isEmpty (normalizeText text)); [reflexivity|].
    apply detectIn_no_word, H.
  - unfold isKBQuestion. cbv zeta.
    destruct (normalizeText text) as [|c r] eqn:T.
    + cbn [isEmpty]. split; [discriminate | intros [X _]; congruence].
    + cbn [isEmpty]. rewrite <- T in *.
      replace (detectIntent st (VStr (normalizeText text))) with (@None value).
      2:{ symmetry. unfold detectIntent.
          destruct (negb (truthy (VStr (normalizeText text)))); [reflexivity|].
          rewrite KnowledgeEngine_normalizeText_idempotent.
          destruct (isEmpty (normalizeText text)); [reflexivity|].
          apply detectIn_no_word, H. }
      replace (existsb (fun p => testWord p None (normalizeText text)) infoWords)
        with false
        by (symmetry; apply existsb_none; intros p _;
            apply (@testWord_no_word U p _ None I H)).
      destruct (existsb _ kbWords) eqn:E.
      * split; [|reflexivity]. intros _. split; [rewrite T; discriminate|].
        apply existsb_exists in E. exact E.
      * split; [discriminate|]. intros [_ X].
        apply existsb_exists in X. congruence.
Qed.

End NoWordCharacter.

Lemma no_word_boundary_witness :
  let text := Examples.s "آدرس نمایندگی کجاست؟" in
  KnowledgeEngine.detectIntent Examples.loaded text = None /\
  KnowledgeEngine.isKBQuestion Examples.loaded text = true /\
  KnowledgeEngine.isKBQuestion Examples.loaded (Examples.s "کجاست؟") = false.
Proof.
  intros text.
  destruct (@no_word_boundary
              Latin_Arabic Latin_Arabic_lower Examples.loaded text
              (KnowledgeEngine.normalizeEntry VNull 0))
    as (_ & _ & D & Q); [vm_compute; reflexivity|].
  destruct (@no_word_boundary
              Latin_Arabic Latin_Arabic_lower Examples.loaded
              (Examples.s "کجاست؟")
              (KnowledgeEngine.normalizeEntry VNull 0))
    as (_ & _ & _ & Q'); [vm_compute; reflexivity|].
  split; [exact D|]. split.
  - apply Q. split; [vm_compute; discriminate|].
    exists (str "آدرس"). split; [vm_compute; tauto | vm_compute; reflexivity].
  - apply not_true_is_false. intros X. apply Q' in X.
    destruct X as (_ & w & Hw & I).
    vm_compute in Hw.
    repeat (destruct Hw as [<-|Hw]; [vm_compute in I; discriminate|]).
    destruct Hw.
Defined.

(* ================================================================== *)
(** * industry_indexer.js: the distance, the index and the matches *)
(* ================================================================== *)

Lemma editRev_sym (a b : jsstr) : editRev a b = editRev b a.
Proof.
  revert b. induction a as [|x a IHa]; intros b.
  - rewrite editRev_nil_r. reflexivity.
  - induction b as [|y b IHb]; [reflexivity|].
    rewrite !editRev_cons_cons, IHb, (IHa (y :: b)), (IHa b), (N.eqb_sym x y).
    lia.
Qed.

Lemma editRev_le (a b : jsstr) :
  (editRev a b <= Nat.max (List.length a) (List.length b))%nat.
Proof.
  revert b. induction a as [|x a IHa]; intros b; [simpl; lia|].
  destruct b as [|y b]; [simpl; lia|].
  rewrite editRev_cons_cons. specialize (IHa b).
  destruct (x =? y)%N; simpl List.length; lia.
Qed.

Lemma edit_distance_sym (a b : jsstr) : edit_distance a b = edit_distance b a.
Proof. apply editRev_sym. Qed.

Lemma edit_distance_le (a b : jsstr) :
  (edit_distance a b <= Nat.max (List.length a) (List.length b))%nat.
Proof.
  unfold edit_distance. rewrite <- (length_rev a), <- (length_rev b).
  apply editRev_le.
Qed.

Lemma edit_distance_zero (a b : jsstr) : edit_distance a b = 0%nat <-> a = b.
Proof.
  unfold edit_distance. split.
  - intros H. apply editRev_zero in H.
    rewrite <- (rev_involutive a), H. apply rev_involutive.
  - intros ->. apply editRev_refl.
Qed.

(** X10. [levenshtein] is symmetric, is 0 for equal strings only and
    never exceeds the length of the longer string; so the floor at 0 of
    [levSim] is never reached: [levSim] is [1 - distance / max length]
    (1 for two empty strings), it is symmetric, lies between 0 and 1
    and is 1 for equal strings only. *)
Theorem levSim_properties (a b : jsstr) :
  IndustryIndexer.levenshtein a b = IndustryIndexer.levenshtein b a /\
  (IndustryIndexer.levenshtein a b = 0%nat <-> a = b) /\
  (IndustryIndexer.levenshtein a b
   <= Nat.max (List.length a) (List.length b))%nat /\
  ((0 < Nat.max (List.length a) (List.length b))%nat ->
   (IndustryIndexer.levSim a b
    == 1 - ofNat (IndustryIndexer.levenshtein a b)
           / ofNat (Nat.max (List.length a) (List.length b)))%Q) /\
  (IndustryIndexer.levSim a b == IndustryIndexer.levSim b a)%Q /\
  (0 <= IndustryIndexer.levSim a b <= 1)%Q /\
  ((IndustryIndexer.levSim a b == 1)%Q <-> a = b).
Proof.
  set (m := Nat.max (List.length a) (List.length b)).
  assert (S : IndustryIndexer.levenshtein a b = IndustryIndexer.levenshtein b a)
    by (rewrite !levenshtein_correct; apply edit_distance_sym).
  assert (D : (IndustryIndexer.levenshtein a b <= m)%nat)
    by (rewrite levenshtein_correct; apply edit_distance_le).
  assert (F : (0 < m)%nat ->
              (IndustryIndexer.levSim a b
               == 1 - ofNat (IndustryIndexer.levenshtein a b) / ofNat m)%Q).
  { intros P. unfold IndustryIndexer.levSim. fold m.
    destruct (Nat.eqb_spec m 0); [lia|].
    pose proof (ratio_bounds D P) as R.
    unfold Qmaxb.
    destruct (Qle_bool 0 (1 - ofNat (IndustryIndexer.levenshtein a b) / ofNat m))
      eqn:E; [reflexivity|].
    apply Qle_bool_false in E. lra. }
  assert (Sim : (IndustryIndexer.levSim a b == IndustryIndexer.levSim b a)%Q).
  { unfold IndustryIndexer.levSim.
    rewrite (Nat.max_comm (List.length b)), S. reflexivity. }
  assert (One : (IndustryIndexer.levSim a b == 1)%Q <-> a = b).
  { split.
    - intros E. destruct (list_eq_dec N.eq_dec a b) as [|N]; [assumption|].
      pose proof (levSim_lt_1 N). lra.
    - intros <-. pose proof (levSim_le_1 a a) as Le. revert Le.
      unfold IndustryIndexer.levSim.
      destruct (_ =? 0)%nat; [reflexivity|].
      unfold IndustryIndexer.levenshtein. rewrite eqb_str_refl.
      change (ofNat 0) with 0%Q.
      set (n := ofNat (Nat.max (List.length a) (List.length a))).
      pose proof (Qmaxb_ub 0 (1 - 0 / n)) as [_ Ub].
      assert (Z : (0 / n == 0)%Q) by (unfold Qdiv; apply Qmult_0_l).
      intros Le. lra. }
  split; [exact S|]. split; [rewrite levenshtein_correct; apply edit_distance_zero|].
  split; [exact D|]. split; [exact F|]. split; [exact Sim|].
  split; [|exact One].
  split; [|apply levSim_le_1].
  unfold IndustryIndexer.levSim.
  destruct (_ =? 0)%nat; [lra|]. apply Qmaxb_ub.
Qed.

Lemma levSim_properties_witness :
  IndustryIndexer.levenshtein (str "kitten") (str "sitting") = 3%nat /\
  (IndustryIndexer.levSim (str "kitten") (str "sitting") == 4 # 7)%Q.
Proof.
  destruct (levSim_properties (str "kitten") (str "sitting"))
    as (_ & _ & _ & F & _).
  split; [reflexivity|].
  rewrite F by (simpl; lia). reflexivity.
Defined.






Section AliasIndex.
Context {U : Unicode}.

Import IndustryIndexer.









End AliasIndex.


Lemma toFixed3_mono (x y : Q) : (x <= y)%Q -> (toFixed3 x <= toFixed3 y)%Q.
Proof.
  intros H. unfold toFixed3.
  assert (F : (Qfloor (x * 1000 + (1 # 2)) <= Qfloor (y * 1000 + (1 # 2)))%Z)
    by (apply Qfloor_resp_le; lra).
  unfold Qle. cbn [Qnum Qden]. lia.
Qed.

Lemma toFixed3_range (x : Q) : (0 <= x <= 1)%Q -> (0 <= toFixed3 x <= 1)%Q.
Proof.
  intros [A B]. split.
  - apply (Qle_trans _ (toFixed3 0)); [|apply toFixed3_mono, A].
    unfold Qle. simpl. lia.
  - apply (Qle_trans _ (toFixed3 1)); [apply toFixed3_mono, B|].
    unfold Qle. simpl. lia.
Qed.

Lemma toFixed3_ge_09 (x : Q) : (9 # 10 <= x)%Q -> (9 # 10 <= toFixed3 x)%Q.
Proof.
  intros A. apply (Qle_trans _ (toFixed3 (9 # 10))); [|apply toFixed3_mono, A].
  unfold Qle. simpl. lia.
Qed.

Lemma toFixed3_near (x : Q) :
  (x - (1 # 2000) <= toFixed3 x <= x + (1 # 2000))%Q.
Proof.
  unfold toFixed3.
  pose proof (Qfloor_le (x * 1000 + (1 # 2))) as A.
  pose proof (Qlt_floor (x * 1000 + (1 # 2))) as B.
  set (n := Qfloor (x * 1000 + (1 # 2))) in *.
  assert (E : (n # 1000 == inject_Z n * (1 # 1000))%Q).
  { unfold Qeq, Qmult, inject_Z. simpl. lia. }
  assert (S : (inject_Z (n + 1) == inject_Z n + 1)%Q).
  { rewrite inject_Z_plus. reflexivity. }
  rewrite E. rewrite S in B. lra.
Qed.

Lemma toFixed3_tenth (x : Q) : (1 # 10 <= x)%Q -> (1 # 10 <= toFixed3 x)%Q.
Proof.
  intros A. apply (Qle_trans _ (toFixed3 (1 # 10))); [|apply toFixed3_mono, A].
  unfold Qle. simpl. lia.
Qed.

Lemma topAlias_range (textTokens : list jsstr) (joinedText : jsstr)
      (aliases : list jsstr) :
  (0 <= fst (IndustryIndexer.topAlias textTokens joinedText aliases) <= 1)%Q.
Proof.
  unfold IndustryIndexer.topAlias.
  destruct (topAlias_from textTokens joinedText aliases (0%Q, None))
    as (A & _ & C).
  cbv zeta in *. cbn [fst] in A, C. split; [exact A|].
  destruct C as [-> | (a & _ & ->)]; [lra | apply scoreAgainstAlias_le_1].
Qed.

Lemma industryScore_range (textTokens : list jsstr) (joinedText : jsstr)
      (aliases : list jsstr) :
  (0 <= IndustryIndexer.industryScore textTokens joinedText aliases <= 1)%Q.
Proof.
  unfold IndustryIndexer.industryScore. cbv zeta.
  pose proof (topAlias_range textTokens joinedText aliases) as T.
  set (top := fst (IndustryIndexer.topAlias textTokens joinedText aliases)) in *.
  assert (G : (0 <= top * (if existsb (fun a => (List.length a <=? 2)%nat) aliases
                           then 9 # 10 else 1) <= 1)%Q)
    by (destruct (existsb (fun a => (List.length a <=? 2)%nat) aliases); nra).
  destruct (1 <? List.length (filter (includes joinedText) aliases))%nat;
    [|exact G].
  set (n := ofNat (List.length (filter (includes joinedText) aliases))).
  assert (N : (0 <= Qminb (12 # 100) ((3 # 100) * n))%Q).
  { pose proof (ofNat_nonneg (List.length (filter (includes joinedText) aliases)))
      as P. fold n in P.
    destruct (Qminb_cases (12 # 100) ((3 # 100) * n)) as [-> | ->]; lra. }
  apply Qminb_range. lra.
Qed.

Section Matches.
Context {U : Unicode}.

Import IndustryIndexer.

(** The rows of [industryScoreForText]: one for each code of the index,
    the best score first. *)
Lemma industryScoreForText_rows (st : State) (text : value) :
  let txt := normalize text in
  let textTokens := tokensOf (VStr txt) in
  let joinedText := join [SP] textTokens in
  let rows := industryScoreForText st text in
  descending row_score rows /\
  List.length rows = List.length (industryIndex st) /\
  (forall r, In r rows ->
     exists e, In e (industryIndex st) /\ row_code r = fst e /\
               row_score r = industryScore textTokens joinedText (snd e)) /\
  (forall e, In e (industryIndex st) ->
     exists r, In r rows /\ row_code r = fst e /\
               row_score r = industryScore textTokens joinedText (snd e)).
Proof.
  cbv zeta. unfold industryScoreForText. cbv zeta.
  set (textTokens := tokensOf (VStr (normalize text))).
  set (joinedText := join [SP] textTokens).
  set (f := fun e : jsstr * list jsstr => _).
  split; [|split; [|split]].
  - apply (@sortBy_sorted _ (fun a b => Qle_bool (row_score b) (row_score a))
                          (fun a b => (row_score b <= row_score a)%Q)
                          (fun _ => True)).
    + intros x y z H1 H2. lra.
    + intros x y _ _ H. apply Qle_bool_iff, H.
    + intros x y _ _ H. apply Qle_bool_iff, Qle_bool_total, H.
    + apply Forall_forall. auto.
  - rewrite (Permutation_length (sortBy_perm _ _)). apply length_map.
  - intros r Hr. apply sortBy_In, in_map_iff in Hr.
    destruct Hr as (e & <- & He). exists e. auto.
  - intros e He. exists (f e). split; [|auto].
    apply sortBy_In, in_map_iff. exists e. auto.
Qed.

Lemma bestMatch_unfold (st : State) (text : value) (topN : option Z)
      (txt : jsstr) (matches : list MatchRow) (all : list Row) :
  bestMatch st text topN = Some (txt, matches, all) ->
  let n := match topN with
           | Some n => if (n =? 0)%Z then 3%Z else n
           | None => 3%Z
           end in
  truthy (dict st) = true /\
  txt = normalize (VStr (ToString (orElse text (VStr [])))) /\
  all = slice0 n (industryScoreForText st (VStr txt)) /\
  exists mapped,
    matches = filter (fun m => Qle_bool MIN_SCORE (match_score m)) mapped /\
    List.map match_score mapped = List.map (fun r => toFixed3 (row_score r)) all /\
    List.map code mapped = List.map row_code all /\
    List.length mapped = List.length all /\
    Forall (fun m => exists r, In r all /\ code m = row_code r /\
                               match_score m = toFixed3 (row_score r)) mapped.
Proof.
  unfold bestMatch. destruct (truthy (dict st)); [|discriminate].
  cbn [negb]. cbv zeta. intros H. inversion H; subst; clear H.
  split; [reflexivity|]. split; [reflexivity|]. split; [reflexivity|].
  eexists. split; [reflexivity|].
  rewrite !map_map, length_map. cbn [match_score code].
  split; [reflexivity|]. split; [reflexivity|]. split; [reflexivity|].
  apply Forall_forall. intros m Hm. apply in_map_iff in Hm.
  destruct Hm as (r & <- & Hr). exists r. auto.
Qed.

(** The rows and the matches of [bestMatch], with the scores rounded as
    [toFixed3] does. *)
Lemma bestMatch_rounded (st : State) (text : value) (topN : option Z)
        (txt : jsstr) (matches : list MatchRow) (all : list Row) :
  bestMatch st text topN = Some (txt, matches, all) ->
  Forall (fun r => (0 <= row_score r <= 1)%Q /\
                   In (row_code r) (List.map fst (industryIndex st))) all /\
  descending row_score all /\
  Forall (fun m => (1 # 10 <= match_score m <= 1)%Q /\
                   exists r, In r all /\ code m = row_code r /\
                             match_score m = toFixed3 (row_score r)) matches /\
  descending match_score matches /\
  (List.length matches <= List.length all <= List.length (industryIndex st))%nat /\
  (match topN with Some n => (0 <= n)%Z | None => True end ->
   (Z.of_nat (List.length all)
    <= match topN with
       | Some n => if (n =? 0)%Z then 3 else n
       | None => 3
       end)%Z).
Proof.
  intros H. apply bestMatch_unfold in H. cbv zeta in H.
  destruct H as (_ & _ & EA & mapped & EM & MS & _ & ML & MF).
  set (n := match topN with
            | Some n => if (n =? 0)%Z then 3%Z else n
            | None => 3%Z
            end) in *.
  destruct (industryScoreForText_rows st (VStr txt)) as (D & L & R & _).
  cbv zeta in *.
  assert (RA : Forall (fun r => (0 <= row_score r <= 1)%Q /\
                                In (row_code r) (List.map fst (industryIndex st)))
                      all).
  { apply Forall_forall. intros r Hr. rewrite EA in Hr. apply slice0_In in Hr.
    destruct (R r Hr) as (e & He & C & S). split.
    - rewrite S. apply industryScore_range.
    - rewrite C. apply in_map, He. }
  assert (DA : descending row_score all) by (rewrite EA; apply slice0_sorted, D).
  assert (DM : descending match_score mapped).
  { unfold descending.
    assert (X : StronglySorted (fun a b : Q => (b <= a)%Q)
                               (List.map match_score mapped)).
    { rewrite MS.
      apply (StronglySorted_map (R := fun a b => (row_score b <= row_score a)%Q));
        [|exact DA].
      intros x y. apply toFixed3_mono. }
    clear - X. induction mapped as [|m l IH]; [constructor|].
    simpl in X. inversion X as [|? ? Xl Xm]; subst.
    constructor; [apply IH, Xl|].
    apply Forall_forall. intros y Hy.
    apply (proj1 (Forall_forall _ _) Xm). apply in_map, Hy. }
  split; [exact RA|]. split; [exact DA|]. split; [|split; [|split]].
  - apply Forall_forall. intros m Hm. rewrite EM in Hm.
    apply filter_In in Hm. destruct Hm as [Hm Q].
    apply Qle_bool_iff in Q. unfold MIN_SCORE in Q.
    destruct (proj1 (Forall_forall _ _) MF m Hm) as (r & Hr & C & S).
    split; [|exists r; auto].
    split; [lra|]. rewrite S. apply toFixed3_range.
    apply (proj1 (Forall_forall _ _) RA r Hr).
  - rewrite EM. apply StronglySorted_filter, DM.
  - split.
    + rewrite EM, <- ML. apply filter_length_le.
    + rewrite <- L, EA. unfold slice0.
      destruct (0 <=? n)%Z; rewrite length_firstn; lia.
  - intros T. rewrite EA. apply slice0_length.
    unfold n. destruct topN as [k|]; [|lia]. destruct (Z.eqb_spec k 0); lia.
Qed.

(** The matches of [bestMatch] are the rows of [all], mapped and
    filtered. *)
Lemma bestMatch_rows (st : State) (text : value) (topN : option Z)
      (txt : jsstr) (matches : list MatchRow) (all : list Row) :
  bestMatch st text topN = Some (txt, matches, all) ->
  exists f : Row -> MatchRow,
    matches = filter (fun m => Qle_bool MIN_SCORE (match_score m)) (List.map f all) /\
    forall r, code (f r) = row_code r /\
              match_score (f r) = toFixed3 (row_score r) /\
              match_reason (f r) = row_reason r.
Proof.
  unfold bestMatch. destruct (truthy (dict st)); [|discriminate].
  cbn [negb]. cbv zeta. intros H. inversion H; subst; clear H.
  eexists. split; [reflexivity|].
  intros r. cbn [code match_score match_reason]. auto.
Qed.

Lemma filter_Subseq (A : Type) (p : A -> bool) (l : list A) :
  Subseq (filter p l) l.
Proof.
  induction l as [|x l IH]; [constructor|].
  cbn [filter]. destruct (p x); constructor; exact IH.
Qed.

Lemma map_Subseq (A B : Type) (f : A -> B) (s l : list A) :
  Subseq s l -> Subseq (List.map f s) (List.map f l).
Proof. induction 1; cbn [List.map]; constructor; auto. Qed.

(** X12. What [bestMatch] of industry_indexer.js returns once the
    module is initialized. [all] holds the best rows of
    [industryScoreForText], one per code of the index and [topN] at
    most (3 by default), with scores between 0 and 1 in decreasing
    order. [matches] are rows of [all] in the same order, with their
    reasons and their scores rounded to three decimals, so within
    0.0005 of the score of the row: their scores lie between
    [MIN_SCORE] = 0.1 and 1 and decrease, and every row with a score of
    0.1 at least is among them. *)
Theorem bestMatch_matches (st : State) (text : value) (topN : option Z)
        (txt : jsstr) (matches : list MatchRow) (all : list Row) :
  bestMatch st text topN = Some (txt, matches, all) ->
  Forall (fun r => (0 <= row_score r <= 1)%Q /\
                   In (row_code r) (List.map fst (industryIndex st))) all /\
  descending row_score all /\
  Forall (fun m => (1 # 10 <= match_score m <= 1)%Q /\
                   exists r, In r all /\ code m = row_code r /\
                             match_reason m = row_reason r /\
                             (row_score r - (1 # 2000) <= match_score m
                              <= row_score r + (1 # 2000))%Q) matches /\
  (forall r, In r all -> (1 # 10 <= row_score r)%Q ->
             exists m, In m matches /\ code m = row_code r) /\
  Subseq (List.map code matches) (List.map row_code all) /\
  descending match_score matches /\
  (List.length matches <= List.length all <= List.length (industryIndex st))%nat /\
  (match topN with Some n => (0 <= n)%Z | None => True end ->
   (Z.of_nat (List.length all)
    <= match topN with
       | Some n => if (n =? 0)%Z then 3 else n
       | None => 3
       end)%Z).
Proof.
  intros H.
  destruct (bestMatch_rows _ _ _ H) as (f & EM & F).
  destruct (bestMatch_rounded _ _ _ H) as (RA & DA & _ & DM & L & T).
  split; [exact RA|]. split; [exact DA|].
  split; [|split; [|split; [|split; [exact DM|split; [exact L | exact T]]]]].
  - apply Forall_forall. intros m Hm. rewrite EM in Hm.
    apply filter_In in Hm. destruct Hm as [Hm Q].
    apply Qle_bool_iff in Q. unfold MIN_SCORE in Q.
    apply in_map_iff in Hm. destruct Hm as (r & <- & Hr).
    destruct (F r) as (C & S & R).
    pose proof (proj1 (Forall_forall _ _) RA r Hr) as [Rg _].
    pose proof (toFixed3_range Rg) as Tr.
    pose proof (toFixed3_near (row_score r)) as N.
    rewrite S in *. split; [lra|].
    exists r. repeat split; auto; lra.
  - intros r Hr G. exists (f r). destruct (F r) as (C & S & _).
    split; [|exact C]. rewrite EM. apply filter_In. split; [apply in_map, Hr|].
    apply Qle_bool_iff. unfold MIN_SCORE. rewrite S.
    pose proof (toFixed3_tenth G). lra.
  - rewrite EM.
    replace (List.map row_code all) with (List.map code (List.map f all)).
    + apply map_Subseq, filter_Subseq.
    + rewrite map_map. apply map_ext. intros r. apply F.
Qed.

(** [bestSingle] on a module that is initialized: the industry of the
    best score, when its score, rounded, is 0.1 at least. *)
Lemma bestSingle_top (st : State) (text : value) :
  let txt := normalize (VStr (normalize (VStr (ToString (orElse text (VStr [])))))) in
  let textTokens := tokensOf (VStr txt) in
  let joinedText := join [SP] textTokens in
  let scoreOf := fun aliases => industryScore textTokens joinedText aliases in
  truthy (dict st) = true ->
  (bestSingle st text = Some Unknown /\
   forall code aliases, In (code, aliases) (industryIndex st) ->
     (toFixed3 (scoreOf aliases) < 1 # 10)%Q) \/
  (exists m e, bestSingle st text = Some (Found m) /\
               In e (industryIndex st) /\ code m = fst e /\
               match_score m = toFixed3 (scoreOf (snd e)) /\
               (1 # 10 <= match_score m)%Q /\
               forall code aliases, In (code, aliases) (industryIndex st) ->
                 (scoreOf aliases <= scoreOf (snd e))%Q).
Proof.
  intros txt textTokens joinedText scoreOf T. unfold bestSingle.
  destruct (bestMatch st text (Some 1%Z)) as [[[t matches] all]|] eqn:B.
  2:{ unfold bestMatch in B. rewrite T in B. discriminate. }
  pose proof (bestMatch_unfold _ _ _ B) as X. cbv zeta in X.
  destruct X as (_ & Et & EA & mapped & EM & MS & MC & ML & _).
  change (if (1 =? 0)%Z then 3%Z else 1%Z) with 1%Z in EA.
  destruct (industryScoreForText_rows st (VStr t)) as (D & L & R & C).
  cbv zeta in *. rewrite Et in R, C. fold txt textTokens joinedText in R, C.
  rewrite <- Et in *.
  destruct (industryScoreForText st (VStr t)) as [|r rest] eqn:Rows.
  - left. change (slice0 1 (@nil Row)) with (@nil Row) in EA. subst all.
    destruct mapped; [|discriminate]. simpl in EM. subst matches.
    split; [reflexivity|].
    intros code aliases H. destruct (C _ H) as (r & [] & _).
  - change (slice0 1 (r :: rest)) with [r] in EA. subst all.
    destruct mapped as [|m [|m' mapped']]; try discriminate.
    simpl in MS, MC. inversion MS as [MS']. inversion MC as [MC'].
    destruct (R r (or_introl eq_refl)) as (e & He & Ce & Se).
    assert (Top : forall code aliases, In (code, aliases) (industryIndex st) ->
                    (scoreOf aliases <= scoreOf (snd e))%Q).
    { intros code aliases H. destruct (C _ H) as (r' & Hr' & _ & S).
      cbn [snd] in S. unfold scoreOf. rewrite <- S, <- Se.
      apply (sorted_head D Hr'). }
    simpl in EM. destruct (Qle_bool MIN_SCORE (match_score m)) eqn:Q.
    + right. exists m, e. subst matches. split; [reflexivity|].
      apply Qle_bool_iff in Q. unfold MIN_SCORE in Q.
      split; [exact He|]. split; [rewrite MC', Ce; reflexivity|].
      split; [rewrite MS', Se; reflexivity|]. split; [lra | exact Top].
    + left. subst matches. split; [reflexivity|].
      intros code aliases H. specialize (Top code aliases H).
      apply Qle_bool_false in Q. unfold MIN_SCORE in Q.
      pose proof (toFixed3_mono Top) as M. unfold scoreOf in M.
      rewrite <- Se, <- MS' in M. unfold scoreOf. lra.
Qed.

(** X13. [bestSingle] raises the exception of [bestMatch] while the
    module is not initialized. Afterwards it answers [unknown] only
    when every industry of the index scores below 0.1; otherwise it
    answers with an industry of the best score, its score rounded to
    three decimals (within 0.0005 of it) and between 0.1 and 1, and it
    does answer with an industry as soon as one scores 0.1 at least. An
    industry one of whose aliases occurs in the joined tokens of the
    text is never missed: the answer is then a match with a score of
    0.9 at least. *)
Theorem bestSingle_answers (st : State) (text : value) :
  let txt := normalize (VStr (normalize (VStr (ToString (orElse text (VStr [])))))) in
  let textTokens := tokensOf (VStr txt) in
  let joinedText := join [SP] textTokens in
  let scoreOf := fun aliases => industryScore textTokens joinedText aliases in
  (truthy (dict st) = false -> bestSingle st text = None) /\
  (truthy (dict st) = true ->
   (bestSingle st text = Some Unknown /\
    forall code aliases, In (code, aliases) (industryIndex st) ->
      (scoreOf aliases < 1 # 10)%Q) \/
   (exists m aliases,
       bestSingle st text = Some (Found m) /\
       (1 # 10 <= match_score m <= 1)%Q /\
       In (code m, aliases) (industryIndex st) /\
       (scoreOf aliases - (1 # 2000) <= match_score m
        <= scoreOf aliases + (1 # 2000))%Q /\
       forall code' aliases', In (code', aliases') (industryIndex st) ->
         (scoreOf aliases' <= scoreOf aliases)%Q)) /\
  (forall code aliases,
      truthy (dict st) = true ->
      In (code, aliases) (industryIndex st) ->
      (1 # 10 <= scoreOf aliases)%Q ->
      exists m, bestSingle st text = Some (Found m)) /\
  (forall code aliases a,
      truthy (dict st) = true ->
      In (code, aliases) (industryIndex st) -> In a aliases ->
      includes joinedText a = true ->
      exists m, bestSingle st text = Some (Found m) /\
                (9 # 10 <= match_score m <= 1)%Q).
Proof.
  intros txt textTokens joinedText scoreOf.
  pose proof (bestSingle_top st text) as Main. cbv zeta in Main.
  fold txt textTokens joinedText scoreOf in Main.
  split; [|split; [|split]].
  - intros F. unfold bestSingle, bestMatch. rewrite F. reflexivity.
  - intros T. destruct (Main T) as [[E K]|(m & e & E & He & C & S & G & K)].
    + left. split; [exact E|]. intros code aliases H.
      specialize (K code aliases H).
      apply Qnot_le_lt. intros X. apply toFixed3_tenth in X. lra.
    + right. exists m, (snd e). split; [exact E|].
      pose proof (toFixed3_range (industryScore_range textTokens joinedText (snd e)))
        as Rg.
      pose proof (toFixed3_near (scoreOf (snd e))) as N.
      fold (scoreOf (snd e)) in Rg. rewrite <- S in Rg, N.
      split; [lra|]. split; [rewrite C; destruct e; exact He|].
      split; [lra | exact K].
  - intros code aliases T H G.
    destruct (Main T) as [[E K]|(m & e & E & _)]; [|exists m; exact E].
    specialize (K code aliases H). apply toFixed3_tenth in G. lra.
  - intros code aliases a T H Ha I.
    pose proof (@industryScore_phrase textTokens joinedText aliases a Ha I) as P.
    fold (scoreOf aliases) in P.
    destruct (Main T) as [[E K]|(m & e & E & He & C & S & G & K)].
    + specialize (K code aliases H). apply toFixed3_ge_09 in P. lra.
    + exists m. split; [exact E|].
      specialize (K code aliases H).
      assert (P' : (9 # 10 <= scoreOf (snd e))%Q) by lra.
      apply toFixed3_ge_09 in P'.
      pose proof (toFixed3_range (industryScore_range textTokens joinedText (snd e)))
        as Rg.
      fold (scoreOf (snd e)) in Rg. rewrite <- S in Rg, P'. lra.
Qed.

End Matches.

Lemma bestMatch_matches_witness :
  let st := snd (IndustryIndexer.init
                   IndustryIndexer.initial
                   (Json (VObj [(str "industries",
                                 VObj [(str "welding", VArr [Examples.s "welding"]);
                                       (str "glass", VArr [Examples.s "glass"])])]))) in
  exists txt matches all,
    IndustryIndexer.bestMatch st (Examples.s "I am welding") None
    = Some (txt, matches, all) /\
    List.map IndustryIndexer.code matches = [str "welding"] /\
    descending IndustryIndexer.match_score matches /\
    (Z.of_nat (List.length all) <= 3)%Z.
Proof.
  intros st.
  destruct (IndustryIndexer.bestMatch st (Examples.s "I am welding") None)
    as [[[txt matches] all]|] eqn:B; [|vm_compute in B; discriminate].
  exists txt, matches, all.
  destruct (@bestMatch_matches Latin_Arabic st (Examples.s "I am welding") None
                               txt matches all B)
    as (_ & _ & _ & _ & _ & D & _ & T).
  split; [reflexivity|]. split; [|split; [exact D | apply T; exact I]].
  vm_compute in B. inversion B. reflexivity.
Defined.

Lemma bestSingle_answers_witness :
  let st := snd (IndustryIndexer.init
                   IndustryIndexer.initial
                   (Json (VObj [(str "industries",
                                 VObj [(str "welding", VArr [Examples.s "welding"]);
                                       (str "glass", VArr [Examples.s "glass"])])]))) in
  IndustryIndexer.bestSingle IndustryIndexer.initial (Examples.s "welding") = None /\
  exists m, IndustryIndexer.bestSingle st (Examples.s "I am welding")
            = Some (IndustryIndexer.Found m) /\
            (9 # 10 <= IndustryIndexer.match_score m <= 1)%Q.
Proof.
  intros st.
  destruct (@bestSingle_answers Latin_Arabic IndustryIndexer.initial
                                (Examples.s "welding")) as (N & _ & _ & _).
  destruct (@bestSingle_answers Latin_Arabic st (Examples.s "I am welding"))
    as (_ & _ & _ & P).
  split; [apply N; reflexivity|].
  apply (P (str "welding") [str "welding"] (str "welding")).
  - reflexivity.
  - vm_compute. auto.
  - left. reflexivity.
  - vm_compute. reflexivity.
Defined.

(* ================================================================== *)
(** * industry_indexer.js: the fuzzy match (C7) *)
(* ================================================================== *)

Lemma levSim_exact (a b : jsstr) :
  (0 < Nat.max (List.length a) (List.length b))%nat ->
  (IndustryIndexer.levSim a b
   == 1 - ofNat (edit_distance a b)
          / ofNat (Nat.max (List.length a) (List.length b)))%Q.
Proof.
  intros P. rewrite (levSim_formula a b P).
  pose proof (ratio_bounds (edit_distance_le a b) P) as R.
  unfold Qmaxb.
  destruct (Qle_bool 0 (1 - ofNat (edit_distance a b)
                            / ofNat (Nat.max (List.length a) (List.length b))))
    eqn:E; [reflexivity|].
  apply Qle_bool_false in E. lra.
Qed.

(** The score of an industry is 0.9 times the score of any of its
    aliases at least. *)
Lemma industryScore_ge (textTokens : list jsstr) (joinedText : jsstr)
      (aliases : list jsstr) (a : jsstr) (x : Q) :
  In a aliases -> (0 <= x <= 1)%Q ->
  (x <= IndustryIndexer.score
          (IndustryIndexer.scoreAgainstAlias textTokens joinedText a))%Q ->
  (x * (9 # 10) <= IndustryIndexer.industryScore textTokens joinedText aliases)%Q.
Proof.
  intros I X T. unfold IndustryIndexer.industryScore, IndustryIndexer.topAlias.
  destruct (topAlias_from textTokens joinedText aliases (0%Q, None))
    as (_ & B & _).
  cbv zeta in *. specialize (B a I).
  set (top := fst (fold_left _ aliases _)) in *.
  set (gp := if existsb (fun a => (List.length a <=? 2)%nat) aliases
             then (9 # 10)%Q else 1%Q).
  assert (G : (x * (9 # 10) <= top * gp)%Q).
  { unfold gp.
    destruct (existsb (fun a => (List.length a <=? 2)%nat) aliases); nra. }
  destruct (1 <? List.length (filter (includes joinedText) aliases))%nat;
    [|exact G].
  set (n := ofNat (List.length (filter (includes joinedText) aliases))).
  assert (N : (0 <= Qminb (12 # 100) ((3 # 100) * n))%Q).
  { pose proof (ofNat_nonneg (List.length (filter (includes joinedText) aliases)))
      as P. fold n in P.
    destruct (Qminb_cases (12 # 100) ((3 # 100) * n)) as [-> | ->]; lra. }
  destruct (Qminb_cases 1 (top * gp + Qminb (12 # 100) ((3 # 100) * n)))
    as [-> | ->]; nra.
Qed.

(** The result of [scoreAgainstAlias] for an alias of one token that
    the joined tokens of the query do not contain. *)
Lemma scoreAgainstAlias_single (textTokens : list jsstr)
      (joinedText alias a : jsstr) :
  filter nonEmpty (split SP alias) = [a] ->
  includes joinedText alias = false ->
  let r := IndustryIndexer.scoreAgainstAlias textTokens joinedText alias in
  let sim := IndustryIndexer.bestSim a textTokens in
  ((3 # 4 <= sim)%Q ->
   r = {| IndustryIndexer.score :=
            Qmaxb (IndustryIndexer.tokenRatio textTokens [a]) (sim * (9 # 10));
          IndustryIndexer.reason := IndustryIndexer.Fuzzy a |}) /\
  ((sim < 3 # 4)%Q ->
   r = {| IndustryIndexer.score :=
            Qminb 1 (IndustryIndexer.tokenRatio textTokens [a] * (85 # 100));
          IndustryIndexer.reason :=
            IndustryIndexer.Tokens (IndustryIndexer.hitCount textTokens [a]) 1 |}).
Proof.
  intros HA HI r sim. unfold r, IndustryIndexer.scoreAgainstAlias.
  rewrite HI, HA. cbv zeta. fold sim.
  destruct (Qle_bool (75 # 100) sim) eqn:E.
  - apply Qle_bool_iff in E. split; [reflexivity|]. intros X. lra.
  - apply Qle_bool_false in E. split; [intros X; lra | reflexivity].
Qed.

Lemma fuzzy_single (textTokens : list jsstr) (joinedText alias x : jsstr) :
  IndustryIndexer.reason
    (IndustryIndexer.scoreAgainstAlias textTokens joinedText alias)
  = IndustryIndexer.Fuzzy x ->
  includes joinedText alias = false /\
  filter nonEmpty (split SP alias) = [x] /\
  (3 # 4 <= IndustryIndexer.bestSim x textTokens)%Q.
Proof.
  unfold IndustryIndexer.scoreAgainstAlias.
  destruct (includes joinedText alias); [discriminate|]. cbv zeta.
  destruct (filter nonEmpty (split SP alias)) as [|a0 [|b rest]];
    try discriminate.
  destruct (Qle_bool (75 # 100) (IndustryIndexer.bestSim a0 textTokens)) eqn:E;
    [|discriminate].
  cbn [IndustryIndexer.reason]. intros X. inversion X; subst.
  apply Qle_bool_iff in E. repeat split; auto. lra.
Qed.

Section Fuzzy.
Context {U : Unicode}.

Import IndustryIndexer.

(** An industry that scores well is among the matches of [bestMatch]
    when [topN] does not cut the rows. *)
Lemma bestMatch_holds (st : State) (text : value) (topN : option Z)
      (industry : jsstr) (aliases : list jsstr) (x : Q)
      (txt' : jsstr) (matches : list MatchRow) (all : list Row) :
  let txt := normalize (VStr (normalize (VStr (ToString (orElse text (VStr [])))))) in
  let tokens := tokensOf (VStr txt) in
  let joined := join [SP] tokens in
  In (industry, aliases) (industryIndex st) ->
  (1 # 10 <= x)%Q -> (x <= industryScore tokens joined aliases)%Q ->
  bestMatch st text topN = Some (txt', matches, all) ->
  (Z.of_nat (List.length (industryIndex st))
   <= match topN with
      | Some n => if (n =? 0)%Z then 3 else n
      | None => 3
      end)%Z ->
  exists m, In m matches /\ code m = industry /\ (toFixed3 x <= match_score m)%Q.
Proof.
  intros txt tokens joined HI X G B N.
  destruct (bestMatch_rows _ _ _ B) as (f & EM & F).
  apply bestMatch_unfold in B. cbv zeta in B.
  destruct B as (_ & Et & EA & _).
  destruct (industryScoreForText_rows st (VStr txt')) as (_ & L & _ & C).
  cbv zeta in C. rewrite Et in C. fold txt tokens joined in C.
  rewrite <- Et in C.
  rewrite slice0_all in EA by (rewrite L; exact N).
  destruct (C _ HI) as (r & Hr & Cr & Sr). cbn [fst snd] in Cr, Sr.
  destruct (F r) as (Fc & Fs & _).
  assert (M : (toFixed3 x <= match_score (f r))%Q).
  { rewrite Fs, Sr. apply toFixed3_mono, G. }
  exists (f r). split; [|split; [rewrite Fc; exact Cr | exact M]].
  rewrite EM. apply filter_In. split; [apply in_map; rewrite EA; exact Hr|].
  apply Qle_bool_iff. unfold MIN_SCORE.
  pose proof (toFixed3_tenth X). lra.
Qed.

(** C7. [levenshtein] computes the edit distance and [levSim] is
    [1 - distance / max(len)]. For an alias of a single token [a] that
    the joined tokens of the query do not contain, [scoreAgainstAlias]
    takes the largest similarity of [a] with a token of the query: when
    it is 0.75 at least, that is, when some token has a similarity of
    0.75 at least, the result is [fuzzy:a] with the score
    [max(tokenRatio, 0.9 * similarity)], and otherwise the composite
    score of the tokens; no other alias gets the reason [fuzzy]. A
    token at edit distance 1 of an alias of five characters or more has
    a similarity of 0.8 at least, so that the alias is found with a
    score of 0.72 at least, its industry scores 0.648 at least, and
    [bestSingle] answers with a match of that score at least, which is
    that industry when no other industry scores as much; [bestMatch]
    lists that industry among its matches when [topN] does not cut the
    rows. *)
Theorem C7_fuzzy_match (st : State) (text : value)
        (textTokens : list jsstr) (joinedText alias a tt : jsstr)
        (industry : jsstr) (aliases : list jsstr) :
  let r := scoreAgainstAlias textTokens joinedText alias in
  let sim := bestSim a textTokens in
  levenshtein a tt = edit_distance a tt /\
  ((0 < Nat.max (List.length a) (List.length tt))%nat ->
   (levSim a tt
    == 1 - ofNat (edit_distance a tt)
           / ofNat (Nat.max (List.length a) (List.length tt)))%Q) /\
  ((forall t, In t textTokens -> (levSim a t <= sim)%Q) /\
   (sim = 0%Q \/ exists t, In t textTokens /\ sim = levSim a t)) /\
  (filter nonEmpty (split SP alias) = [a] ->
   includes joinedText alias = false ->
   (reason r = Fuzzy a <-> (3 # 4 <= sim)%Q) /\
   (reason r = Fuzzy a <->
    exists t, In t textTokens /\ (3 # 4 <= levSim a t)%Q) /\
   ((3 # 4 <= sim)%Q ->
    score r = Qmaxb (tokenRatio textTokens [a]) (sim * (9 # 10))) /\
   ((sim < 3 # 4)%Q ->
    score r = Qminb 1 (tokenRatio textTokens [a] * (85 # 100)) /\
    reason r = Tokens (hitCount textTokens [a]) 1)) /\
  (forall x, reason r = Fuzzy x ->
             includes joinedText alias = false /\
             filter nonEmpty (split SP alias) = [x] /\
             (3 # 4 <= bestSim x textTokens)%Q) /\
  (filter nonEmpty (split SP alias) = [a] ->
   includes joinedText alias = false ->
   In tt textTokens -> edit_distance a tt = 1%nat -> (5 <= List.length a)%nat ->
   reason r = Fuzzy a /\ (72 # 100 <= score r)%Q) /\
  (let txt := normalize (VStr (normalize (VStr (ToString (orElse text (VStr [])))))) in
   let tokens := tokensOf (VStr txt) in
   let joined := join [SP] tokens in
   let scoreOf := fun l => industryScore tokens joined l in
   truthy (dict st) = true ->
   In (industry, aliases) (industryIndex st) -> In alias aliases ->
   filter nonEmpty (split SP alias) = [a] ->
   In tt tokens -> edit_distance a tt = 1%nat -> (5 <= List.length a)%nat ->
   (648 # 1000 <= scoreOf aliases)%Q /\
   (exists m, bestSingle st text = Some (Found m) /\
              (648 # 1000 <= match_score m)%Q) /\
   ((forall code' aliases',
        In (code', aliases') (industryIndex st) -> code' <> industry ->
        (scoreOf aliases' < scoreOf aliases)%Q) ->
    exists m, bestSingle st text = Some (Found m) /\ code m = industry /\
              (648 # 1000 <= match_score m)%Q) /\
   (forall topN txt' matches all,
       bestMatch st text topN = Some (txt', matches, all) ->
       (Z.of_nat (List.length (industryIndex st))
        <= match topN with
           | Some n => if (n =? 0)%Z then 3 else n
           | None => 3
           end)%Z ->
       exists m, In m matches /\ code m = industry /\
                 (648 # 1000 <= match_score m)%Q)).
Proof.
  intros r sim.
  assert (Max : (forall t, In t textTokens -> (levSim a t <= sim)%Q) /\
                (sim = 0%Q \/ exists t, In t textTokens /\ sim = levSim a t)).
  { unfold sim, bestSim.
    destruct (bestSim_from a textTokens 0) as (_ & B & C). split; assumption. }
  assert (One : forall (tokens : list jsstr) (joined : jsstr),
             filter nonEmpty (split SP alias) = [a] ->
             includes joined alias = false ->
             In tt tokens -> edit_distance a tt = 1%nat ->
             (5 <= List.length a)%nat ->
             reason (scoreAgainstAlias tokens joined alias) = Fuzzy a /\
             (72 # 100 <= score (scoreAgainstAlias tokens joined alias))%Q).
  { intros tokens joined HA HI HT D L.
    pose proof (levSim_distance_one a tt D L) as S.
    pose proof (bestSim_ge a tt tokens HT) as B.
    destruct (@scoreAgainstAlias_single tokens joined alias a HA HI) as [F _].
    cbv zeta in F. rewrite F by lra.
    cbn [reason score]. split; [reflexivity|].
    pose proof (Qmaxb_ub (tokenRatio tokens [a]) (bestSim a tokens * (9 # 10)))
      as [_ M].
    lra. }
  split; [apply levenshtein_correct|].
  split; [apply levSim_exact|].
  split; [exact Max|].
  split; [|split; [|split]].
  - intros HA HI.
    destruct (@scoreAgainstAlias_single textTokens joinedText alias a HA HI)
      as [F C]. cbv zeta in F, C. fold r sim in F, C.
    assert (I1 : reason r = Fuzzy a <-> (3 # 4 <= sim)%Q).
    { split.
      - intros E. destruct (Qlt_le_dec sim (3 # 4)) as [X|X]; [|exact X].
        rewrite (C X) in E. discriminate.
      - intros X. rewrite (F X). reflexivity. }
    split; [exact I1|]. split; [|split].
    + rewrite I1. destruct Max as [M1 M2]. split.
      * intros X. destruct M2 as [Z|(t & Ht & E)]; [rewrite Z in X; lra|].
        exists t. split; [exact Ht|]. rewrite <- E. exact X.
      * intros (t & Ht & X). specialize (M1 t Ht). lra.
    + intros X. rewrite (F X). reflexivity.
    + intros X. rewrite (C X). split; reflexivity.
  - intros x. apply fuzzy_single.
  - apply One.
  - intros txt tokens joined scoreOf T HI Ha HA HT D L.
    assert (S : (72 # 100 <= score (scoreAgainstAlias tokens joined alias))%Q).
    { destruct (includes joined alias) eqn:I.
      - unfold scoreAgainstAlias. rewrite I. cbn [score]. lra.
      - apply (One tokens joined HA I HT D L). }
    assert (G : (648 # 1000 <= scoreOf aliases)%Q).
    { pose proof (@industryScore_ge tokens joined aliases alias (72 # 100) Ha
                                    ltac:(lra) S) as X.
      unfold scoreOf. lra. }
    assert (F : forall x, (648 # 1000 <= x)%Q -> (648 # 1000 <= toFixed3 x)%Q).
    { intros x X. apply (Qle_trans _ (toFixed3 (648 # 1000)));
        [|apply toFixed3_mono, X].
      unfold Qle. simpl. lia. }
    pose proof (bestSingle_top st text) as Main. cbv zeta in Main.
    fold txt tokens joined scoreOf in Main.
    destruct (Main T) as [[_ K]|(m & e & E & He & C & Sm & _ & K)].
    { specialize (K industry aliases HI). apply F in G. lra. }
    assert (Gm : (648 # 1000 <= match_score m)%Q).
    { rewrite Sm. apply F. specialize (K industry aliases HI). lra. }
    split; [exact G|]. split; [exists m; auto|]. split.
    + intros Best. exists m. split; [exact E|]. split; [|exact Gm].
      rewrite C. destruct e as [c l]. cbn [fst snd] in *.
      destruct (list_eq_dec N.eq_dec c industry) as [X|X]; [exact X|].
      specialize (Best c l He X). specialize (K industry aliases HI). lra.
    + intros topN txt' matches all B N.
      destruct (@bestMatch_holds st text topN industry aliases (648 # 1000)
                                 txt' matches all HI ltac:(lra) G B N)
        as (m' & Hm & Cm & Sm').
      exists m'. split; [exact Hm|]. split; [exact Cm|].
      assert (X : (648 # 1000 <= toFixed3 (648 # 1000))%Q)
        by (unfold Qle; simpl; lia).
      lra.
Qed.

End Fuzzy.

Lemma C7_fuzzy_match_witness :
  let st := snd (IndustryIndexer.init
                   IndustryIndexer.initial
                   (Json (VObj [(str "industries",
                                 VObj [(str "welding", VArr [Examples.s "welding"]);
                                       (str "glass", VArr [Examples.s "glass"])])]))) in
  let r := IndustryIndexer.scoreAgainstAlias
             [str "weldin"] (str "weldin") (str "welding") in
  edit_distance (str "welding") (str "weldin") = 1%nat /\
  (IndustryIndexer.reason r = IndustryIndexer.Fuzzy (str "welding") /\
   (72 # 100 <= IndustryIndexer.score r)%Q) /\
  exists m, IndustryIndexer.bestSingle st (Examples.s "I am weldin")
            = Some (IndustryIndexer.Found m) /\
            IndustryIndexer.code m = str "welding" /\
            (648 # 1000 <= IndustryIndexer.match_score m)%Q.
Proof.
  intros st r.
  destruct (@C7_fuzzy_match
              Latin_Arabic st (Examples.s "I am weldin")
              [str "weldin"] (str "weldin") (str "welding")
              (str "welding") (str "weldin")
              (str "welding") [str "welding"])
    as (_ & _ & _ & _ & _ & D & L).
  split; [reflexivity|]. split.
  - apply D; [reflexivity | reflexivity | left; reflexivity | reflexivity |
              vm_compute; lia].
  - destruct L as (_ & _ & B & _).
    + reflexivity.
    + vm_compute. auto.
    + left. reflexivity.
    + reflexivity.
    + vm_compute. auto.
    + reflexivity.
    + vm_compute. lia.
    + apply B. intros code' aliases' H N.
      vm_compute in H. destruct H as [H|[H|[]]]; inversion H; subst.
      * exfalso. apply N. reflexivity.
      * vm_compute. reflexivity.
Defined.

(* ================================================================== *)
(** * IndustryIndexer v3.0: the answers of [bestMatch] *)
(* ================================================================== *)

Lemma setAdd_In (i j : nat) (s : list nat) :
  In j (IndustryIndexerV3.setAdd i s) -> j = i \/ In j s.
Proof.
  unfold IndustryIndexerV3.setAdd. destruct (existsb (Nat.eqb i) s); auto.
  intros H. apply in_app_iff in H. destruct H as [H|[H|[]]]; auto.
Qed.

Lemma indexAdd_bounded (n i : nat) (key : jsstr) (m : IndustryIndexerV3.Index) :
  (i < n)%nat -> Bounded n m -> Bounded n (IndustryIndexerV3.indexAdd key i m).
Proof.
  intros I. induction m as [|[k s] m IH]; intros B key' s' H; simpl in H.
  - destruct H as [H|[]]. inversion H; subst. split; [discriminate|].
    intros j [<-|[]]. exact I.
  - destruct (eqb_str key k).
    + destruct H as [H|H]; [|apply (B key' s'); right; exact H].
      inversion H; subst. destruct (B key' s (or_introl eq_refl)) as [N L].
      split.
      * pose proof (setAdd_here i s) as X. intros E. rewrite E in X. destruct X.
      * intros j Hj. apply setAdd_In in Hj. destruct Hj as [->|Hj]; auto.
    + destruct H as [H|H]; [apply (B key' s'); left; exact H|].
      apply (IH (fun k0 s0 H0 => B k0 s0 (or_intror H0)) key' s' H).
Qed.

Lemma bump_below (n : nat) (w : Q) (idx : nat) (m : list (nat * Q)) :
  (idx < n)%nat -> KeysBelow n m -> KeysBelow n (IndustryIndexerV3.bump w idx m).
Proof.
  intros I. induction m as [|[i v] m IH]; intros H e He; simpl in He.
  - destruct He as [<-|[]]. exact I.
  - destruct (idx =? i)%nat.
    + destruct He as [<-|He]; [|apply H; right; exact He].
      apply (H (i, v)). left. reflexivity.
    + destruct He as [<-|He]; [apply (H (i, v)); left; reflexivity|].
      apply IH; auto. intros e' He'. apply H. right. exact He'.
Qed.

Lemma bumps_below (n : nat) (w : Q) (s : list nat) (m : list (nat * Q)) :
  (forall i, In i s -> (i < n)%nat) -> KeysBelow n m ->
  KeysBelow n (fold_left (fun f idx => IndustryIndexerV3.bump w idx f) s m).
Proof.
  revert m. induction s as [|i s IH]; intros m S H; cbn [fold_left]; auto.
  apply IH; [intros j Hj; apply S; right; exact Hj|].
  apply bump_below; [apply S; left; reflexivity | exact H].
Qed.

Lemma pickBest_In (l : list (nat * Q)) (b : nat * Q) :
  IndustryIndexerV3.pickBest l = Some b ->
  In b l /\ forall e, In e l -> (snd e <= snd b)%Q.
Proof.
  unfold IndustryIndexerV3.pickBest. destruct l as [|e l]; [discriminate|].
  destruct (@pickBest_from (e :: l) None) as (b' & E & I & _ & D);
    [right; discriminate|].
  rewrite E. intros X. inversion X; subst.
  destruct I as [I|I]; [discriminate | auto].
Qed.

Lemma indexGet_In (key : jsstr) (m : IndustryIndexerV3.Index) (s : list nat) :
  IndustryIndexerV3.indexGet key m = Some s -> In (key, s) m.
Proof.
  induction m as [|[k s'] m IH]; simpl; [discriminate|].
  destruct (eqb_str key k) eqn:E.
  - apply eqb_str_eq in E. subst. intros X. inversion X. auto.
  - auto.
Qed.

Lemma windows4_length (key sub : jsstr) :
  In sub (IndustryIndexerV3.windows4 key) -> List.length sub = 4%nat.
Proof.
  induction key as [|a key IH]; intros H; [destruct H|].
  cbn [IndustryIndexerV3.windows4] in H.
  destruct key as [|b [|c [|d r]]]; try (destruct H; fail).
  destruct H as [<-|H]; [reflexivity | apply IH, H].
Qed.

Lemma combine_seq_snoc (A : Type) (l : list A) (x : A) (s : nat) :
  combine (seq s (List.length (l ++ [x]))) (l ++ [x])
  = combine (seq s (List.length l)) l ++ [((s + List.length l)%nat, x)].
Proof.
  revert s. induction l as [|y l IH]; intros s; simpl.
  - rewrite Nat.add_0_r. reflexivity.
  - rewrite IH. replace (s + S (List.length l))%nat with (S s + List.length l)%nat
      by lia.
    reflexivity.
Qed.

Section Answers.
Context {U : Unicode}.

Import IndustryIndexerV3.

Lemma indexKeyword_bounded (n i : nat) (k : value) (m : Index) :
  (i < n)%nat -> Bounded n m -> Bounded n (indexKeyword i m k).
Proof.
  intros I B. unfold indexKeyword.
  destruct (isEmpty (normalizeText k)); [exact B|]. cbv zeta.
  generalize (filter nonEmpty (split SP (normalizeText k))).
  assert (B0 : Bounded n (indexAdd (normalizeText k) i m))
    by (apply indexAdd_bounded; assumption).
  revert B0. generalize (indexAdd (normalizeText k) i m).
  intros m0 B0 parts. revert m0 B0.
  induction parts as [|p parts IH]; intros m0 B0; cbn [fold_left]; [exact B0|].
  apply IH. destruct (2 <=? List.length p)%nat; [|exact B0].
  apply indexAdd_bounded; assumption.
Qed.

Lemma keywords_bounded (n i : nat) (kws : list value) (m : Index) :
  (i < n)%nat -> Bounded n m -> Bounded n (fold_left (indexKeyword i) kws m).
Proof.
  intros I. revert m. induction kws as [|k kws IH]; intros m B; cbn [fold_left];
    [exact B|].
  apply IH, indexKeyword_bounded; assumption.
Qed.

Lemma buildIndex_bounded (inds : list Industry) :
  Bounded (List.length inds) (buildIndex inds).
Proof.
  unfold buildIndex.
  assert (G : forall es m,
             (forall e, In e es -> (fst e < List.length inds)%nat) ->
             Bounded (List.length inds) m ->
             Bounded (List.length inds)
                     (fold_left (fun m e => fold_left (indexKeyword (fst e))
                                                      (keywords (snd e)) m)
                                es m)).
  { induction es as [|e es IH]; intros m He B; cbn [fold_left]; [exact B|].
    apply IH; [intros e' H'; apply He; right; exact H'|].
    apply keywords_bounded; [apply He; left; reflexivity | exact B]. }
  apply G.
  - intros [i ind] H. apply in_combine_l in H. apply in_seq in H. simpl. lia.
  - intros key s [].
Qed.

Lemma buildIndex_snoc (inds : list Industry) (new : Industry) :
  buildIndex (inds ++ [new])
  = fold_left (indexKeyword (List.length inds)) (keywords new) (buildIndex inds).
Proof.
  unfold buildIndex. rewrite combine_seq_snoc, fold_left_app. reflexivity.
Qed.

Lemma found_below (st : State) (txt : jsstr) (n : nat) :
  Bounded n (keywordIndex st) -> KeysBelow n (foundIndustries st txt).
Proof.
  intros B. unfold foundIndustries.
  assert (G : forall index found,
             Bounded n index -> KeysBelow n found ->
             KeysBelow n (fold_left
                            (fun found (e : jsstr * list nat) =>
                               if includes txt (fst e)
                               then fold_left (fun f idx => bump (15 # 10) idx f)
                                              (snd e) found
                               else found) index found)).
  { induction index as [|[k s] index IH]; intros found Bi Hf; simpl; auto.
    apply IH; [intros key s' H; apply (Bi key s'); right; exact H|].
    destruct (includes txt k); auto.
    apply bumps_below; [|exact Hf].
    apply (Bi k s). left. reflexivity. }
  apply G; [exact B | intros e []].
Qed.

Lemma hits_below (st : State) (tkns : list jsstr) (n : nat) :
  Bounded n (keywordIndex st) -> KeysBelow n (hitsByIdx st tkns).
Proof.
  intros B. unfold hitsByIdx.
  assert (G : forall hits, KeysBelow n hits ->
             KeysBelow n (fold_left
                            (fun hits t =>
                               match indexGet t (keywordIndex st) with
                               | Some inds =>
                                   fold_left (fun h idx => bump 1 idx h) inds hits
                               | None => hits
                               end) tkns hits)).
  { induction tkns as [|t tkns IH]; intros hits H; simpl; auto.
    apply IH. destruct (indexGet t (keywordIndex st)) as [inds|] eqn:E; auto.
    apply bumps_below; [|exact H].
    apply indexGet_In in E. apply (B t inds E). }
  apply G. intros e [].
Qed.

Lemma normalized_below (st : State) (m : list (nat * Q)) (n : nat) :
  KeysBelow n m -> KeysBelow n (normalized st m).
Proof.
  intros H e He. unfold normalized in He. apply in_map_iff in He.
  destruct He as (x & <- & Hx). apply (H x Hx).
Qed.

Lemma phraseStep_some (st : State) (t : Q) (txt : jsstr) (m : Match) :
  phraseStep st t txt = Some m ->
  (exists best, In best (normalized st (foundIndustries st txt)) /\
                (1 # 2 <= snd best)%Q /\
                m = result st (fst best) 1 phrase_index) \/
  (exists best, In best (normalized st (foundIndustries st txt)) /\
                (t * 2 <= snd best < 1 # 2)%Q /\
                m = result st (fst best) (snd best) phrase_index_weak).
Proof.
  unfold phraseStep.
  destruct (pickBest (normalized st (foundIndustries st txt))) as [best|] eqn:P;
    [|discriminate].
  apply pickBest_In in P. destruct P as [P _].
  destruct (Qle_bool (1 # 2) (snd best)) eqn:Q1.
  { intros H. inversion H; subst. left. exists best.
    apply Qle_bool_iff in Q1. auto. }
  apply Qle_bool_false in Q1.
  destruct (Qle_bool (t * 2) (snd best)) eqn:Q2; [|discriminate].
  intros H. inversion H; subst. right. exists best. apply Qle_bool_iff in Q2.
  split; [exact P|]. split; [lra|].
  unfold Qminb.
  replace (Qle_bool (9 # 10) (snd best)) with false; [reflexivity|].
  symmetry. apply not_true_is_false. intros X.
  apply Qle_bool_iff in X. lra.
Qed.

Lemma tokenStep_some (st : State) (t : Q) (txt : jsstr) (m : Match) :
  tokenStep st t txt = Some m ->
  exists best, In best (normalized st (hitsByIdx st (tokensOf (VStr txt)))) /\
               (t <= snd best)%Q /\
               m = result st (fst best) (snd best) token_overlap.
Proof.
  unfold tokenStep. cbv zeta.
  destruct (pickBest (normalized st (hitsByIdx st (tokensOf (VStr txt)))))
    as [best|] eqn:P; [|discriminate].
  apply pickBest_In in P. destruct P as [P _].
  destruct (Qle_bool t (snd best)) eqn:Q1; [|discriminate].
  intros H. inversion H; subst. exists best. apply Qle_bool_iff in Q1. auto.
Qed.

Lemma substringStep_some (st : State) (txt : jsstr) (index : Index) (m : Match) :
  substringStep st txt index = Some m ->
  exists key inds sub, In (key, inds) index /\ In sub (windows4 key) /\
                       includes txt sub = true /\
                       m = result st (hd 0%nat inds) (18 # 100)
                                  (substring key sub).
Proof.
  induction index as [|[key inds] r IH]; [discriminate|].
  cbn [substringStep].
  destruct (find (includes txt) (windows4 key)) as [sub|] eqn:F.
  - intros H. inversion H; subst. apply find_some in F.
    exists key, inds, sub. destruct F. repeat split; auto. left. reflexivity.
  - intros H. destruct (IH H) as (k & i & sub & A & B).
    exists k, i, sub. split; [right; exact A | exact B].
Qed.

Lemma substringStep_found (st : State) (txt : jsstr) (index : Index)
      (key sub : jsstr) (inds : list nat) :
  In (key, inds) index -> In sub (windows4 key) -> includes txt sub = true ->
  substringStep st txt index <> None.
Proof.
  induction index as [|[k i] r IH]; intros H W T; [destruct H|].
  cbn [substringStep].
  destruct (find (includes txt) (windows4 k)) as [s|] eqn:F; [discriminate|].
  destruct H as [H|H].
  - inversion H; subst. apply (find_none _ _ F) in W. congruence.
  - apply IH; assumption.
Qed.

(** What [bestMatch] answers, step by step. *)
Lemma bestMatch_cases (st : State) (raw : value) (threshold : option Q) (m : Match) :
  bestMatch st raw threshold = Some m ->
  let t := match threshold with Some t => t | None => (25 # 100)%Q end in
  let txt := normalizeText raw in
  txt <> [] /\
  ((exists best, In best (normalized st (foundIndustries st txt)) /\
                 (1 # 2 <= snd best)%Q /\
                 m = result st (fst best) 1 phrase_index) \/
   (exists best, In best (normalized st (foundIndustries st txt)) /\
                 (t * 2 <= snd best < 1 # 2)%Q /\
                 m = result st (fst best) (snd best) phrase_index_weak) \/
   (exists best, In best (normalized st (hitsByIdx st (tokensOf (VStr txt)))) /\
                 (t <= snd best)%Q /\
                 m = result st (fst best) (snd best) token_overlap) \/
   (exists key inds sub, In (key, inds) (keywordIndex st) /\
                         In sub (windows4 key) /\ includes txt sub = true /\
                         m = result st (hd 0%nat inds) (18 # 100)
                                    (substring key sub))).
Proof.
  intros H t txt. unfold bestMatch in H. fold t txt in H.
  destruct (isEmpty txt) eqn:E; [discriminate|].
  split; [intros X; rewrite X in E; discriminate|].
  destruct (phraseStep st t txt) as [m1|] eqn:P1.
  { inversion H; subst. apply phraseStep_some in P1. tauto. }
  destruct (tokenStep st t txt) as [m2|] eqn:P2.
  { inversion H; subst. apply tokenStep_some in P2. tauto. }
  apply substringStep_some in H. tauto.
Qed.

Lemma result_listed (st : State) (idx : nat) (score : Q) (k : Matched) :
  (idx < List.length (INDUSTRIES st))%nat ->
  exists ind, nth_error (INDUSTRIES st) idx = Some ind /\
              m_code (result st idx score k) = code ind /\
              m_name_fa (result st idx score k) = name_fa ind /\
              m_name_en (result st idx score k) = name_en ind.
Proof.
  intros H. destruct (nth_error (INDUSTRIES st) idx) as [ind|] eqn:E.
  - exists ind. unfold result, industryAt. rewrite (nth_error_nth _ _ _ E). auto.
  - apply nth_error_None in E. lia.
Qed.

(** X14. The answer of [bestMatch] always names an industry of the
    list: while the index is the one built from [INDUSTRIES], the code
    and the names of a match are those of the industry at some position
    of the list, whichever step found it. *)
Theorem bestMatch_listed (st : State) (raw : value) (threshold : option Q)
        (m : Match) :
  indexed st ->
  bestMatch st raw threshold = Some m ->
  exists i ind, nth_error (INDUSTRIES st) i = Some ind /\
                m_code m = code ind /\ m_name_fa m = name_fa ind /\
                m_name_en m = name_en ind.
Proof.
  intros X H.
  assert (B : Bounded (List.length (INDUSTRIES st)) (keywordIndex st))
    by (rewrite X; apply buildIndex_bounded).
  apply bestMatch_cases in H. cbv zeta in H.
  destruct H as
      (_ & [(best & I & _ & ->)|[(best & I & _ & ->)|[(best & I & _ & ->)|
            (key & inds & sub & I & _ & _ & ->)]]]).
  - exists (fst best). apply result_listed.
    apply (normalized_below st (found_below st _ B) best I).
  - exists (fst best). apply result_listed.
    apply (normalized_below st (found_below st _ B) best I).
  - exists (fst best). apply result_listed.
    apply (normalized_below st (hits_below st _ B) best I).
  - exists (hd 0%nat inds). apply result_listed.
    destruct (B key inds I) as [N L].
    destruct inds as [|i inds]; [congruence|]. apply L. left. reflexivity.
Qed.

(** X15. The score of a match by the step that found it: 1 for
    [phrase-index]; for [phrase-index-weak] the share of the keys found,
    from twice the threshold up to, but not reaching, 0.5, so that the
    cap at 0.9 never applies and, with the default threshold 0.25, this
    answer is never given; the threshold at least for [token-overlap];
    0.18 for a match on four characters of a key of the index that
    occur in the text. *)
Theorem bestMatch_scores (st : State) (raw : value) (threshold : option Q)
        (m : Match) :
  bestMatch st raw threshold = Some m ->
  let t := match threshold with Some t => t | None => (25 # 100)%Q end in
  match matched m with
  | phrase_index => m_score m = 1%Q
  | phrase_index_weak => (t * 2 <= m_score m < 1 # 2)%Q /\ threshold <> None
  | token_overlap => (t <= m_score m)%Q
  | substring key sub =>
      m_score m = (18 # 100)%Q /\
      (exists inds, In (key, inds) (keywordIndex st)) /\
      In sub (windows4 key) /\ includes (normalizeText raw) sub = true
  end.
Proof.
  intros H t. apply bestMatch_cases in H. cbv zeta in H. fold t in H.
  destruct H as
      (_ & [(best & I & Q & ->)|[(best & I & Q & ->)|[(best & I & Q & ->)|
            (key & inds & sub & I & W & T & ->)]]]); cbn [matched m_score result].
  - reflexivity.
  - split; [exact Q|]. intros E. unfold t in Q. rewrite E in Q. lra.
  - exact Q.
  - split; [reflexivity|]. split; [exists inds; exact I|]. auto.
Qed.

(** X16. [bestMatch] does answer as soon as the normalized text shares
    four consecutive characters with a key of the index. *)
Theorem bestMatch_four_characters (st : State) (raw : value)
        (threshold : option Q) (key sub : jsstr) (inds : list nat) :
  In (key, inds) (keywordIndex st) ->
  In sub (windows4 key) ->
  includes (normalizeText raw) sub = true ->
  exists m, bestMatch st raw threshold = Some m.
Proof.
  intros I W T. unfold bestMatch. cbv zeta.
  destruct (isEmpty (normalizeText raw)) eqn:E.
  { apply isEmpty_nil in E. rewrite E in T. apply includes_nil_l in T.
    apply windows4_length in W. rewrite T in W. discriminate. }
  destruct (phraseStep _ _ _) as [m|]; [exists m; reflexivity|].
  destruct (tokenStep _ _ _) as [m|]; [exists m; reflexivity|].
  pose proof (@substringStep_found st (normalizeText raw) (keywordIndex st)
                                   key sub inds I W T) as N.
  destruct (substringStep _ _ _) as [m|]; [exists m; reflexivity | congruence].
Qed.

End Answers.

Lemma bestMatch_listed_witness :
  exists i ind,
    nth_error (IndustryIndexerV3.INDUSTRIES IndustryIndexerV3.initial) i = Some ind /\
    option_map IndustryIndexerV3.m_code
               (IndustryIndexerV3.bestMatch IndustryIndexerV3.initial
                                            (Examples.s "welding") None)
    = Some (IndustryIndexerV3.code ind).
Proof.
  destruct (IndustryIndexerV3.bestMatch IndustryIndexerV3.initial
                                        (Examples.s "welding") None)
    as [m|] eqn:B; [|vm_compute in B; discriminate].
  destruct (@bestMatch_listed Latin_Arabic IndustryIndexerV3.initial
                              (Examples.s "welding") None m)
    as (i & ind & N & C & _); [reflexivity | exact B |].
  exists i, ind. split; [exact N|].
  cbn [option_map]. rewrite C. reflexivity.
Defined.

Lemma bestMatch_scores_witness :
  exists m,
    IndustryIndexerV3.bestMatch IndustryIndexerV3.initial
                                (Examples.s "welding") None = Some m /\
    IndustryIndexerV3.m_score m = (18 # 100)%Q.
Proof.
  destruct (IndustryIndexerV3.bestMatch IndustryIndexerV3.initial
                                        (Examples.s "welding") None)
    as [m|] eqn:B; [|vm_compute in B; discriminate].
  exists m. split; [reflexivity|].
  pose proof (@bestMatch_scores Latin_Arabic IndustryIndexerV3.initial
                                (Examples.s "welding") None m B) as S.
  cbv zeta in S.
  assert (K : IndustryIndexerV3.matched m
              = IndustryIndexerV3.substring (str "weld") (str "weld"))
    by (vm_compute in B; inversion B; reflexivity).
  rewrite K in S. apply S.
Defined.

Lemma bestMatch_four_characters_witness :
  exists m, IndustryIndexerV3.bestMatch IndustryIndexerV3.initial
                                        (Examples.s "rewelded") None = Some m.
Proof.
  apply (@bestMatch_four_characters
           Latin_Arabic IndustryIndexerV3.initial (Examples.s "rewelded") None
           (str "weld") (str "weld") [0%nat; 61%nat]).
  - apply indexGet_In. vm_compute. reflexivity.
  - left. reflexivity.
  - vm_compute. reflexivity.
Defined.

Section Loading.
Context {U : Unicode}.

Import IndustryIndexerV3.

Lemma addIndustry_some (st st' : State) (obj : value) :
  addIndustry st obj = Some st' ->
  exists kws,
    get obj "keywords" = VArr kws /\ truthy obj = true /\
    truthy (get obj "code") = true /\
    INDUSTRIES st'
    = INDUSTRIES st ++
      [{| code := get obj "code";
          name_fa := orElse (get obj "name_fa") (get obj "code");
          name_en := orElse (get obj "name_en") (get obj "code");
          keywords := kws |}] /\
    indexed st'.
Proof.
  unfold addIndustry.
  destruct (get obj "keywords") as [| | | | |kws|] eqn:K; try discriminate.
  destruct (truthy obj) eqn:T; [|discriminate].
  destruct (truthy (get obj "code")) eqn:C; [|discriminate].
  cbn [andb]. intros H. inversion H; subst; clear H.
  exists kws. repeat split; reflexivity.
Qed.

(** X17. [addIndustry] appends the record to the list, with its code as
    the name where a name is missing, and leaves the index that
    [buildIndex] builds from the longer list. That index is the index
    before with the keywords of the new industry added: every industry
    listed under a key stays listed under it, at its position. A
    record without a code, or whose [keywords] is not an array, is
    refused with an exception. *)
Theorem addIndustry_extends (st : State) (obj : value) :
  indexed st ->
  match addIndustry st obj with
  | Some st' =>
      exists kws,
        get obj "keywords" = VArr kws /\
        truthy (get obj "code") = true /\
        INDUSTRIES st'
        = INDUSTRIES st ++
          [{| code := get obj "code";
              name_fa := orElse (get obj "name_fa") (get obj "code");
              name_en := orElse (get obj "name_en") (get obj "code");
              keywords := kws |}] /\
        indexed st' /\
        keywordIndex st'
        = fold_left (indexKeyword (List.length (INDUSTRIES st))) kws
                    (keywordIndex st) /\
        (forall key i, Has (keywordIndex st) key i -> Has (keywordIndex st') key i)
  | None =>
      truthy (get obj "code") = false \/
      forall kws, get obj "keywords" <> VArr kws
  end.
Proof.
  intros X. destruct (addIndustry st obj) as [st'|] eqn:A.
  - apply addIndustry_some in A.
    destruct A as (kws & K & _ & C & I & X').
    exists kws. split; [exact K|]. split; [exact C|]. split; [exact I|].
    split; [exact X'|].
    assert (E : keywordIndex st'
                = fold_left (indexKeyword (List.length (INDUSTRIES st))) kws
                            (keywordIndex st)).
    { rewrite X', I, buildIndex_snoc, <- X. reflexivity. }
    split; [exact E|].
    intros key i H. rewrite E. apply keywords_keep, H.
  - unfold addIndustry in A.
    destruct (get obj "keywords") as [| | | | |kws|] eqn:K;
      try (right; intros kws'; discriminate).
    destruct (truthy obj) eqn:T.
    + destruct (truthy (get obj "code")); [discriminate | left; reflexivity].
    + left. destruct obj; try discriminate T; reflexivity.
Qed.

(** The loop of [loadFromJSON]. *)
Lemma load_loop (arr : list value) (st : State) :
  let valid := fun obj => truthy (get obj "code") && isArray (get obj "keywords") in
  let st' := fold_left (fun st obj => match addIndustry st obj with
                                      | Some st' => st'
                                      | None => st
                                      end) arr st in
  (indexed st -> indexed st') /\
  exists added,
    INDUSTRIES st' = INDUSTRIES st ++ added /\
    List.map code added = List.map (fun obj => get obj "code") (filter valid arr) /\
    List.map keywords added
    = List.map (fun obj => match get obj "keywords" with
                           | VArr kws => kws
                           | _ => []
                           end) (filter valid arr).
Proof.
  cbv zeta. revert st. induction arr as [|obj arr IH]; intros st.
  - simpl. split; [auto|]. exists []. rewrite app_nil_r. auto.
  - cbn [fold_left filter].
    destruct (addIndustry st obj) as [st1|] eqn:A.
    + apply addIndustry_some in A.
      destruct A as (kws & K & _ & C & I & X1).
      destruct (IH st1) as (X' & added & E1 & E2 & E3).
      split; [intros _; apply X', X1|].
      rewrite C, K. cbn [andb isArray].
      eexists (_ :: added). rewrite E1, I, <- app_assoc.
      split; [reflexivity|]. cbn [List.map code keywords].
      rewrite E2, E3, K. auto.
    + destruct (IH st) as (X' & added & E1 & E2 & E3).
      split; [exact X'|].
      replace (truthy (get obj "code") && isArray (get obj "keywords"))
        with false; [exists added; auto|].
      unfold addIndustry in A.
      destruct (get obj "keywords") as [| | | | |kws|];
        try (symmetry; apply andb_false_r).
      destruct (truthy obj) eqn:T.
      * destruct (truthy (get obj "code")); [discriminate | reflexivity].
      * destruct obj; try discriminate T; reflexivity.
Qed.

(** X18. [loadFromJSON] answers [false] and changes nothing when the
    request fails or the payload is not an array. For an array it
    answers [true]: the records with a code and an array of keywords
    are appended to the list in their order, the others are skipped,
    and the index stays the one built from the list. *)
Theorem loadFromJSON_appends (st : State) (r : response) :
  let valid := fun obj => truthy (get obj "code") && isArray (get obj "keywords") in
  match r with
  | Json (VArr arr) =>
      fst (loadFromJSON st r) = true /\
      (indexed st -> indexed (snd (loadFromJSON st r))) /\
      exists added,
        INDUSTRIES (snd (loadFromJSON st r)) = INDUSTRIES st ++ added /\
        List.map code added
        = List.map (fun obj => get obj "code") (filter valid arr) /\
        List.map keywords added
        = List.map (fun obj => match get obj "keywords" with
                               | VArr kws => kws
                               | _ => []
                               end) (filter valid arr)
  | _ => loadFromJSON st r = (false, st)
  end.
Proof.
  cbv zeta. destruct r as [| | |body]; try reflexivity.
  destruct body; try reflexivity.
  cbn [loadFromJSON fst snd]. split; [reflexivity|].
  apply load_loop.
Qed.

End Loading.

Lemma addIndustry_extends_witness :
  exists st',
    IndustryIndexerV3.addIndustry IndustryIndexerV3.initial Examples.florist
    = Some st' /\
    Has (IndustryIndexerV3.keywordIndex st') (str "weld") 0.
Proof.
  pose proof (@addIndustry_extends Latin_Arabic IndustryIndexerV3.initial
                                   Examples.florist) as A.
  destruct (IndustryIndexerV3.addIndustry IndustryIndexerV3.initial
                                          Examples.florist) as [st'|] eqn:E.
  - exists st'. split; [reflexivity|].
    destruct A as (kws & _ & _ & _ & _ & _ & K); [reflexivity|].
    apply K. exists [0%nat; 61%nat]. split; [|left; reflexivity].
    apply indexGet_In. vm_compute. reflexivity.
  - vm_compute in E. discriminate.
Defined.

Lemma loadFromJSON_appends_witness :
  let r := Json (VArr [Examples.florist; VNull; Examples.plumbing]) in
  fst (IndustryIndexerV3.loadFromJSON IndustryIndexerV3.initial r) = true /\
  indexed (snd (IndustryIndexerV3.loadFromJSON IndustryIndexerV3.initial r)).
Proof.
  intros r.
  destruct (@loadFromJSON_appends Latin_Arabic IndustryIndexerV3.initial r)
    as (A & B & _).
  split; [exact A | apply B; reflexivity].
Defined.

(* ================================================================== *)
(** * product_matcher.js: scores, order and lookup *)
(* ================================================================== *)

Lemma toFixed3_one : (toFixed3 1 == 1)%Q.
Proof. reflexivity. Qed.

Section Products.
Context {U : Unicode}.

Import ProductMatcher.

Lemma add_ge (q w : Q) (r : Reason) (acc : Acc) :
  (0 <= w)%Q -> (q <= fst acc)%Q -> (q <= fst (add w r acc))%Q.
Proof. unfold add. simpl. intros. lra. Qed.

Lemma when_ge (q : Q) (b : bool) (f : Acc -> Acc) (acc : Acc) :
  ((q <= fst acc)%Q -> (q <= fst (f acc))%Q) ->
  (q <= fst acc)%Q -> (q <= fst (when b f acc))%Q.
Proof. unfold when. destruct b; auto. Qed.

Ltac rises :=
  repeat first
    [ assumption
    | apply when_ge; [intros ?|]
    | apply add_ge; [lra|] ].

Lemma envStep_ge q prod e acc :
  (q <= fst acc)%Q -> (q <= fst (envStep prod e acc))%Q.
Proof.
  intros H. unfold envStep.
  destruct (isEmpty e); auto.
  repeat match goal with
         | |- (_ <= fst (if ?b then _ else _))%Q => destruct b
         end; rises.
Qed.

Lemma prefStep_ge q prod p acc :
  (q <= fst acc)%Q -> (q <= fst (prefStep prod p acc))%Q.
Proof.
  intros H. unfold prefStep.
  destruct (isEmpty p); auto. cbv zeta. rises.
Qed.

Lemma industryStep_ge q prod i acc :
  (q <= fst acc)%Q -> (q <= fst (industryStep prod i acc))%Q.
Proof.
  intros H. unfold industryStep.
  destruct (isEmpty i); auto. cbv zeta. rises.
Qed.

Lemma cutLevelStep_ge q prod qh qp acc :
  (q <= fst acc)%Q -> (q <= fst (cutLevelStep prod qh qp acc))%Q.
Proof.
  intros H. unfold cutLevelStep.
  destruct (_ || _); auto.
  destruct (_cutLevel prod) as [v|]; auto.
  destruct (v =? 0); auto.
  apply add_ge; auto.
  destruct (Qminb_cases 1 (inject_Z (Z.of_N v) * (12 # 100))) as [-> | ->];
    [lra|].
  apply Qmult_le_0_compat; [|lra].
  unfold Qle; simpl. lia.
Qed.

Lemma same_reasons (a : Acc) : exists t, snd a = snd a ++ t.
Proof. exists []. rewrite app_nil_r. reflexivity. Qed.

Lemma add_reasons (w : Q) (r : Reason) (x a : Acc) :
  (exists t, snd x = snd a ++ t) -> exists t, snd (add w r x) = snd a ++ t.
Proof.
  intros (t & E). exists (t ++ [r]). unfold add. simpl.
  rewrite E, app_assoc. reflexivity.
Qed.

Lemma when_reasons (b : bool) (f : Acc -> Acc) (x a : Acc) :
  (forall y, (exists t, snd y = snd a ++ t) -> exists t, snd (f y) = snd a ++ t) ->
  (exists t, snd x = snd a ++ t) -> exists t, snd (when b f x) = snd a ++ t.
Proof. unfold when. destruct b; auto. Qed.

Ltac grows :=
  repeat first
    [ assumption
    | apply same_reasons
    | apply when_reasons; [intros ? ?|]
    | apply add_reasons ].

Lemma envStep_reasons prod e a : exists t, snd (envStep prod e a) = snd a ++ t.
Proof.
  unfold envStep. destruct (isEmpty e); [apply same_reasons|].
  repeat match goal with
         | |- exists t, snd (if ?b then _ else _) = _ => destruct b
         end; grows.
Qed.

Lemma prefStep_reasons prod p a : exists t, snd (prefStep prod p a) = snd a ++ t.
Proof.
  unfold prefStep. destruct (isEmpty p); [apply same_reasons|]. cbv zeta. grows.
Qed.

Lemma industryStep_reasons prod i a :
  exists t, snd (industryStep prod i a) = snd a ++ t.
Proof.
  unfold industryStep. destruct (isEmpty i); [apply same_reasons|].
  cbv zeta. grows.
Qed.

Lemma cutLevelStep_reasons prod qh qp a :
  exists t, snd (cutLevelStep prod qh qp a) = snd a ++ t.
Proof.
  unfold cutLevelStep. destruct (_ || _); [|apply same_reasons].
  destruct (_cutLevel prod) as [v|]; [|apply same_reasons].
  destruct (v =? 0); grows.
Qed.

Lemma scoreProduct_le (prod : Loaded) (query : Query) :
  (fst (scoreProduct prod query) <= 1)%Q.
Proof.
  unfold scoreProduct. cbv zeta. cbn [fst].
  match goal with
  | |- (toFixed3 (Qminb 1 ?x) <= 1)%Q =>
      pose proof (Qminb_lb 1 x) as [B _];
      apply (Qle_trans _ (toFixed3 1)); [apply toFixed3_mono, B|]
  end.
  rewrite toFixed3_one. lra.
Qed.

(** X19. The score of [scoreProduct] lies between the baseline 0.05 and
    1. A product one of whose tags is the hazard of the query,
    normalized, has the score 1, whatever the rest of the query, and
    [hazard_exact] is the first of its reasons. *)
Theorem scoreProduct_range (prod : Loaded) (query : Query) :
  let qHaz := norm (orElse (hazard query) (VStr [])) in
  (5 # 100 <= fst (scoreProduct prod query) <= 1)%Q /\
  (qHaz <> [] -> arrIncludes (_tags prod) qHaz = true ->
   (fst (scoreProduct prod query) == 1)%Q /\
   hd_error (snd (scoreProduct prod query)) = Some (hazard_exact qHaz)).
Proof.
  intros qHaz. split; [split; [apply scoreProduct_ge | apply scoreProduct_le]|].
  intros N T. unfold scoreProduct. cbv zeta. fold qHaz. cbn [fst snd].
  set (a1 := hazardStep prod qHaz (0%Q, [])).
  assert (E1 : a1 = (0 + 1, [hazard_exact qHaz])%Q).
  { unfold a1, hazardStep. destruct qHaz; [congruence|]. cbn [isEmpty].
    rewrite T. reflexivity. }
  split.
  - match goal with
    | |- (toFixed3 (Qminb 1 (fst ?acc + _)) == 1)%Q =>
        assert (G : (1 <= fst acc)%Q)
    end.
    { apply cutLevelStep_ge, industryStep_ge, prefStep_ge, envStep_ge.
      rewrite E1. simpl. lra. }
    match goal with
    | |- (toFixed3 (Qminb 1 ?x) == 1)%Q =>
        replace (Qminb 1 x) with 1%Q; [reflexivity|]
    end.
    unfold Qminb.
    match goal with
    | |- _ = if Qle_bool 1 ?x then _ else _ =>
        replace (Qle_bool 1 x) with true; [reflexivity|]
    end.
    symmetry. apply Qle_bool_iff. lra.
  - rewrite E1.
    assert (K : forall (x acc : Acc) (r : Reason),
               (exists t, snd x = snd acc ++ t) ->
               hd_error (snd acc) = Some r -> hd_error (snd x) = Some r).
    { intros x acc r (t & ->) H.
      destruct (snd acc); [discriminate | exact H]. }
    eapply K; [apply cutLevelStep_reasons|].
    eapply K; [apply industryStep_reasons|].
    eapply K; [apply prefStep_reasons|].
    eapply K; [apply envStep_reasons|].
    reflexivity.
Qed.

End Products.

Lemma scoreProduct_range_witness :
  (ProductMatcher.matchScore (ProductMatcher.pick Examples.cutHazard
                                                  Examples.cutGlove) == 1)%Q /\
  hd_error (ProductMatcher.reasons (ProductMatcher.pick Examples.cutHazard
                                                        Examples.cutGlove))
  = Some (ProductMatcher.hazard_exact (str "cut")).
Proof.
  destruct (@scoreProduct_range Latin_Arabic Examples.cutGlove Examples.cutHazard)
    as [_ E].
  apply E; [vm_compute; discriminate | reflexivity].
Defined.

Lemma digit_value (d : char) : isAsciiDigit d = true -> d - 0x30 <= 9.
Proof. chars. Qed.

Lemma matchCut_digit (s : jsstr) (v : N) :
  ProductMatcher.matchCut s = Some v -> v <= 9.
Proof.
  induction s as [|c s IH]; cbn [ProductMatcher.matchCut].
  - cbn. discriminate.
  - destruct (ProductMatcher.digitAfterCut (c :: s)) as [d|] eqn:D; [|exact IH].
    intros X. inversion X; subst. clear X IH. revert D.
    unfold ProductMatcher.digitAfterCut.
    destruct s as [|u [|t r]]; try discriminate.
    destruct (_ && _ && _); [|discriminate]. cbv zeta.
    generalize (match trimStart r with
                | [] => trimStart r
                | x :: r' => if (x =? 58) || (x =? 45) then r' else trimStart r
                end).
    intros q. destruct (trimStart q) as [|d r']; [discriminate|].
    destruct (isAsciiDigit d) eqn:A; [|discriminate].
    intros X. inversion X; subst. apply digit_value, A.
Qed.

Lemma matchLoneDigit_digit (s : jsstr) (b : bool) (v : N) :
  ProductMatcher.matchLoneDigit b s = Some v -> v <= 9.
Proof.
  revert b. induction s as [|d r IH]; intros b; cbn [ProductMatcher.matchLoneDigit].
  - discriminate.
  - cbv zeta. destruct (isAsciiDigit d) eqn:A; cbn [andb]; [|apply IH].
    destruct (negb b && negb _); [|apply IH].
    intros X. inversion X; subst. apply digit_value, A.
Qed.

Section Catalogue.
Context {U : Unicode}.

Import ProductMatcher.

(** X20. The cut level that [init] stores with a product is 5 when the
    product is tagged [high_cut]; otherwise it is the digit that
    follows [cut] in [std.raw] (or in [std.en388] when [raw] is
    missing), or else a digit that stands alone there; it is a single
    digit, 9 at most, and there is none for a product without [std]. *)
Theorem extractCutLevel_digit (prod : Product) :
  ((exists t, tags prod = Some t /\ arrIncludes t (str "high_cut") = true) ->
   extractCutLevel prod = Some 5) /\
  (forall v, extractCutLevel prod = Some v -> v <= 9) /\
  ((forall t, tags prod = Some t -> arrIncludes t (str "high_cut") = false) ->
   std prod = None -> toLowerCase [] = [] -> extractCutLevel prod = None).
Proof.
  unfold extractCutLevel. split; [|split].
  - intros (t & -> & ->). reflexivity.
  - intros v. destruct (match tags prod with Some t => _ | None => false end).
    + intros X. inversion X. lia.
    + cbv zeta. destruct (matchCut _) as [d|] eqn:M.
      * intros X. inversion X; subst. apply (matchCut_digit _ M).
      * apply matchLoneDigit_digit.
  - intros T S L. rewrite S.
    replace (match tags prod with Some t => arrIncludes t (str "high_cut")
                             | None => false end) with false
      by (destruct (tags prod) as [t|]; [symmetry; apply T|]; reflexivity).
    cbv zeta. rewrite L. reflexivity.
Qed.

Lemma ahead_order (x y : Pick) :
  (ahead x y = true -> (matchScore y <= matchScore x)%Q) /\
  (ahead x y = false -> (matchScore x <= matchScore y)%Q).
Proof.
  unfold ahead. destruct (Qeq_bool (matchScore y) (matchScore x)) eqn:E.
  - apply Qeq_bool_iff in E. split; intros _; lra.
  - split; intros H.
    + apply Qlt_bool_iff in H. lra.
    + apply Qnot_lt_le. intros X. apply Qlt_bool_iff in X. congruence.
Qed.

(** X21. [pickProducts] returns the products in the order of
    decreasing score; each is a product of the catalogue, with its
    fields, its identifier as a string and the score and the reasons of
    [scoreProduct] for the query, and no score exceeds 1. *)
Theorem pickProducts_sorted (catalog : list Loaded) (query : Query)
        (topN : option Z) :
  let picks := pickProducts catalog query topN in
  descending matchScore picks /\
  Forall (fun p => exists prod, In prod catalog /\ p = pick query prod /\
                                pick_id p = _id prod /\
                                matchScore p = fst (scoreProduct prod query) /\
                                reasons p = snd (scoreProduct prod query) /\
                                (matchScore p <= 1)%Q) picks.
Proof.
  intros picks. unfold picks, pickProducts. split.
  - apply slice0_sorted, StronglySorted_filter.
    apply (@sortBy_sorted _ ahead (fun a b => (matchScore b <= matchScore a)%Q)
                          (fun _ => True)).
    + intros x y z H1 H2. lra.
    + intros x y _ _. apply ahead_order.
    + intros x y _ _. apply ahead_order.
    + apply Forall_forall. auto.
  - apply Forall_forall. intros p H.
    apply slice0_In, filter_In in H. destruct H as [H _].
    apply sortBy_In, in_map_iff in H. destruct H as (prod & <- & H).
    exists prod. repeat split; auto. cbn [pick matchScore].
    apply scoreProduct_le.
Qed.



End Catalogue.

Lemma extractCutLevel_digit_witness :
  ProductMatcher._cutLevel Examples.cutGlove = Some 3 /\
  ProductMatcher._cutLevel
    (nth 0 Examples.builtin
         Examples.cutGlove) = Some 5.
Proof.
  destruct (@extractCutLevel_digit
              Latin_Arabic
              (ProductMatcher.product
                 (nth 0 Examples.builtin
                      Examples.cutGlove))) as (A & _ & _).
  split; [reflexivity|].
  apply A. eexists. split; reflexivity.
Defined.


(* ================================================================== *)
(** * intent_matcher.js: the intent of a text *)
(* ================================================================== *)

Section Intents.
Context {U : Unicode}.

Import IntentMatcher.



Lemma keywordScore_no_token (k : value) : keywordScore [] k = 0%Q.
Proof.
  unfold keywordScore. cbv zeta.
  destruct (normalizeFa k) as [|c nk]; [reflexivity|]. cbn [isEmpty].
  destruct (1 <? _)%nat; reflexivity.
Qed.

Lemma scoreForTextAgainstList_no_token (l : list value) :
  (scoreForTextAgainstList [] l == 0)%Q.
Proof.
  unfold scoreForTextAgainstList.
  assert (G : forall acc, (fold_left (fun score k => score + keywordScore [] k) l acc
                           == acc)%Q).
  { induction l as [|k l IH]; intros acc; simpl; [reflexivity|].
    rewrite IH, keywordScore_no_token. lra. }
  apply G.
Qed.





(** X24. A text without a token (empty, or punctuation only) matches
    nothing: the intent is [unknown] with the scores 0, and no industry
    and no hazard is reported. *)
Theorem matchIntent_no_token (dict : Dict) (text : value) :
  tokenSet (VStr (normalizeFa text)) = [] ->
  exists r,
    matchIntent (Some dict) text = Some r /\
    intent r = str "unknown" /\ raw_score r = 0%Q /\ (score r == 0)%Q /\
    r_industries r = [] /\ r_hazards r = [] /\ r_tokens r = [].
Proof.
  intros T. unfold matchIntent. cbv zeta.
  eexists. split; [reflexivity|].
  cbn [intent raw_score score r_industries r_hazards r_tokens].
  unfold bestIntent, computeIntentScores. cbv zeta.
  cbn [intentScores industryScores hazardScores IntentMatcher.tokens].
  rewrite T.
  assert (Z : forall o, (intentScore [] o == 0)%Q).
  { intros o. unfold intentScore.
    rewrite !scoreForTextAgainstList_no_token. lra. }
  assert (P : forall entries, positiveScores [] entries = []).
  { intros entries. unfold positiveScores. apply filter_nothing.
    intros e H. apply in_map_iff in H. destruct H as (x & <- & _). cbn [snd].
    apply not_true_is_false. intros X. apply Qlt_bool_iff in X.
    rewrite scoreForTextAgainstList_no_token in X. lra. }
  assert (B : fold_left (fun best (e : jsstr * Q) =>
                           if Qlt_bool (best_score best) (snd e)
                           then {| best_name := fst e; best_score := snd e |}
                           else best)
                        (List.map (fun e => (fst e, intentScore [] (snd e)))
                                  (intents dict))
                        {| best_name := str "unknown"; best_score := 0 |}
              = {| best_name := str "unknown"; best_score := 0 |}).
  { induction (intents dict) as [|e l IH]; [reflexivity|].
    cbn [List.map fold_left fst snd best_score].
    replace (Qlt_bool 0 (intentScore [] (snd e))) with false; [exact IH|].
    symmetry. apply not_true_is_false. intros X. apply Qlt_bool_iff in X.
    rewrite Z in X. lra. }
  rewrite B, !P. cbn [best_name best_score].
  repeat split; reflexivity.
Qed.


End Intents.


Lemma matchIntent_no_token_witness :
  exists r,
    IntentMatcher.matchIntent (Some Examples.dictionary) (Examples.s " ?! ")
    = Some r /\
    IntentMatcher.intent r = str "unknown" /\
    IntentMatcher.r_industries r = [].
Proof.
  destruct (@matchIntent_no_token Latin_Arabic Examples.dictionary
                                  (Examples.s " ?! "))
    as (r & E & N & _ & _ & I & _); [reflexivity|].
  exists r. auto.
Defined.


(* ================================================================== *)
(** * Symmetry and idempotence *)
(* ================================================================== *)

Lemma LongestCommon_sym (A : Type) (a b : list A) (n : nat) :
  LongestCommon a b n -> LongestCommon b a n.
Proof.
  intros [(s & S1 & S2 & L) M]. split.
  - exists s. auto.
  - intros s' H1 H2. apply M; assumption.
Qed.

Lemma LongestCommon_unique (A : Type) (a b : list A) (n m : nat) :
  LongestCommon a b n -> LongestCommon a b m -> n = m.
Proof.
  intros [(s & S1 & S2 & L) M] [(s' & S1' & S2' & L') M'].
  specialize (M s' S1' S2'). specialize (M' s S1 S2). lia.
Qed.

Lemma NoDup_same_length (l1 l2 : list jsstr) :
  NoDup l1 -> NoDup l2 -> (forall x, In x l1 <-> In x l2) ->
  List.length l1 = List.length l2.
Proof.
  intros N1 N2 H. apply Permutation_length, NoDup_Permutation; assumption.
Qed.

Lemma NoDup_filter_of (A : Type) (p : A -> bool) (l : list A) :
  NoDup l -> NoDup (filter p l).
Proof.
  induction 1 as [|x l Hx Hl IH]; simpl; [constructor|].
  destruct (p x); [|exact IH]. constructor; [|exact IH].
  intros H. apply filter_In in H. tauto.
Qed.

Section Symmetry.
Context {U : Unicode}.

Import KnowledgeEngine.

Lemma lcsTable_sym (A : Type) (eqb : A -> A -> bool) (a b : list A) :
  (forall x y, eqb x y = true <-> x = y) ->
  lcsTable eqb a b = lcsTable eqb b a.
Proof.
  intros H. apply (@LongestCommon_unique _ a b).
  - apply lcsTable_longest, H.
  - apply LongestCommon_sym, lcsTable_longest, H.
Qed.

(** X27. The two similarities of [scoreCandidate] that compare the
    query with the title do not depend on the order of their
    arguments: [tokenOverlapScore], [lcsLength] and [lcsRatio] are
    symmetric. *)
Theorem similarities_symmetric (a b : value) :
  tokenOverlapScore a b = tokenOverlapScore b a /\
  lcsLength a b = lcsLength b a /\
  lcsRatio a b = lcsRatio b a.
Proof.
  assert (L : lcsLength a b = lcsLength b a).
  { unfold lcsLength. cbv zeta.
    rewrite (orb_comm (List.length (ensureString a) =? 0)%nat),
            (orb_comm (300 <? List.length (ensureString a))%nat).
    destruct (_ || _); [reflexivity|].
    destruct (_ || _).
    - rewrite (orb_comm (List.length (tokenize (VStr (ensureString a))) =? 0)%nat).
      destruct (_ || _); [reflexivity|]. apply lcsTable_sym, eqb_str_eq.
    - apply lcsTable_sym, N.eqb_eq. }
  split; [|split; [exact L|]].
  - unfold tokenOverlapScore. cbv zeta.
    set (A := uniq (tokenize a)). set (B := uniq (tokenize b)).
    assert (NA : NoDup A) by apply uniq_NoDup.
    assert (NB : NoDup B) by apply uniq_NoDup.
    rewrite (orb_comm (List.length A =? 0)%nat).
    destruct (_ || _); [reflexivity|].
    replace (List.length (filter (arrIncludes A) B))
      with (List.length (filter (arrIncludes B) A)).
    2:{ apply NoDup_same_length; try (apply NoDup_filter_of; assumption).
        intros x. rewrite !filter_In, <- !arrIncludes_In. tauto. }
    replace (List.length (uniq (B ++ A))) with (List.length (uniq (A ++ B)));
      [reflexivity|].
    apply NoDup_same_length; try apply uniq_NoDup.
    intros x. rewrite !uniq_In, !in_app_iff. tauto.
  - unfold lcsRatio. cbv zeta.
    rewrite L, (Nat.max_comm (List.length (ensureString a))). reflexivity.
Qed.

End Symmetry.

Section Normalized.
Context {U : Unicode} {L : UnicodeLower U}.


End Normalized.

